(** * ML Export Wizard: the query composition engine of [utils/exporter.py]

    A shallow embedding of the parts of [ml_export_wizard/utils/exporter.py]
    that build SQL text: the fragment merge ([merge_sql_dicts]), column
    rendering per query layer, field lookup, formula and extra-column
    resolution, the join traversal of a dataset group, the query request with
    its execution lock, and the rollup's preparation of its inner request.

    Conventions.
    - Python [str] is [string]; a Python [dict] used as a map is a [gmap];
      Python values stored in settings, filters and parameter maps are [pyval].
    - A raised exception is [Raise e]; a normal return is [Ok v].
    - Objects that the code mutates in place and shares (the request, its
      [where_before_join] dictionary and the lists inside it) live in an
      explicit heap, see [Module Heap]. *)

From Stdlib Require Import ZArith Ascii String List.
From stdpp Require Import base option list gmap strings fin_maps pretty.

Local Open Scope string_scope.
Local Open Scope nat_scope.
Local Open Scope list_scope.
Set Warnings "-clear-no-such-hyp".
Set Warnings "-register-all".

(** ** Python values and exceptions *)

(** The values that occur in settings dictionaries, filter items and SQL
    parameter maps.  A [PDict] keeps its items in insertion order. *)
Inductive pyval : Type :=
| PNone
| PBool (b : bool)
| PInt (z : Z)
| PStr (s : string)
| PList (items : list pyval)
| PDict (items : list (string * pyval)).

(** The exception classes the modelled code can raise: the four of
    [exceptions.py], Django's [ImproperlyConfigured] and the builtins. *)
Inductive exn : Type :=
| MLExportWizardFieldNotFound
| MLExportWizardQueryExecuting
| MLExportWizardQueryNotExecuted
| MLExportWizardExporterNotFound
| ImproperlyConfigured
| KeyError
| TypeError
| ValueError
| AttributeError.

Inductive result (A : Type) : Type :=
| Ok (a : A)
| Raise (e : exn).
Arguments Ok {A} a.
Arguments Raise {A} e.

(** Sequencing: an exception in [r] propagates.  With these instances the
    notation [x ← r; k] reads as Python's statement sequence. *)
#[global] Instance result_bind : MBind result :=
  fun A B (k : A -> result B) (r : result A) =>
    match r with
    | Ok a => k a
    | Raise e => Raise e
    end.

#[global] Instance result_ret : MRet result := fun A a => Ok a.

#[global] Instance exn_eq_dec : EqDecision exn.
Proof. solve_decision. Defined.

(** Python truthiness. *)
Definition truthy (v : pyval) : bool :=
  match v with
  | PNone => false
  | PBool b => b
  | PInt z => negb (z =? 0)%Z
  | PStr s => negb (String.eqb s "")
  | PList items => match items with [] => false | _ => true end
  | PDict items => match items with [] => false | _ => true end
  end.

Definition str_truthy (s : string) : bool := negb (String.eqb s "").

(** [o] is a possibly-[None] string; [bool(o)]. *)
Definition opt_truthy (o : option string) : bool :=
  match o with
  | Some s => str_truthy s
  | None => false
  end.

(** [d.get(key)] on the items of a [PDict] (first binding; the items of a
    dictionary have distinct keys). *)
Fixpoint dict_get (items : list (string * pyval)) (key : string) : option pyval :=
  match items with
  | [] => None
  | (k, v) :: rest => if String.eqb k key then Some v else dict_get rest key
  end.

(** ** Strings *)

(** [sep.join(parts)]. *)
Fixpoint join (sep : string) (parts : list string) : string :=
  match parts with
  | [] => ""
  | [x] => x
  | x :: rest => x +:+ sep +:+ join sep rest
  end.

(** [filter(None, parts)] where the parts are strings or [None]: the falsy
    ones ([None] and the empty string) are dropped. *)
Fixpoint filter_none (parts : list (option string)) : list string :=
  match parts with
  | [] => []
  | Some s :: rest => if str_truthy s then s :: filter_none rest else filter_none rest
  | None :: rest => filter_none rest
  end.

(** The double quote and the line feed. *)
Definition dquote_char : ascii := ascii_of_nat 34.
Definition newline_char : ascii := ascii_of_nat 10.
Definition dquote : string := String dquote_char "".

(** ** SQL fragments ([sql_dict]) *)

(** A fragment is a Python dictionary whose text entries ([select], [from],
    ...) are strings and whose [parameters] entry, when present, is a
    name-to-value map.  [text] holds the text entries by key, [parameters]
    the optional parameter map. *)
Record SqlDict : Type := {
  text : gmap string string;
  parameters : option (gmap string pyval)
}.

Definition empty_sql_dict : SqlDict := {| text := ∅; parameters := None |}.

(** Python's [d1 | d2] on dictionaries: the right operand wins. *)
Definition dict_or {V : Type} (d1 d2 : gmap string V) : gmap string V := d2 ∪ d1.

(** The [mergers] table, in declaration order. *)
Definition mergers : list (string * string) :=
  [("select", ", "); ("select_no_table", ", "); ("from", " ");
   ("where", " AND "); ("group_by", ", "); ("having", " AND ")].

(** One iteration of the loop over [mergers.items()]. *)
Definition merge_key (dict1 dict2 : SqlDict) (merged : gmap string string)
    (entry : string * string) : gmap string string :=
  let '(key, value) := entry in
  match text dict1 !! key, text dict2 !! key with
  | None, None => <[key := ""]> merged
  | Some v1, None => <[key := v1]> merged
  | None, Some v2 => <[key := v2]> merged
  | Some v1, Some v2 => <[key := join value (filter_none [Some v1; Some v2])]> merged
  end.

Definition merge_parameters (dict1 dict2 : SqlDict) : gmap string pyval :=
  match parameters dict1, parameters dict2 with
  | None, None => ∅
  | Some p1, None => p1
  | None, Some p2 => p2
  | Some p1, Some p2 => dict_or p1 p2
  end.

(** The merge of two fragments that are not [None]: the loop over
    [mergers] and the union of the parameters. *)
Definition merge2 (d1 d2 : SqlDict) : SqlDict :=
  {| text := foldl (merge_key d1 d2) ∅ mergers;
     parameters := Some (merge_parameters d1 d2) |}.

(** [dict.copy()] of a fragment is the fragment itself here, where values
    have no identity. *)
Definition merge_sql_dicts (dict1 dict2 : option SqlDict) : option SqlDict :=
  match dict1, dict2 with
  | None, None => None
  | Some d1, None => Some d1
  | None, Some d2 => Some d2
  | Some d1, Some d2 => Some (merge2 d1 d2)
  end.

(** A computation that the embedding may not cover: [None] when it meets a
    value it does not model (a pseudofield whose name is not a string, the
    text of a list or dictionary inside an f-string, a name argument that
    is neither a string nor [None], the [case] function), otherwise the
    value returned or the exception raised. *)
Definition partial (A : Type) : Type := option (result A).

Definition pbind {A B : Type} (m : partial A) (k : A -> partial B) : partial B :=
  match m with
  | None => None
  | Some (Raise e) => Some (Raise e)
  | Some (Ok a) => k a
  end.

Definition covered {A : Type} (r : result A) : partial A := Some r.

(** [v == s] for a string literal [s]. *)
Definition str_is (v : pyval) (s : string) : bool :=
  match v with
  | PStr t => String.eqb t s
  | _ => false
  end.

(** ** Strings, continued: the [str] methods the module uses *)

(** [s.split(sep)] for a one-character separator; never empty. *)
Fixpoint split_on (sep : ascii) (s : string) : list string :=
  match s with
  | EmptyString => [""]
  | String a rest =>
      match split_on sep rest with
      | [] => [String a ""]
      | part :: parts =>
          if Ascii.eqb a sep then "" :: part :: parts else String a part :: parts
      end
  end.

(** [s.count(sep)] for a one-character separator. *)
Fixpoint count_char (sep : ascii) (s : string) : nat :=
  match s with
  | EmptyString => 0
  | String a rest => (if Ascii.eqb a sep then 1 else 0) + count_char sep rest
  end.

Definition dot_char : ascii := ascii_of_nat 46.

(** [s.startswith(p)]. *)
Fixpoint starts_with (p s : string) : bool :=
  match p, s with
  | EmptyString, _ => true
  | String a p', String b s' => Ascii.eqb a b && starts_with p' s'
  | String _ _, EmptyString => false
  end.

(** [s.replace(old, new)] for a non-empty [old]: every non-overlapping
    occurrence of [old], found left to right, becomes [new].  [skip] counts
    the characters of an occurrence that are still to be consumed. *)
Fixpoint replace_from (old new s : string) (skip : nat) : string :=
  match s with
  | EmptyString => EmptyString
  | String a rest =>
      match skip with
      | S k => replace_from old new rest k
      | O =>
          if starts_with old s
          then new +:+ replace_from old new rest (String.length old - 1)
          else String a (replace_from old new rest 0)
      end
  end.

Definition str_replace (old new s : string) : string :=
  match old with
  | EmptyString => s
  | String _ _ => replace_from old new s 0
  end.

(** [s.replace(dquote, empty)]: all double quotes removed. *)
Fixpoint strip_dquotes (s : string) : string :=
  match s with
  | EmptyString => EmptyString
  | String a rest =>
      if Ascii.eqb a dquote_char then strip_dquotes rest else String a (strip_dquotes rest)
  end.

(** The matches of [re.finditer] for the pattern: a double quote, [.*?], a
    double quote, over [s], left to right.  A match opens
    at a double quote and closes at the next one; [.] does not match a line
    feed, so an opening quote followed by a line feed before any closing
    quote starts no match, and neither does any position up to that line
    feed (there is no quote in between).  [open] is the text of the match in
    progress, reversed, when a quote is open. *)
Fixpoint quoted_tokens_from (s : string) (open : option string) : list string :=
  match s with
  | EmptyString => []
  | String a rest =>
      match open with
      | None =>
          if Ascii.eqb a dquote_char
          then quoted_tokens_from rest (Some dquote)
          else quoted_tokens_from rest None
      | Some inside =>
          if Ascii.eqb a dquote_char
          then (inside +:+ dquote) :: quoted_tokens_from rest None
          else if Ascii.eqb a newline_char
          then quoted_tokens_from rest None
          else quoted_tokens_from rest (Some (inside +:+ String a ""))
      end
  end.

Definition quoted_tokens (s : string) : list string := quoted_tokens_from s None.

(** [query_layer == name] for a possibly-[None] layer. *)
Definition layer_is (query_layer : option string) (name : string) : bool :=
  match query_layer with
  | Some l => String.eqb l name
  | None => false
  end.

(** ** Fields *)

(** The Django field classes that the module tests with [type(...) in]. *)
Inductive django_class : Type :=
| CharField | TextField | TextChoices
| ForeignKey | OneToOneField | ManyToManyField
| ManyToOneRel | OneToOneRel | ManyToManyRel
| OtherField.

#[global] Instance django_class_eq_dec : EqDecision django_class.
Proof. solve_decision. Defined.

(** What the module reads of a Django field object: its class, its [column]
    and [field_name] attributes (absent when [hasattr] is false) and the
    class name of the related model of a relationship. *)
Record django_field : Type := {
  cls : django_class;
  attr_column : option string;
  attr_field_name : option string;
  related_model : option string
}.

Module ExporterField.

(** [parent_table] is [self.parent.table], read through the back
    reference to the owning model; [join_only] is
    [bool(self.settings.get('join_only'))]. *)
Record t : Type := {
  name : string;
  field : django_field;
  join_only : bool;
  parent_table : string
}.

Definition column (self : t) (query_layer : option string) : string :=
  let column :=
    match attr_column (field self) with
    | Some c => c
    | None =>
        match attr_field_name (field self) with
        | Some c => c
        | None => ""
        end
    end in
  if layer_is query_layer "base" then parent_table self +:+ "." +:+ column
  else if layer_is query_layer "inner" then column +:+ " AS " +:+ parent_table self +:+ "_" +:+ column
  else if layer_is query_layer "middle" then parent_table self +:+ "_" +:+ column
  else if layer_is query_layer "outer" then parent_table self +:+ "_" +:+ column +:+ " as " +:+ column
  else column.

Definition is_relation (self : t) : bool :=
  bool_decide (cls (field self) ∈ [ManyToOneRel; ManyToManyField; ManyToManyRel; OneToOneRel; ForeignKey]).

Definition _sql_dict (self : t) (table_name : option string) (query_layer : option string) : SqlDict :=
  if join_only self || is_relation self then empty_sql_dict
  else
    let column_name := column self query_layer in
    let select :=
      if opt_truthy table_name then default "" table_name +:+ "." +:+ column_name
      else parent_table self +:+ "." +:+ column_name in
    {| text := <["select_no_table" := column_name]> (<["select" := select]> ∅);
       parameters := None |}.

End ExporterField.

Module ExporterPseudofield.

Record t : Type := { name : string }.

Definition column (self : t) (query_layer : option string) : string := name self.

Definition _sql_dict (self : t) (table_name : option string) (query_layer : option string) : SqlDict :=
  empty_sql_dict.

End ExporterPseudofield.

(** A field object as [find_field] returns it: either class, used through
    the methods both define. *)
Inductive field_object : Type :=
| Field (f : ExporterField.t)
| Pseudofield (p : ExporterPseudofield.t).

Definition field_name (fo : field_object) : string :=
  match fo with
  | Field f => ExporterField.name f
  | Pseudofield p => ExporterPseudofield.name p
  end.

Definition field_column (fo : field_object) (query_layer : option string) : string :=
  match fo with
  | Field f => ExporterField.column f query_layer
  | Pseudofield p => ExporterPseudofield.column p query_layer
  end.

Definition field_sql_dict (fo : field_object) (table_name : option string)
    (query_layer : option string) : SqlDict :=
  match fo with
  | Field f => ExporterField._sql_dict f table_name query_layer
  | Pseudofield p => ExporterPseudofield._sql_dict p table_name query_layer
  end.

(** ** [_resolve_where] *)

(** The result is the pair the function returns: [(None, None)], or a WHERE
    text with its parameter map.  [field] is [None] when the argument is
    missing; a field object is always truthy. *)
Definition _resolve_where (operator : pyval) (field : option field_object)
    (value : pyval) (query_layer : option string)
    : option string * option (gmap string pyval) :=
  match field with
  | Some f =>
      if negb (truthy operator) || negb (truthy value) then (None, None)
      else
        let where_bit := "" in
        let field_column := field_column f query_layer in
        let where_bit :=
          match operator with
          | PStr op =>
              if bool_decide (op ∈ ["="; ">="; "<="; "<>"; "!="])
              then join "AND " (filter_none [Some where_bit;
                     Some (field_column +:+ op +:+ "%(" +:+ field_column +:+ ")s")])
              else where_bit
          | _ => where_bit
          end in
        (Some where_bit, Some (<[field_column := value]> ∅))
  | None => (None, None)
  end.

(** ** The query request *)

(** Modelled from the spec: [listify] of [utils/simple.py], a module that is
    not among the sources.  The spec says scalar inputs are normalized into
    single-element lists; the tests say [listify(None)] is the empty list and
    [listify] of a string is a list. *)
Definition listify (v : pyval) : list pyval :=
  match v with
  | PNone => []
  | PList items => items
  | other => [other]
  end.

(** Object references. *)
Definition loc : Type := positive.

Module ExporterQuery.

(** A [Cursor] object, as far as the request shows it: its attribute
    [_cursor] is [None] until [__enter__] opens a database cursor, and the
    database cursor from then on; [holds_database_cursor] tells which.  Its
    attribute [_query] is the request it is attached to. *)
Record cursor_object : Type := { holds_database_cursor : bool }.

(** The attributes of a request object.  [_exporter] is the exporter by
    its registry name; [_where_before_join] is [None] or a reference to a
    dictionary object; [_cursor] is [None] or the [Cursor] object that is
    attached.  [attrs] holds the instance attributes created by assigning
    to a name that is not a property of the class ([is_executing],
    [offset]). *)
Record t : Type := {
  _exporter : string;
  _where_before_join : option loc;
  _limit : pyval;
  _count : pyval;
  _group_by : list pyval;
  _where : list pyval;
  _extra_field : list pyval;
  _order_by : list pyval;
  _cursor : option cursor_object;
  _is_executing : bool;
  attrs : gmap string pyval
}.

Definition __init__ (exporter : string) (count group_by : pyval)
    (where_before_join : option loc) (where_ extra_field order_by limit : pyval) : t :=
  {| _exporter := exporter;
     _where_before_join := where_before_join;
     _limit := limit;
     _count := count;
     _group_by := listify group_by;
     _where := listify where_;
     _extra_field := listify extra_field;
     _order_by := listify order_by;
     _cursor := None;
     _is_executing := false;
     attrs := ∅ |}.

Definition is_update_safe (self : t) : result bool :=
  if _is_executing self then Raise MLExportWizardQueryExecuting else Ok true.

(** Assignments to single attributes, all others kept. *)
Definition with_exporter (v : string) (q : t) : t :=
  {| _exporter := v; _where_before_join := _where_before_join q; _limit := _limit q;
     _count := _count q; _group_by := _group_by q; _where := _where q;
     _extra_field := _extra_field q; _order_by := _order_by q; _cursor := _cursor q;
     _is_executing := _is_executing q; attrs := attrs q |}.
Definition with_where_before_join (v : option loc) (q : t) : t :=
  {| _exporter := _exporter q; _where_before_join := v; _limit := _limit q;
     _count := _count q; _group_by := _group_by q; _where := _where q;
     _extra_field := _extra_field q; _order_by := _order_by q; _cursor := _cursor q;
     _is_executing := _is_executing q; attrs := attrs q |}.
Definition with_limit (v : pyval) (q : t) : t :=
  {| _exporter := _exporter q; _where_before_join := _where_before_join q; _limit := v;
     _count := _count q; _group_by := _group_by q; _where := _where q;
     _extra_field := _extra_field q; _order_by := _order_by q; _cursor := _cursor q;
     _is_executing := _is_executing q; attrs := attrs q |}.
Definition with_count (v : pyval) (q : t) : t :=
  {| _exporter := _exporter q; _where_before_join := _where_before_join q; _limit := _limit q;
     _count := v; _group_by := _group_by q; _where := _where q;
     _extra_field := _extra_field q; _order_by := _order_by q; _cursor := _cursor q;
     _is_executing := _is_executing q; attrs := attrs q |}.
Definition with_group_by (v : list pyval) (q : t) : t :=
  {| _exporter := _exporter q; _where_before_join := _where_before_join q; _limit := _limit q;
     _count := _count q; _group_by := v; _where := _where q;
     _extra_field := _extra_field q; _order_by := _order_by q; _cursor := _cursor q;
     _is_executing := _is_executing q; attrs := attrs q |}.
Definition with_where (v : list pyval) (q : t) : t :=
  {| _exporter := _exporter q; _where_before_join := _where_before_join q; _limit := _limit q;
     _count := _count q; _group_by := _group_by q; _where := v;
     _extra_field := _extra_field q; _order_by := _order_by q; _cursor := _cursor q;
     _is_executing := _is_executing q; attrs := attrs q |}.
Definition with_extra_field (v : list pyval) (q : t) : t :=
  {| _exporter := _exporter q; _where_before_join := _where_before_join q; _limit := _limit q;
     _count := _count q; _group_by := _group_by q; _where := _where q;
     _extra_field := v; _order_by := _order_by q; _cursor := _cursor q;
     _is_executing := _is_executing q; attrs := attrs q |}.
Definition with_order_by (v : list pyval) (q : t) : t :=
  {| _exporter := _exporter q; _where_before_join := _where_before_join q; _limit := _limit q;
     _count := _count q; _group_by := _group_by q; _where := _where q;
     _extra_field := _extra_field q; _order_by := v; _cursor := _cursor q;
     _is_executing := _is_executing q; attrs := attrs q |}.
Definition with_cursor (v : option cursor_object) (q : t) : t :=
  {| _exporter := _exporter q; _where_before_join := _where_before_join q; _limit := _limit q;
     _count := _count q; _group_by := _group_by q; _where := _where q;
     _extra_field := _extra_field q; _order_by := _order_by q; _cursor := v;
     _is_executing := _is_executing q; attrs := attrs q |}.
(** [self.<name> = v] for a name that is no property and no declared
    attribute: Python creates or rebinds the instance attribute. *)
Definition with_attr (name : string) (v : pyval) (q : t) : t :=
  {| _exporter := _exporter q; _where_before_join := _where_before_join q; _limit := _limit q;
     _count := _count q; _group_by := _group_by q; _where := _where q;
     _extra_field := _extra_field q; _order_by := _order_by q; _cursor := _cursor q;
     _is_executing := _is_executing q; attrs := <[name := v]> (attrs q) |}.

(** The property setters: each one checks [is_update_safe] first. *)
Definition set_exporter (value : string) (self : t) : result t :=
  _ ← is_update_safe self; Ok (with_exporter value self).
Definition set_where_before_join (value : option loc) (self : t) : result t :=
  _ ← is_update_safe self; Ok (with_where_before_join value self).
Definition set_limit (value : pyval) (self : t) : result t :=
  _ ← is_update_safe self; Ok (with_limit value self).
Definition set_count (value : pyval) (self : t) : result t :=
  _ ← is_update_safe self; Ok (with_count value self).
Definition set_group_by (value : pyval) (self : t) : result t :=
  _ ← is_update_safe self; Ok (with_group_by (listify value) self).
Definition set_where (value : pyval) (self : t) : result t :=
  _ ← is_update_safe self; Ok (with_where (listify value) self).
Definition set_extra_field (value : pyval) (self : t) : result t :=
  _ ← is_update_safe self; Ok (with_extra_field (listify value) self).
Definition set_order_by (value : pyval) (self : t) : result t :=
  _ ← is_update_safe self; Ok (with_order_by (listify value) self).

(** [query.cursor()]: the constructor of [Cursor] attaches the new cursor
    object, which holds no database cursor yet, to the request. *)
Definition cursor (self : t) : t :=
  with_cursor (Some {| holds_database_cursor := false |}) self.

(** The request refers to a [Cursor] object that holds a database cursor. *)
Definition database_cursor_attached (self : t) : bool :=
  match _cursor self with
  | Some c => holds_database_cursor c
  | None => false
  end.

(** The eight mutations that the class guards, named by attribute. *)
Inductive update : Type :=
| UExporter (v : string)
| UWhereBeforeJoin (v : option loc)
| ULimit (v : pyval)
| UCount (v : pyval)
| UGroupBy (v : pyval)
| UWhere (v : pyval)
| UExtraField (v : pyval)
| UOrderBy (v : pyval).

(** The request after an update that was let through. *)
Definition updated (u : update) (self : t) : t :=
  match u with
  | UExporter v => with_exporter v self
  | UWhereBeforeJoin v => with_where_before_join v self
  | ULimit v => with_limit v self
  | UCount v => with_count v self
  | UGroupBy v => with_group_by (listify v) self
  | UWhere v => with_where (listify v) self
  | UExtraField v => with_extra_field (listify v) self
  | UOrderBy v => with_order_by (listify v) self
  end.

Definition apply_update (u : update) (self : t) : result t :=
  match u with
  | UExporter v => set_exporter v self
  | UWhereBeforeJoin v => set_where_before_join v self
  | ULimit v => set_limit v self
  | UCount v => set_count v self
  | UGroupBy v => set_group_by v self
  | UWhere v => set_where v self
  | UExtraField v => set_extra_field v self
  | UOrderBy v => set_order_by v self
  end.

(** *** The cursor context manager

    [compiled] is the outcome of [self._query._exporter.final_sql(...)],
    [opened] that of [connection.cursor()] and [executed] that of
    [self._cursor.execute(sql, parameters)]; each may raise.  The functions
    are those of the [Cursor] object attached to the request, and each
    returns the request as it is left, also when it raises. *)
Section Cursor.
Variable compiled : result (string * gmap string pyval).
Variable opened : result unit.
Variable executed : result unit.

Definition Cursor__enter__ (query : t) : result unit * t :=
  match compiled with
  | Raise e => (Raise e, query)
  | Ok _ =>
      let query := with_attr "is_executing" (PBool true) query in
      match opened with
      | Raise e => (Raise e, query)
      | Ok _ =>
          let query := with_cursor (Some {| holds_database_cursor := true |}) query in
          match executed with
          | Raise e => (Raise e, query)
          | Ok _ => (Ok (), query)
          end
      end
  end.

Definition Cursor__exit__ (query : t) : t :=
  let query := with_cursor None query in
  with_attr "is_executing" (PBool false) query.

(** [with query.cursor() as cursor: body]: [__exit__] runs when the body
    was entered, whether it returns or raises, and not when [__enter__]
    raises.  [body] may itself attempt updates of the request. *)
Definition with_cursor_do {A : Type} (body : t -> result A * t) (query : t)
    : result A * t :=
  let query := cursor query in
  match Cursor__enter__ query with
  | (Raise e, query) => (Raise e, query)
  | (Ok _, query) =>
      let '(r, query) := body query in
      (r, Cursor__exit__ query)
  end.
End Cursor.

End ExporterQuery.

(** ** The join traversal of a dataset group *)

(** What a compile reads of [query.where_before_join]: [None], or the
    dictionary from table name to its list of filter items, in insertion
    order. *)
Definition where_before_join_view : Type := option (list (string * list pyval)).

Fixpoint assoc_get {V : Type} (items : list (string * V)) (key : string) : option V :=
  match items with
  | [] => None
  | (k, v) :: rest => if String.eqb k key then Some v else assoc_get rest key
  end.

(** The per-compile state kept on the app object: [prepped_models], the set
    of models already used in the SQL, by model name (the registry
    [models_by_name] is keyed by [self.name], so a name identifies the model
    object).  [joined] and [fragments] are not program state: they record,
    oldest first, the models whose own fragment a call of [_sql_dict] has
    built and the fragments themselves, so that theorems can speak about
    what was emitted.  No function reads them. *)
Record compile_state : Type := {
  prepped_models : gset string;
  joined : list string;
  fragments : list SqlDict
}.

(** A Python value formatted in an f-string, for the possibly-[None] strings
    the traversal formats. *)
Definition fmt (o : option string) : string := default "None" o.

Definition set_text (key value : string) (d : SqlDict) : SqlDict :=
  {| text := <[key := value]> (text d); parameters := parameters d |}.

Definition set_parameters (p : gmap string pyval) (d : SqlDict) : SqlDict :=
  {| text := text d; parameters := Some p |}.

(** A run of the traversal: [None] when the recursion budget is used up
    (which cannot happen with the budget [ExporterApp._sql_dict] gives, see
    [app_sql_dict_runs]), otherwise the fragment or the exception together with the state
    left behind. *)
Definition run : Type := option (result SqlDict * compile_state).

Module ExporterModel.

(** [table] is the database table of the Django model; [dont_link_to] is
    the setting of that name, absent when the key is not in
    [self.settings]. *)
Record t : Type := {
  name : string;
  table : string;
  fields : list ExporterField.t;
  fields_by_name : gmap string ExporterField.t;
  dont_link_to : option (list string)
}.

(** The tuples of the list comprehension over the model's filter items:
    [(limit.get('field'), limit.get('value'), limit.get('operator', '='))]. *)
Fixpoint limit_tuples (limits : list pyval) : result (list (pyval * pyval * pyval)) :=
  match limits with
  | [] => Ok []
  | PDict items :: rest =>
      tuples ← limit_tuples rest;
      Ok ((default PNone (dict_get items "field"),
           default PNone (dict_get items "value"),
           default (PStr "=") (dict_get items "operator")) :: tuples)
  | _ :: rest => Raise AttributeError
  end.

(** [self.fields_by_name[field_name]]. *)
Definition field_by_name (self : t) (field_name : pyval) : result ExporterField.t :=
  match field_name with
  | PStr s =>
      match fields_by_name self !! s with
      | Some f => Ok f
      | None => Raise KeyError
      end
  | PList _ | PDict _ => Raise TypeError
  | _ => Raise KeyError
  end.

(** The loop that enacts the limits that apply before the join.  The
    union [sql_dict.get('parameters', {}) | parameters] raises [TypeError]
    when [_resolve_where] returned [(None, None)]. *)
Fixpoint where_before_join_loop (self : t) (tuples : list (pyval * pyval * pyval))
    (where_bit : option string) (sql_dict : SqlDict)
    : result (option string * SqlDict) :=
  match tuples with
  | [] => Ok (where_bit, sql_dict)
  | (field_name, value, operator) :: rest =>
      field ← field_by_name self field_name;
      let '(where_bit, added) :=
        _resolve_where operator (Some (Field field)) value None in
      match added with
      | None => Raise TypeError
      | Some p =>
          where_before_join_loop self rest where_bit
            (set_parameters (dict_or (default ∅ (parameters sql_dict)) p) sql_dict)
      end
  end.

(** The table reference: the table itself, or the derived table that
    applies the pre-join filter of [query.where_before_join]. *)
Definition table_reference (self : t) (where_before_join : where_before_join_view)
    (sql_dict : SqlDict) : result (string * SqlDict) :=
  match where_before_join with
  | Some (entry :: entries) =>
      match assoc_get (entry :: entries) (name self) with
      | Some limits =>
          tuples ← limit_tuples limits;
          '(where_bit, sql_dict) ← where_before_join_loop self tuples (Some "") sql_dict;
          if opt_truthy where_bit
          then Ok (" (SELECT * FROM " +:+ table self +:+ " WHERE " +:+ fmt where_bit
                     +:+ ") AS " +:+ table self, sql_dict)
          else Ok (table self, sql_dict)
      | None => Ok (table self, sql_dict)
      end
  | _ => Ok (table self, sql_dict)
  end.

Definition merge_fields (fields : list ExporterField.t) (table_name query_layer : option string)
    (sql_dict : SqlDict) : SqlDict :=
  foldl (fun d field => merge2 d (ExporterField._sql_dict field table_name query_layer))
        sql_dict fields.

(** The part of [_sql_dict] before the model is noted as prepped: the
    pre-join filter, the FROM text and the merge of the model's own
    fields. *)
Definition own_sql_dict (self : t) (table_name : option string) (left_join : bool)
    (join_model : option t) (join_using : option string)
    (where_before_join : where_before_join_view) (query_layer : option string)
    : result SqlDict :=
  '(tbl, sql_dict) ← table_reference self where_before_join empty_sql_dict;
  let join_criteria :=
    match join_model with
    | Some jm => "ON " +:+ table self +:+ "." +:+ fmt join_using +:+ " = "
                   +:+ table jm +:+ "." +:+ fmt join_using
    | None => "USING (" +:+ fmt join_using +:+ ")"
    end in
  let sql_dict :=
    if left_join then
      if opt_truthy join_using
      then set_text "from" ("LEFT JOIN " +:+ tbl +:+ " " +:+ join_criteria) sql_dict
      else sql_dict
    else if opt_truthy join_using
    then set_text "from" ("JOIN " +:+ tbl +:+ " " +:+ join_criteria) sql_dict
    else set_text "from" tbl sql_dict in
  Ok (merge_fields (fields self) table_name query_layer sql_dict).

(** The test [type(field_object) in (ManyToOneRel, ForeignKey, OneToOneRel)
    and field_object.related_model.__name__ in self.parent.models_by_name],
    giving the model to join. *)
Definition join_target (models_by_name : gmap string t) (field : ExporterField.t) : option t :=
  if bool_decide (cls (ExporterField.field field) ∈ [ManyToOneRel; ForeignKey; OneToOneRel])
  then related ← related_model (ExporterField.field field); models_by_name !! related
  else None.

(** The two [dont_link_to] tests: this model names the other, or the
    other names this one. *)
Definition dont_link (self join_model : t) : bool :=
  match dont_link_to self with
  | Some names => bool_decide (name join_model ∈ names)
  | None => false
  end
  || match dont_link_to join_model with
     | Some names => bool_decide (name self ∈ names)
     | None => false
     end.

Definition skipped (self join_model : t) (st : compile_state) : bool :=
  bool_decide (name join_model ∈ prepped_models st) || dont_link self join_model.

(** The loop that adds the models this model joins with.  [rec join_model
    join_using st] is the recursive call
    [join_model._sql_dict(left_join=True, join_model=self,
    join_using=field.column(), ...)]. *)
Fixpoint join_related (rec : t -> option string -> compile_state -> run)
    (models_by_name : gmap string t) (self : t) (fields : list ExporterField.t)
    (sql_dict : SqlDict) (st : compile_state) : run :=
  match fields with
  | [] => Some (Ok sql_dict, st)
  | field :: rest =>
      match join_target models_by_name field with
      | Some join_model =>
          if skipped self join_model st
          then join_related rec models_by_name self rest sql_dict st
          else
            match rec join_model (Some (ExporterField.column field None)) st with
            | None => None
            | Some (Raise e, st) => Some (Raise e, st)
            | Some (Ok joined_dict, st) =>
                join_related rec models_by_name self rest (merge2 sql_dict joined_dict) st
            end
      | None => join_related rec models_by_name self rest sql_dict st
      end
  end.

(** The record of an emitted fragment: [sql_dict] is the fragment the
    model [self] has built of its table reference and its fields. *)
Definition emit (self : t) (sql_dict : SqlDict) (st : compile_state) : compile_state :=
  {| prepped_models := prepped_models st;
     joined := joined st ++ [name self];
     fragments := fragments st ++ [sql_dict] |}.

(** [self.parent.prepped_models.add(self)]. *)
Definition note_prepped (self : t) (st : compile_state) : compile_state :=
  {| prepped_models := {[name self]} ∪ prepped_models st;
     joined := joined st;
     fragments := fragments st |}.

(** [models_by_name] is [self.parent.models_by_name]; the state is
    [self.parent.prepped_models]. *)
Fixpoint _sql_dict (fuel : nat) (models_by_name : gmap string t) (self : t)
    (table_name : option string) (left_join : bool) (join_model : option t)
    (join_using : option string) (where_before_join : where_before_join_view)
    (query_layer : option string) (st : compile_state) : run :=
  match fuel with
  | O => None
  | S fuel =>
      match own_sql_dict self table_name left_join join_model join_using
              where_before_join query_layer with
      | Raise e => Some (Raise e, st)
      | Ok sql_dict =>
          let st := emit self sql_dict st in
          let st := note_prepped self st in
          join_related
            (fun join_model join_using st =>
               _sql_dict fuel models_by_name join_model None true (Some self) join_using
                 where_before_join query_layer st)
            models_by_name self (fields self) sql_dict st
      end
  end.

End ExporterModel.

Module ExporterApp.

(** [primary_model] is [self.settings['primary_model']], absent when the
    key is not in the settings. *)
Record t : Type := {
  name : string;
  models : list ExporterModel.t;
  models_by_name : gmap string ExporterModel.t;
  primary_model : option string
}.

Definition fresh_state : compile_state :=
  {| prepped_models := ∅; joined := []; fragments := [] |}.

(** [st] is the state the app object carries when the call starts; the
    method replaces it by a new empty set before anything else. *)
Definition _sql_dict (self : t) (where_before_join : where_before_join_view)
    (query_layer : option string) (st : compile_state) : run :=
  let st := fresh_state in
  if opt_truthy (primary_model self) then
    match models_by_name self !! default "" (primary_model self) with
    | Some model =>
        ExporterModel._sql_dict (S (size (models_by_name self))) (models_by_name self)
          model None false None None where_before_join query_layer st
    | None => Some (Raise KeyError, st)
    end
  else Some (Raise ImproperlyConfigured, st).

Definition _get_field (self : t) (field : string) : list field_object :=
  flat_map (fun model =>
              match ExporterModel.fields_by_name model !! field with
              | Some f => [Field f]
              | None => []
              end) (models self).

End ExporterApp.

(** ** Rollups and exporters *)

Module ExporterRollup.

(** [exporter] is the inner exporter, by its name in the registry
    [exporters]; [settings] is the settings dictionary without its
    [where_before_join] entry, which is kept apart as a reference to the
    dictionary object ([None] when the key is not in the settings). *)
Record t : Type := {
  name : string;
  exporter : string;
  fields : list field_object;
  fields_by_name : gmap string field_object;
  settings : list (string * pyval);
  where_before_join : option loc
}.

Definition table (self : t) : string := name self.

Definition _get_field (self : t) (field : string) : list field_object :=
  match fields_by_name self !! field with
  | Some f => [f]
  | None => []
  end.

End ExporterRollup.

Module Exporter.

(** [extra_field] is [self.settings.get('extra_field', [])]. *)
Record t : Type := {
  name : string;
  apps : list ExporterApp.t;
  apps_by_name : gmap string ExporterApp.t;
  rollups : list ExporterRollup.t;
  rollups_by_name : gmap string ExporterRollup.t;
  fields : list ExporterPseudofield.t;
  fields_by_name : gmap string ExporterPseudofield.t;
  extra_field : list pyval
}.

(** The pseudofields of [__init__]: one per extra field, registered by the
    constructor of [ExporterPseudofield] and then appended once more.  A
    name that is a list or a dictionary cannot be a key of [fields_by_name]
    and raises [TypeError].  Python registers a pseudofield under any other
    name; the embedding covers the names that are strings, the keys that
    [find_field] looks up. *)
Fixpoint pseudofields (columns : list pyval)
    (fields : list ExporterPseudofield.t) (by_name : gmap string ExporterPseudofield.t)
    : partial (list ExporterPseudofield.t * gmap string ExporterPseudofield.t) :=
  match columns with
  | [] => Some (Ok (fields, by_name))
  | PDict items :: rest =>
      match dict_get items "column_name" with
      | Some (PStr column_name) =>
          let field_object := {| ExporterPseudofield.name := column_name |} in
          pseudofields rest (fields ++ [field_object; field_object])
            (<[column_name := field_object]> by_name)
      | Some (PList _ | PDict _) => Some (Raise TypeError)
      | Some (PNone | PBool _ | PInt _) => None
      | None => Some (Raise KeyError)
      end
  | _ :: _ => Some (Raise TypeError)
  end.

Definition __init__ (name : string) (extra_field : list pyval) : partial t :=
  pbind (pseudofields extra_field [] ∅) (fun '(fields, by_name) =>
    Some (Ok {| name := name; apps := []; apps_by_name := ∅; rollups := [];
                rollups_by_name := ∅; fields := fields; fields_by_name := by_name;
                extra_field := extra_field |})).

(** The lookup by app, model and field; any [KeyError] becomes
    [MLExportWizardFieldNotFound]. *)
Definition find_qualified (self : t) (app model field : string) : result field_object :=
  match apps_by_name self !! app with
  | Some app_object =>
      match ExporterApp.models_by_name app_object !! model with
      | Some model_object =>
          match ExporterModel.fields_by_name model_object !! field with
          | Some field_object => Ok (Field field_object)
          | None => Raise MLExportWizardFieldNotFound
          end
      | None => Raise MLExportWizardFieldNotFound
      end
  | None => Raise MLExportWizardFieldNotFound
  end.

(** The list [fields] that the unqualified lookup collects. *)
Definition candidates (self : t) (field : string) : list field_object :=
  match fields_by_name self !! field with
  | Some field_object => [Pseudofield field_object]
  | None => []
  end
  ++ flat_map (fun app => ExporterApp._get_field app field) (apps self)
  ++ flat_map (fun rollup => ExporterRollup._get_field rollup field) (rollups self).

Definition find_field (self : t) (app model field : option string) : result field_object :=
  let '(app, model, field) :=
    if opt_truthy field && negb (opt_truthy app) && negb (opt_truthy model)
       && (count_char dot_char (default "" field) =? 2)%nat
    then
      match split_on dot_char (default "" field) with
      | [a; m; f] => (Some a, Some m, Some f)
      | _ => (app, model, field)
      end
    else (app, model, field) in
  if opt_truthy app && opt_truthy model && opt_truthy field then
    find_qualified self (default "" app) (default "" model) (default "" field)
  else if opt_truthy field then
    match candidates self (default "" field) with
    | [] => Raise MLExportWizardFieldNotFound
    | [field_object] => Ok field_object
    | _ => Raise MLExportWizardFieldNotFound
    end
  else Raise MLExportWizardFieldNotFound.

(** [find_field(field=v)] for a value [v] that need not be a string.  A
    falsy value is an undefined field.  Of the truthy values that are no
    strings only a list has the method [count]: with two elements equal to
    the dot it has no [split], otherwise it is no key of [fields_by_name]. *)
Definition find_field_value (self : t) (v : pyval) : result field_object :=
  match v with
  | PStr field => find_field self None None (Some field)
  | PList items =>
      if negb (truthy v) then Raise MLExportWizardFieldNotFound
      else if (length (List.filter (fun item => str_is item ".") items) =? 2)%nat
      then Raise AttributeError
      else Raise TypeError
  | PNone | PBool _ | PInt _ | PDict _ =>
      if truthy v then Raise AttributeError else Raise MLExportWizardFieldNotFound
  end.

(** The loop of [_resolve_formula] over the matches found in the formula
    as it was passed in: each match is replaced, by [str.replace], in the
    formula as rewritten so far. *)
Fixpoint replace_tokens (self : t) (tokens : list string) (query_layer : option string)
    (formula : string) : result string :=
  match tokens with
  | [] => Ok formula
  | token :: rest =>
      field_object ← find_field self None None (Some (strip_dquotes token));
      let field_name := field_column field_object query_layer in
      replace_tokens self rest query_layer (str_replace token field_name formula)
  end.

Definition _resolve_formula (self : t) (formula : option string)
    (query_layer : option string) : result (option string) :=
  if negb (opt_truthy formula) then Ok None
  else if opt_truthy query_layer
          && negb (bool_decide (default "" query_layer ∈ ["base"; "middle"]))
  then Raise ValueError
  else
    formula ← replace_tokens self (quoted_tokens (default "" formula)) query_layer
                (default "" formula);
    Ok (Some formula).

End Exporter.

(** ** The heap of shared mutable objects *)

Module Heap.

(** The objects a request is made of: the request itself, the dictionary
    [where_before_join] (table name to a reference to a list, in insertion
    order) and the lists of filter items.  Filter items are never mutated
    by the module and are kept as values. *)
Inductive obj : Type :=
| OList (items : list pyval)
| ODict (entries : list (string * loc))
| OQuery (q : ExporterQuery.t).

Definition alloc (h : gmap loc obj) (o : obj) : gmap loc obj * loc :=
  let l := fresh (dom h) in (<[l := o]> h, l).

(** *** [copy.deepcopy]

    The copy of a list is a new list object; [memo] maps each object
    already copied to its copy, so that two references to one list are
    copied to two references to one new list. *)
Definition copy_list (h : gmap loc obj) (memo : gmap loc loc) (l : loc)
    : option (gmap loc obj * gmap loc loc * loc) :=
  match memo !! l with
  | Some l' => Some (h, memo, l')
  | None =>
      match h !! l with
      | Some (OList items) =>
          let '(h, l') := alloc h (OList items) in
          Some (h, <[l := l']> memo, l')
      | _ => None
      end
  end.

Fixpoint copy_entries (h : gmap loc obj) (memo : gmap loc loc)
    (entries : list (string * loc))
    : option (gmap loc obj * gmap loc loc * list (string * loc)) :=
  match entries with
  | [] => Some (h, memo, [])
  | (key, l) :: rest =>
      '(h, memo, l') ← copy_list h memo l;
      '(h, memo, rest') ← copy_entries h memo rest;
      Some (h, memo, (key, l') :: rest')
  end.

Definition deepcopy_dict (h : gmap loc obj) (d : loc) : option (gmap loc obj * loc) :=
  match h !! d with
  | Some (ODict entries) =>
      '(h, _, entries') ← copy_entries h ∅ entries;
      Some (alloc h (ODict entries'))
  | _ => None
  end.

(** [copy.deepcopy(query)].  The copy of the request refers to copies of
    its dictionary and lists, and to a copy of the attached [Cursor] object.
    A database cursor cannot be copied: when the attached [Cursor] holds
    one, the call raises [TypeError] and leaves no object reachable.  The
    result is [None] when a reference in the request does not lead to an
    object of the expected class, which a heap built by Python never
    shows. *)
Definition deepcopy (h : gmap loc obj) (query : loc)
    : option (result (gmap loc obj * loc)) :=
  match h !! query with
  | Some (OQuery q) =>
      if ExporterQuery.database_cursor_attached q then Some (Raise TypeError)
      else
        match ExporterQuery._where_before_join q with
        | None => Some (Ok (alloc h (OQuery q)))
        | Some d =>
            '(h, d') ← deepcopy_dict h d;
            Some (Ok (alloc h (OQuery (ExporterQuery.with_where_before_join (Some d') q))))
        end
  | _ => None
  end.

(** *** Reading a request *)

Definition read_list (h : gmap loc obj) (l : loc) : option (list pyval) :=
  match h !! l with
  | Some (OList items) => Some items
  | _ => None
  end.

Definition read_dict (h : gmap loc obj) (d : loc) : option (list (string * loc)) :=
  match h !! d with
  | Some (ODict entries) => Some entries
  | _ => None
  end.

Definition read_query (h : gmap loc obj) (query : loc) : option ExporterQuery.t :=
  match h !! query with
  | Some (OQuery q) => Some q
  | _ => None
  end.

(** [d[table_name]] read through the heap: the filter items of a table. *)
Definition filters_of (h : gmap loc obj) (d : option loc) (table_name : string)
    : option (list pyval) :=
  d ← d; entries ← read_dict h d; l ← assoc_get entries table_name; read_list h l.

(** [bool(d)] for a possibly-[None] dictionary reference. *)
Definition dict_truthy (h : gmap loc obj) (d : option loc) : bool :=
  match d with
  | Some d =>
      match read_dict h d with
      | Some (_ :: _) => true
      | _ => false
      end
  | None => false
  end.

(** The whole dictionary as a compile reads it. *)
Fixpoint read_entries (h : gmap loc obj) (entries : list (string * loc))
    : option (list (string * list pyval)) :=
  match entries with
  | [] => Some []
  | (key, l) :: rest =>
      items ← read_list h l;
      rest' ← read_entries h rest;
      Some ((key, items) :: rest')
  end.

Definition view (h : gmap loc obj) (d : option loc) : option where_before_join_view :=
  match d with
  | None => Some None
  | Some d => entries ← read_dict h d; v ← read_entries h entries; Some (Some v)
  end.

End Heap.

Module ExporterRollupMethods.
Import Heap.

(** The loop over [where_before_join.items()] of the rollup's setting:
    [d] is the dictionary of the copied request. *)
Fixpoint merge_where_before_join (h : gmap loc obj) (d : loc)
    (entries : list (string * loc)) : option (gmap loc obj) :=
  match entries with
  | [] => Some h
  | (table_name, where_bits) :: rest =>
      rollup_entries ← read_dict h d;
      match assoc_get rollup_entries table_name with
      | Some target =>
          items ← read_list h target;
          bits ← read_list h where_bits;
          merge_where_before_join (<[target := OList (items ++ bits)]> h) d rest
      | None =>
          merge_where_before_join
            (<[d := ODict (rollup_entries ++ [(table_name, where_bits)])]> h) d rest
      end
  end.

(** An assignment through a property setter of the request at [query]. *)
Definition assign (u : ExporterQuery.update) (h : gmap loc obj) (query : loc)
    : option (result unit * gmap loc obj) :=
  q ← read_query h query;
  match ExporterQuery.apply_update u q with
  | Ok q' => Some (Ok (), <[query := OQuery q']> h)
  | Raise e => Some (Raise e, h)
  end.

(** Sequencing of heap operations that may raise. *)
Definition and_then (r : option (result unit * gmap loc obj))
    (k : gmap loc obj -> option (result unit * gmap loc obj))
    : option (result unit * gmap loc obj) :=
  match r with
  | Some (Ok _, h) => k h
  | other => other
  end.

(** The statements of [_sql_dict] that merge the rollup's own
    [where_before_join] setting into the copied request. *)
Definition merge_setting (self : ExporterRollup.t) (h : gmap loc obj) (rollup_query : loc)
    : option (result unit * gmap loc obj) :=
  match ExporterRollup.where_before_join self with
  | Some where_before_join =>
      q ← read_query h rollup_query;
      if negb (dict_truthy h (ExporterQuery._where_before_join q))
      then assign (ExporterQuery.UWhereBeforeJoin (Some where_before_join)) h rollup_query
      else
        d ← ExporterQuery._where_before_join q;
        entries ← read_dict h where_before_join;
        h ← merge_where_before_join h d entries;
        Some (Ok (), h)
  | None => Some (Ok (), h)
  end.

(** The assignments that follow: grouping and extra fields from the
    rollup's settings, ordering, filters and limit cleared, and the new
    attribute [offset]. *)
Definition override (self : ExporterRollup.t) (h : gmap loc obj) (rollup_query : loc)
    : option (result unit * gmap loc obj) :=
  let settings_get key := default PNone (dict_get (ExporterRollup.settings self) key) in
  and_then (assign (ExporterQuery.UGroupBy (PList (listify (settings_get "group_by")))) h rollup_query) (fun h =>
  and_then (assign (ExporterQuery.UExtraField (PList (listify (settings_get "extra_field")))) h rollup_query) (fun h =>
  and_then (assign (ExporterQuery.UOrderBy (PList [])) h rollup_query) (fun h =>
  and_then (assign (ExporterQuery.UWhere PNone) h rollup_query) (fun h =>
  and_then (assign (ExporterQuery.ULimit PNone) h rollup_query) (fun h =>
    q ← read_query h rollup_query;
    Some (Ok (), <[rollup_query := OQuery (ExporterQuery.with_attr "offset" PNone q)]> h)))))).

(** The first part of [_sql_dict]: the request the inner exporter is
    compiled with.  Returns the reference [rollup_query] and the heap. *)
Definition rollup_query (self : ExporterRollup.t) (h : gmap loc obj) (query : loc)
    : option (result loc * gmap loc obj) :=
  match deepcopy h query with
  | None => None
  | Some (Raise e) => Some (Raise e, h)
  | Some (Ok (h, rollup_query)) =>
      match and_then (merge_setting self h rollup_query)
                     (fun h => override self h rollup_query) with
      | Some (Ok _, h) => Some (Ok rollup_query, h)
      | Some (Raise e, h) => Some (Raise e, h)
      | None => None
      end
  end.

(** [for x in v] over a settings value. *)
Definition iterate (v : option pyval) : result (list pyval) :=
  match v with
  | None => Ok []
  | Some (PList items) => Ok items
  | Some (PDict items) => Ok (map (fun kv => PStr (fst kv)) items)
  | Some (PStr s) => Ok (map (fun a => PStr (String a "")) (list_ascii_of_string s))
  | Some _ => Raise TypeError
  end.

(** The loop that appends the names of the rollup's extra columns to the
    select text.  [sql_dict['select']] is evaluated before
    [extra_field['column_name']]. *)
Fixpoint append_column_names (columns : list pyval) (sql_dict : SqlDict) : result SqlDict :=
  match columns with
  | [] => Ok sql_dict
  | extra_field :: rest =>
      match text sql_dict !! "select" with
      | None => Raise KeyError
      | Some select =>
          match extra_field with
          | PDict items =>
              match dict_get items "column_name" with
              | None => Raise KeyError
              | Some (PStr column_name) =>
                  append_column_names rest
                    (set_text "select"
                       (join ", " (filter_none [Some select; Some column_name])) sql_dict)
              | Some v =>
                  if truthy v then Raise TypeError
                  else append_column_names rest
                         (set_text "select" (join ", " (filter_none [Some select])) sql_dict)
              end
          | _ => Raise TypeError
          end
      end
  end.

(** The statements of [_sql_dict] after the inner compilation, whose
    outcome is [compiled]: the sub-query as FROM text, the rollup's fields
    merged in, and the names of the extra columns appended. *)
Definition wrap (self : ExporterRollup.t) (query_layer : option string)
    (compiled : result (string * gmap string pyval)) : result SqlDict :=
  '(from_bit, inner_parameters) ← compiled;
  let sql_dict := set_parameters inner_parameters empty_sql_dict in
  let sql_dict :=
    set_text "from" ("(" +:+ from_bit +:+ ") AS " +:+ ExporterRollup.name self) sql_dict in
  let sql_dict :=
    foldl (fun d field =>
             merge2 d (field_sql_dict field (Some (ExporterRollup.name self)) query_layer))
          sql_dict (ExporterRollup.fields self) in
  columns ← iterate (dict_get (ExporterRollup.settings self) "extra_field");
  append_column_names columns sql_dict.

(** [final_sql h rollup_query layer] is the compilation of the inner
    exporter, [self.exporter.final_sql(query=rollup_query,
    query_layer='inner')], which is given the request prepared above. *)
Definition _sql_dict
    (final_sql : gmap loc obj -> loc -> option string -> result (string * gmap string pyval))
    (self : ExporterRollup.t) (h : gmap loc obj) (query : loc)
    (query_layer : option string) : option (result SqlDict * gmap loc obj) :=
  match rollup_query self h query with
  | None => None
  | Some (Raise e, h) => Some (Raise e, h)
  | Some (Ok rollup_query, h) =>
      Some (wrap self query_layer (final_sql h rollup_query (Some "inner")), h)
  end.

(** *** [__init__] *)

(** The fields the rollup groups by, looked up in the inner exporter.
    For an entry that is no string the test ['.' in field] decides: it
    raises [TypeError] for [None] and numbers, and it holds for a list with
    the dot among its elements and for a dictionary with the dot among its
    keys, which have no [split]. *)
Fixpoint group_by_fields (inner : Exporter.t) (names : list pyval)
    (fields : list field_object) (by_name : gmap string field_object)
    : result (list field_object * gmap string field_object) :=
  match names with
  | [] => Ok (fields, by_name)
  | name :: rest =>
      field_object ←
        match name with
        | PStr field =>
            if (0 <? count_char dot_char field)%nat then
              match split_on dot_char field with
              | [app; model; field] =>
                  Exporter.find_field inner (Some app) (Some model) (Some field)
              | _ => Raise ValueError
              end
            else Exporter.find_field inner None None (Some field)
        | PList items =>
            if existsb (fun item => str_is item ".") items then Raise AttributeError
            else Exporter.find_field_value inner name
        | PDict items =>
            if existsb (fun entry => String.eqb (fst entry) ".") items
            then Raise AttributeError
            else Exporter.find_field_value inner name
        | PNone | PBool _ | PInt _ => Raise TypeError
        end;
      group_by_fields inner rest (fields ++ [field_object])
        (<[field_name field_object := field_object]> by_name)
  end.

(** The pseudofields for the rollup's extra fields: registered by the
    constructor of [ExporterPseudofield] and then once more by the loop.
    As for the exporter's own, the names covered are the strings. *)
Fixpoint extra_pseudofields (columns : list pyval)
    (fields : list field_object) (by_name : gmap string field_object)
    : partial (list field_object * gmap string field_object) :=
  match columns with
  | [] => Some (Ok (fields, by_name))
  | PDict items :: rest =>
      match dict_get items "column_name" with
      | Some (PStr column_name) =>
          let pseudofield := Pseudofield {| ExporterPseudofield.name := column_name |} in
          extra_pseudofields rest (fields ++ [pseudofield; pseudofield])
            (<[column_name := pseudofield]> by_name)
      | Some (PList _ | PDict _) => Some (Raise TypeError)
      | Some (PNone | PBool _ | PInt _) => None
      | None => Some (Raise KeyError)
      end
  | _ :: _ => Some (Raise TypeError)
  end.

(** [exporters] is the module-level registry.  The result is the new
    rollup and the parent with the rollup registered.  (When a later
    statement raises, Python has already registered the unfinished rollup
    with the parent; the parent is not returned in that case.) *)
Definition __init__ (exporters : gmap string Exporter.t) (parent : Exporter.t)
    (name exporter : string) (settings : list (string * pyval))
    (where_before_join : option loc) : partial (ExporterRollup.t * Exporter.t) :=
  match exporters !! exporter with
  | None => Some (Raise KeyError)
  | Some inner =>
      pbind (covered (names ← iterate (dict_get settings "group_by");
                      group_by_fields inner names [] ∅)) (fun '(fields, by_name) =>
      pbind (covered (iterate (dict_get settings "extra_field"))) (fun columns =>
      pbind (extra_pseudofields columns fields by_name) (fun '(fields, by_name) =>
        let self :=
          {| ExporterRollup.name := name; ExporterRollup.exporter := exporter;
             ExporterRollup.fields := fields; ExporterRollup.fields_by_name := by_name;
             ExporterRollup.settings := settings;
             ExporterRollup.where_before_join := where_before_join |} in
        Some (Ok (self,
                  {| Exporter.name := Exporter.name parent;
                     Exporter.apps := Exporter.apps parent;
                     Exporter.apps_by_name := Exporter.apps_by_name parent;
                     Exporter.rollups := Exporter.rollups parent ++ [self];
                     Exporter.rollups_by_name :=
                       <[name := self]> (Exporter.rollups_by_name parent);
                     Exporter.fields := Exporter.fields parent;
                     Exporter.fields_by_name := Exporter.fields_by_name parent;
                     Exporter.extra_field := Exporter.extra_field parent |})))))
  end.

End ExporterRollupMethods.

(** ** Extra columns: the literal branch and the filter block *)

Module ExtraField.

(** The opening statement of [Exporter._resolve_extra_field], for a column
    declaration [column]: the value the function returns from there, or
    [None] when control goes on to the resolution of the source field.
    The returned pair is the tuple as Python builds it: the select text
    (or number) and the empty list. *)
Definition literal (column : list (string * pyval)) : option (pyval * pyval) :=
  match dict_get column "value" with
  | Some value =>
      match value with
      | PNone => Some (PStr "Null", PList [])
      | PStr _ => Some (PStr "'{column['value']}'", PList [])
      | PInt _ | PBool _ => Some (value, PList [])
      | _ => None
      end
  | None => None
  end.

(** What the callers do with the returned pair:
    [', '.join(filter(None, (sql_dict.get('select'), added_select_bit)))]
    and [parameters | added_parameters]. *)
Definition join_select (select : option string) (added_select_bit : pyval) : result string :=
  match added_select_bit with
  | PStr s => Ok (join ", " (filter_none [select; Some s]))
  | other =>
      if truthy other then Raise TypeError else Ok (join ", " (filter_none [select]))
  end.

Definition or_parameters (parameters : gmap string pyval) (added_parameters : pyval)
    : result (gmap string pyval) :=
  match added_parameters with
  | PDict items => Ok (dict_or parameters (list_to_map items))
  | _ => Raise TypeError
  end.

(** [filter_item[key]] for a filter item. *)
Definition item (filter_item : pyval) (key : string) : result pyval :=
  match filter_item with
  | PDict items =>
      match dict_get items key with
      | Some v => Ok v
      | None => Raise KeyError
      end
  | _ => Raise TypeError
  end.

(** The loop over the filter items of a column: each iteration overwrites
    [where_bit] and [added_parameters]. *)
Fixpoint filter_loop (self : Exporter.t) (filters : list pyval)
    (field_query_layer : option string)
    (acc : option string * option (gmap string pyval))
    : result (option string * option (gmap string pyval)) :=
  match filters with
  | [] => Ok acc
  | filter_item :: rest =>
      name ← item filter_item "field";
      field ← Exporter.find_field_value self name;
      operator ← item filter_item "operator";
      value ← item filter_item "value";
      filter_loop self rest field_query_layer
        (_resolve_where operator (Some field) value field_query_layer)
  end.

(** The block [if column.get('filter'): ...] of [_resolve_extra_field],
    applied to the select text and parameters built so far. *)
Definition filter_block (self : Exporter.t) (column : list (string * pyval))
    (field_query_layer : option string) (select_bit : string)
    (parameters : gmap string pyval) : result (string * gmap string pyval) :=
  match dict_get column "filter" with
  | Some v =>
      if truthy v then
        let filters := match v with PList items => items | other => [other] end in
        '(where_bit, added_parameters) ←
          filter_loop self filters field_query_layer (Some "", None);
        if opt_truthy where_bit then
          match added_parameters with
          | Some added =>
              Ok (select_bit +:+ " FILTER (WHERE " +:+ fmt where_bit +:+ ")",
                  dict_or parameters added)
          | None => Raise TypeError
          end
        else Ok (select_bit, parameters)
      else Ok (select_bit, parameters)
  | None => Ok (select_bit, parameters)
  end.

End ExtraField.

(** * Specification vocabulary and sample data *)

(** What the spec asks of one clause: the two operands' non-empty values,
    joined with the separator. *)
Definition joined_values (sep : string) (a b : SqlDict) (key : string) : string :=
  join sep (filter_none [text a !! key; text b !! key]).

(** The parameter map of a fragment, empty when the entry is absent. *)
Definition parameters_of (d : SqlDict) : gmap string pyval := default ∅ (parameters d).

(** The clause texts of the merge of two fragments, for the six keys of the
    [mergers] table with the separator of each. *)
Definition clauses_joined (a b m : SqlDict) : Prop :=
  text m !! "select" = Some (joined_values ", " a b "select")
  ∧ text m !! "select_no_table" = Some (joined_values ", " a b "select_no_table")
  ∧ text m !! "from" = Some (joined_values " " a b "from")
  ∧ text m !! "where" = Some (joined_values " AND " a b "where")
  ∧ text m !! "group_by" = Some (joined_values ", " a b "group_by")
  ∧ text m !! "having" = Some (joined_values " AND " a b "having").

(** The fragments of the test suite ([dict1], [dict2] of [UtilsTests]). *)
Definition test_dict1 : SqlDict :=
  {| text := list_to_map [("select", "one as one_thing"); ("select_no_table", "");
                          ("from", "test1 as test_table_1"); ("where", "thing1 = 1");
                          ("group_by", "thing1"); ("having", "count(thing1) = 11")];
     parameters := Some ∅ |}.

Definition test_dict2 : SqlDict :=
  {| text := list_to_map [("select", "two as two_thing"); ("select_no_table", "");
                          ("from", "test2 as test_table_2"); ("where", "thing2 = 2");
                          ("group_by", "thing2"); ("having", "count(thing2) = 22")];
     parameters := Some ∅ |}.

(** A field of table [t] whose Django field has the physical column [c];
    the other attributes are arbitrary. *)
Definition physical_field (name : string) (kind : django_class) (c : string)
    (field_name related : option string) (join_only : bool) (t : string) : ExporterField.t :=
  {| ExporterField.name := name;
     ExporterField.field := {| cls := kind; attr_column := Some c;
                               attr_field_name := field_name; related_model := related |};
     ExporterField.join_only := join_only;
     ExporterField.parent_table := t |}.

Definition orders_amount : ExporterField.t :=
  physical_field "amount" OtherField "amount" None None false "orders".

Definition has_field {V : Type} (by_name : gmap string V) (field : string) : bool :=
  bool_decide (is_Some (by_name !! field)).

(** The number of places that declare a field of the given name: the
    exporter's own pseudofields, the models of its apps, its rollups. *)
Definition declarations (self : Exporter.t) (field : string) : nat :=
  (if has_field (Exporter.fields_by_name self) field then 1 else 0)
  + sum_list (map (fun app =>
       length (filter (fun model => has_field (ExporterModel.fields_by_name model) field = true)
                      (ExporterApp.models app)))
       (Exporter.apps self))
  + length (filter (fun rollup => has_field (ExporterRollup.fields_by_name rollup) field = true)
                   (Exporter.rollups self)).

(** [fo] is a field of that name declared in one of those places. *)
Definition declared_as (self : Exporter.t) (field : string) (fo : field_object) : Prop :=
  (∃ p, Exporter.fields_by_name self !! field = Some p ∧ fo = Pseudofield p)
  ∨ (∃ app model f, app ∈ Exporter.apps self ∧ model ∈ ExporterApp.models app
       ∧ ExporterModel.fields_by_name model !! field = Some f ∧ fo = Field f)
  ∨ (∃ rollup, rollup ∈ Exporter.rollups self
       ∧ ExporterRollup.fields_by_name rollup !! field = Some fo).

(** Which segment of a qualified lookup is missing, if any. *)
Definition qualified_target (self : Exporter.t) (app model field : string)
    : option ExporterField.t :=
  app_object ← Exporter.apps_by_name self !! app;
  model_object ← ExporterApp.models_by_name app_object !! model;
  ExporterModel.fields_by_name model_object !! field.

(** What [find_field] owes its caller, for an unqualified [name] and for
    the qualified triple [(app, model, field)]: a result only when exactly
    one place declares the name (and then the field declared there),
    respectively when every segment is found; in every other case
    [MLExportWizardFieldNotFound]; and the same error when no name is
    given. *)
Definition find_field_contract (self : Exporter.t) (name app model field : string) : Prop :=
  match Exporter.find_field self None None (Some name) with
  | Ok fo => declarations self name = 1 ∧ declared_as self name fo
  | Raise e => e = MLExportWizardFieldNotFound ∧ declarations self name ≠ 1
  end
  ∧ match Exporter.find_field self (Some app) (Some model) (Some field) with
    | Ok fo => ∃ f, qualified_target self app model field = Some f ∧ fo = Field f
    | Raise e => e = MLExportWizardFieldNotFound
                 ∧ qualified_target self app model field = None
    end
  ∧ Exporter.find_field self None None None = Raise MLExportWizardFieldNotFound
  ∧ Exporter.find_field self None None (Some "") = Raise MLExportWizardFieldNotFound.

(** A sample schema: one app with the tables [orders] and [customers]. *)
Definition plain_field (name t : string) : ExporterField.t :=
  physical_field name OtherField name None None false t.

Definition foreign_key (name column related t : string) : ExporterField.t :=
  physical_field name ForeignKey column None (Some related) false t.

Definition reverse_relation (name field_name related t : string) : ExporterField.t :=
  {| ExporterField.name := name;
     ExporterField.field := {| cls := ManyToOneRel; attr_column := None;
                               attr_field_name := Some field_name;
                               related_model := Some related |};
     ExporterField.join_only := false;
     ExporterField.parent_table := t |}.

Definition model_of (name t : string) (fields : list ExporterField.t)
    (dont_link_to : option (list string)) : ExporterModel.t :=
  {| ExporterModel.name := name;
     ExporterModel.table := t;
     ExporterModel.fields := fields;
     ExporterModel.fields_by_name :=
       list_to_map (reverse (map (fun f => (ExporterField.name f, f)) fields));
     ExporterModel.dont_link_to := dont_link_to |}.

Definition app_of (name : string) (models : list ExporterModel.t)
    (primary_model : option string) : ExporterApp.t :=
  {| ExporterApp.name := name;
     ExporterApp.models := models;
     ExporterApp.models_by_name :=
       list_to_map (reverse (map (fun m => (ExporterModel.name m, m)) models));
     ExporterApp.primary_model := primary_model |}.

Definition Order : ExporterModel.t :=
  model_of "Order" "orders"
    [plain_field "id" "orders"; plain_field "amount" "orders";
     foreign_key "customer" "customer_id" "Customer" "orders"] None.

Definition Customer : ExporterModel.t :=
  model_of "Customer" "customers"
    [plain_field "id" "customers"; plain_field "city" "customers";
     reverse_relation "order" "customer_id" "Order" "customers"] None.

Definition shop : ExporterApp.t := app_of "shop" [Order; Customer] (Some "Order").

Definition Sales : Exporter.t :=
  {| Exporter.name := "Sales";
     Exporter.apps := [shop];
     Exporter.apps_by_name := {["shop" := shop]};
     Exporter.rollups := [];
     Exporter.rollups_by_name := ∅;
     Exporter.fields := [];
     Exporter.fields_by_name := ∅;
     Exporter.extra_field := [] |}.

(** The spec's example for formulas: a table [t] with the columns [x] and
    [y]. *)
Definition T : ExporterModel.t :=
  model_of "T" "t" [plain_field "x" "t"; plain_field "y" "t"] None.

Definition Formulas : Exporter.t :=
  {| Exporter.name := "Formulas";
     Exporter.apps := [app_of "a" [T] (Some "T")];
     Exporter.apps_by_name := {["a" := app_of "a" [T] (Some "T")]};
     Exporter.rollups := [];
     Exporter.rollups_by_name := ∅;
     Exporter.fields := [];
     Exporter.fields_by_name := ∅;
     Exporter.extra_field := [] |}.

Definition quoted (name : string) : string := dquote +:+ name +:+ dquote.

(** Following the spec's words (section 4.7): each quoted token is replaced
    in place, left to right, by the column that [resolve] gives for the
    enclosed name, and all other text is left untouched.  Tokens are found
    as [quoted_tokens] finds them; [open] is the text after an opening quote
    that still waits for its closing quote. *)
Fixpoint substitute_in_place (resolve : string -> string) (s : string)
    (open : option string) : string :=
  match s with
  | EmptyString =>
      match open with
      | Some inside => dquote +:+ inside
      | None => EmptyString
      end
  | String a rest =>
      match open with
      | None =>
          if Ascii.eqb a dquote_char
          then substitute_in_place resolve rest (Some "")
          else String a (substitute_in_place resolve rest None)
      | Some inside =>
          if Ascii.eqb a dquote_char
          then resolve inside +:+ substitute_in_place resolve rest None
          else if Ascii.eqb a newline_char
          then dquote +:+ inside +:+ String a (substitute_in_place resolve rest None)
          else substitute_in_place resolve rest (Some (inside +:+ String a ""))
      end
  end.

(** The columns of [Formulas] at layer [base]. *)
Definition base_column_of (name : string) : string := "t." +:+ name.

(** A formula in which the text of the first token occurs a second time
    across the boundary of later tokens. *)
Definition straddling_formula : string :=
  quoted "x" +:+ quoted "y" +:+ "x" +:+ quoted "y".

(** A request as [Exporter.query()] builds it. *)
Definition new_query (exporter : string) (count group_by : pyval)
    (where_before_join : option loc) (where_ extra_field order_by limit : pyval)
    : ExporterQuery.t :=
  ExporterQuery.__init__ exporter count group_by where_before_join where_ extra_field
    order_by limit.

(** A pre-join filter on [orders.amount] with the value [v]. *)
Definition amount_filter (v : pyval) : where_before_join_view :=
  Some [("Order", [PDict [("field", PStr "amount"); ("value", v)]])].

(** An extra column counting rows, filtered on [amount] with the value [v]. *)
Definition filtered_count (v : pyval) : list (string * pyval) :=
  [("function", PStr "count");
   ("filter", PDict [("field", PStr "amount"); ("operator", PStr "="); ("value", v)])].

(** The names of the models registered in a group. *)
Definition registered_names (models_by_name : gmap string ExporterModel.t) : gset string :=
  list_to_set (map (fun entry => ExporterModel.name entry.2) (map_to_list models_by_name)).

(** The record of calls agrees with the set: each model noted as prepped
    was noted once. *)
Definition consistent (st : compile_state) : Prop :=
  NoDup (joined st) ∧ ∀ x, x ∈ prepped_models st ↔ x ∈ joined st.

(** The registered models not yet prepped: the bound on the depth of the
    traversal that is left. *)
Definition remaining (models_by_name : gmap string ExporterModel.t) (st : compile_state) : nat :=
  size (registered_names models_by_name ∖ prepped_models st).

(** A group with a cycle: orders point to customers and customers back to
    orders, and each also to itself. *)
Definition Node (name other : string) : ExporterModel.t :=
  model_of name name
    [plain_field "id" name; foreign_key "self" "self_id" name name;
     foreign_key "other" "other_id" other name] None.

Definition cyclic : ExporterApp.t := app_of "cyclic" [Node "A" "B"; Node "B" "A"] (Some "A").

(** The fragment [sql_dict] is the own fragment of a registered model
    named [name]: what the model builds of its table reference and its
    fields, for some way of joining it. *)
Definition own_fragment (models_by_name : gmap string ExporterModel.t)
    (where_before_join : where_before_join_view) (query_layer : option string)
    (name : string) (sql_dict : SqlDict) : Prop :=
  ∃ key model table_name left_join join_model join_using,
    models_by_name !! key = Some model
    ∧ ExporterModel.name model = name
    ∧ ExporterModel.own_sql_dict model table_name left_join join_model join_using
        where_before_join query_layer = Ok sql_dict.

(** The record of emitted fragments names, for each fragment, the model
    that built it. *)
Definition traced (models_by_name : gmap string ExporterModel.t)
    (where_before_join : where_before_join_view) (query_layer : option string)
    (st : compile_state) : Prop :=
  Forall2 (own_fragment models_by_name where_before_join query_layer)
          (joined st) (fragments st).

(** The merge of a sequence of fragments, in order. *)
Definition merged (fragments : list SqlDict) : option SqlDict :=
  match fragments with
  | [] => None
  | first :: rest => Some (foldl merge2 first rest)
  end.

(** What a run of the traversal guarantees, whatever its outcome: it ends,
    the record of calls stays duplicate-free and the set only grows. *)
Definition run_ok (st : compile_state) (r : run) : Prop :=
  ∃ outcome st', r = Some (outcome, st') ∧ consistent st'
                 ∧ prepped_models st ⊆ prepped_models st'.

(** The filter items a rollup compiles a table with: the caller's, followed
    by the rollup's own. *)
Definition combined (own added : option (list pyval)) : option (list pyval) :=
  match own, added with
  | Some own, Some added => Some (own ++ added)%list
  | Some own, None => Some own
  | None, added => added
  end.

(** A dictionary object as Python builds it: its keys are distinct and its
    values are list objects. *)
Definition well_formed_dict (h : gmap loc Heap.obj) (d : loc) : Prop :=
  match Heap.read_dict h d with
  | Some entries =>
      NoDup entries.*1 ∧ Forall (fun entry => is_Some (Heap.read_list h entry.2)) entries
  | None => False
  end.

(** No list object is the value of two keys. *)
Definition unshared (h : gmap loc Heap.obj) (d : loc) : Prop :=
  match Heap.read_dict h d with
  | Some entries => NoDup entries.*2
  | None => True
  end.

Definition well_formed_reference (h : gmap loc Heap.obj) (d : option loc) : Prop :=
  match d with
  | Some d => well_formed_dict h d
  | None => True
  end.

(** What the rollup owes its caller when it prepares the request for the
    inner compilation from the request at [query] in the heap [h]: the
    result is a new object; every object of [h] is as it was; grouping and
    extra fields are the rollup's own; ordering, filters and limit are
    cleared; and each table's pre-join filters are the caller's followed by
    the rollup's. *)
Definition rollup_request_contract (self : ExporterRollup.t) (h : gmap loc Heap.obj)
    (q : ExporterQuery.t) (h' : gmap loc Heap.obj) (rollup_query : loc)
    (rq : ExporterQuery.t) : Prop :=
  (rollup_query ∉ dom h)
  ∧ (∀ l, l ∈ dom h -> h' !! l = h !! l)
  ∧ Heap.read_query h' rollup_query = Some rq
  ∧ ExporterQuery._group_by rq
    = listify (default PNone (dict_get (ExporterRollup.settings self) "group_by"))
  ∧ ExporterQuery._extra_field rq
    = listify (default PNone (dict_get (ExporterRollup.settings self) "extra_field"))
  ∧ ExporterQuery._order_by rq = []
  ∧ ExporterQuery._where rq = []
  ∧ ExporterQuery._limit rq = PNone
  ∧ ExporterQuery._exporter rq = ExporterQuery._exporter q
  ∧ ExporterQuery._count rq = ExporterQuery._count q
  ∧ ∀ table_name,
      Heap.filters_of h' (ExporterQuery._where_before_join rq) table_name
      = combined (Heap.filters_of h (ExporterQuery._where_before_join q) table_name)
                 (Heap.filters_of h (ExporterRollup.where_before_join self) table_name).

(** The caller's request is well formed: its dictionary, if any, is a
    dictionary of list objects, none of them the value of two keys. *)
Definition request_well_formed (h : gmap loc Heap.obj) (q : ExporterQuery.t) : Prop :=
  well_formed_reference h (ExporterQuery._where_before_join q)
  ∧ ∀ d, ExporterQuery._where_before_join q = Some d -> unshared h d.

(** A heap with a caller's request at [10] filtering the tables [orders]
    and [customers], and a rollup setting at [20] filtering [orders] and
    [items]. *)
Definition sample_heap : gmap loc Heap.obj :=
  list_to_map
    [(1%positive, Heap.OList [PDict [("field", PStr "amount"); ("value", PInt 5)]]);
     (2%positive, Heap.OList [PDict [("field", PStr "city"); ("value", PStr "Oslo")]]);
     (3%positive, Heap.ODict [("orders", 1%positive); ("customers", 2%positive)]);
     (10%positive, Heap.OQuery (new_query "Sales" PNone (PStr "city") (Some 3%positive)
                                  (PDict [("field", PStr "amount"); ("value", PInt 1)])
                                  PNone (PStr "city") (PInt 10)));
     (11%positive, Heap.OList [PDict [("field", PStr "amount"); ("value", PInt 9)]]);
     (12%positive, Heap.OList [PDict [("field", PStr "sku"); ("value", PStr "x")]]);
     (20%positive, Heap.ODict [("orders", 11%positive); ("items", 12%positive)])].

Definition sample_rollup : ExporterRollup.t :=
  {| ExporterRollup.name := "by_city";
     ExporterRollup.exporter := "Sales";
     ExporterRollup.fields := [Field (plain_field "city" "customers")];
     ExporterRollup.fields_by_name := {["city" := Field (plain_field "city" "customers")]};
     ExporterRollup.settings := [("group_by", PList [PStr "city"])];
     ExporterRollup.where_before_join := Some 20%positive |}.

Definition sample_request : ExporterQuery.t :=
  new_query "Sales" PNone (PStr "city") (Some 3%positive)
    (PDict [("field", PStr "amount"); ("value", PInt 1)]) PNone (PStr "city") (PInt 10).

(** A caller's request in which the tables [orders] and [customers] share
    one list object, and a rollup setting that filters both tables. *)
Definition filter_item (field : string) (value : Z) : pyval :=
  PDict [("field", PStr field); ("value", PInt value)].

Definition shared_heap : gmap loc Heap.obj :=
  list_to_map
    [(1%positive, Heap.OList [filter_item "id" 1]);
     (3%positive, Heap.ODict [("orders", 1%positive); ("customers", 1%positive)]);
     (10%positive, Heap.OQuery (new_query "Sales" PNone PNone (Some 3%positive)
                                  PNone PNone PNone PNone));
     (11%positive, Heap.OList [filter_item "amount" 9]);
     (12%positive, Heap.OList [filter_item "city" 7]);
     (20%positive, Heap.ODict [("orders", 11%positive); ("customers", 12%positive)])].

(** * Further embedding and vocabulary *)

(** ** Fragments in normal form *)

(** The keys of the [mergers] table. *)
Definition clause_keys : gset string := list_to_set mergers.*1.

(** A fragment as [merge_sql_dicts] returns it: text entries for exactly the
    six clause keys, and a parameter map. *)
Definition normal (d : SqlDict) : Prop :=
  dom (text d) = clause_keys ∧ is_Some (parameters d).

(** ** The select list of a model *)

(** A field that takes part in the select list: not there for joining only
    and no reference to another table. *)
Definition selectable (f : ExporterField.t) : bool :=
  negb (ExporterField.join_only f || ExporterField.is_relation f).

(** The select entry of one field: its column at the layer, qualified by
    [table_name] when one is given and by the field's own table otherwise. *)
Definition select_text (table_name query_layer : option string) (f : ExporterField.t)
    : string :=
  (if opt_truthy table_name then default "" table_name else ExporterField.parent_table f)
  +:+ "." +:+ ExporterField.column f query_layer.

(** ** Names *)

Definition dot : string := String dot_char "".

(** A name without a dot. *)
Definition dot_free (s : string) : Prop := count_char dot_char s = 0.


Definition pseudofield (c : string) : ExporterPseudofield.t :=
  {| ExporterPseudofield.name := c |}.

(** ** Pre-join filters *)

(** The comparison operators for which [_resolve_where] writes a predicate. *)
Definition supported (operator : pyval) : bool :=
  match operator with
  | PStr op => bool_decide (op ∈ ["="; ">="; "<="; "<>"; "!="])
  | _ => false
  end.

(** The predicate on the bare column of [f], with the named placeholder. *)
Definition predicate (f : ExporterField.t) (operator : pyval) : string :=
  match operator with
  | PStr op =>
      if supported operator
      then ExporterField.column f None +:+ op +:+ "%(" +:+ ExporterField.column f None +:+ ")s"
      else ""
  | _ => ""
  end.

(** A filter tuple [(field, value, operator)] that passes the tests of
    [_resolve_where] on the model [self]: the field is one of the model's,
    value and operator are truthy. *)
Definition applicable (self : ExporterModel.t) (tuple : pyval * pyval * pyval) : Prop :=
  ∃ name f, tuple.1.1 = PStr name
            ∧ ExporterModel.fields_by_name self !! name = Some f
            ∧ truthy tuple.1.2 = true ∧ truthy tuple.2 = true.

(** Two pre-join filters on the table of [Order]: on [amount], then on [id]. *)
Definition two_filters : list (string * list pyval) :=
  [("Order", [PDict [("field", PStr "amount"); ("value", PInt 5); ("operator", PStr ">=")];
              PDict [("field", PStr "id"); ("value", PInt 3)]])].

(** ** Runs of the traversal that succeed *)

(** The run returns a fragment, and the models it joined, [more], are
    registered models added to the record in order. *)
Definition run_joins (models_by_name : gmap string ExporterModel.t) (st : compile_state)
    (more : list string) (r : run) : Prop :=
  ∃ sql_dict st',
    r = Some (Ok sql_dict, st')
    ∧ consistent st'
    ∧ prepped_models st ⊆ prepped_models st'
    ∧ joined st' = joined st ++ more
    ∧ Forall (fun name => name ∈ registered_names models_by_name) more.

(** The outcome of compiling a group without pre-join filters, by the
    [primary_model] setting. *)
Definition app_compile_outcome (self : ExporterApp.t) (r : run) : Prop :=
  match ExporterApp.primary_model self with
  | Some primary =>
      if str_truthy primary then
        match ExporterApp.models_by_name self !! primary with
        | Some model =>
            ∃ sql_dict st' more,
              r = Some (Ok sql_dict, st')
              ∧ joined st' = ExporterModel.name model :: more
              ∧ NoDup (joined st')
              ∧ Forall (fun name => name ∈ registered_names (ExporterApp.models_by_name self))
                       (joined st')
        | None => r = Some (Raise KeyError, ExporterApp.fresh_state)
        end
      else r = Some (Raise ImproperlyConfigured, ExporterApp.fresh_state)
  | None => r = Some (Raise ImproperlyConfigured, ExporterApp.fresh_state)
  end.

(** ** Formulas *)

(** A text without a double quote. *)
Definition quote_free (s : string) : Prop := count_char dquote_char s = 0.

(** A text without a line feed. *)
Definition one_line (s : string) : Prop := count_char newline_char s = 0.

(** ** Source fields and extra columns *)

(** [str(v)], as an f-string formats [v], for the scalar values. *)
Definition py_str (v : pyval) : option string :=
  match v with
  | PNone => Some "None"
  | PBool true => Some "True"
  | PBool false => Some "False"
  | PInt z => Some (pretty z)
  | PStr s => Some s
  | PList _ | PDict _ => None
  end.

(** An argument of [find_field] read from a dictionary with [.get]. *)
Definition name_argument (v : option pyval) : option (option string) :=
  match v with
  | None | Some PNone => Some None
  | Some (PStr s) => Some (Some s)
  | Some _ => None
  end.

Module Resolver.

(** [find_field(app=d.get('app'), model=d.get('model'), field=d.get('field'))]
    for the items of a dictionary [d]. *)
Definition find_by_dict (self : Exporter.t) (items : list (string * pyval))
    : partial field_object :=
  match name_argument (dict_get items "app"), name_argument (dict_get items "model"),
        name_argument (dict_get items "field") with
  | Some app, Some model, Some field => Some (Exporter.find_field self app model field)
  | _, _, _ => None
  end.

(** The loop of [_resolve_source_field] that collects the field objects. *)
Fixpoint collect (self : Exporter.t) (source_fields : list pyval)
    (fields : list field_object) : partial (list field_object) :=
  match source_fields with
  | [] => Some (Ok fields)
  | PStr source_field :: rest =>
      if (count_char dot_char source_field =? 2)%nat then
        match split_on dot_char source_field with
        | [app; model; field] =>
            pbind (Some (Exporter.find_field self (Some app) (Some model) (Some field)))
                  (fun field_object => collect self rest (fields ++ [field_object]))
        | _ => Some (Raise ValueError)
        end
      else if str_truthy source_field && negb (String.eqb source_field "*") then
        pbind (Some (Exporter.find_field self None None (Some source_field)))
              (fun field_object => collect self rest (fields ++ [field_object]))
      else collect self rest fields
  | PDict items :: rest =>
      pbind (find_by_dict self items)
            (fun field_object => collect self rest (fields ++ [field_object]))
  | _ :: rest => collect self rest fields
  end.

Definition _resolve_source_field (self : Exporter.t) (source_field : pyval)
    (field_query_layer : option string) (operator : pyval) : partial (option string) :=
  if negb (truthy source_field) then Some (Ok None)
  else
    let source_fields :=
      match source_field with
      | PList items => items
      | other => [other]
      end in
    pbind (collect self source_fields [])
      (fun fields =>
         match fields with
         | [] => Some (Ok None)
         | [field] => Some (Ok (Some (field_column field field_query_layer)))
         | _ =>
             let columns := map (fun field => field_column field field_query_layer) fields in
             if str_is operator "join" then Some (Ok (Some (join " || " columns)))
             else Some (Ok (Some ("ROW(" +:+ join ", " columns +:+ ")")))
         end).

(** The second component of the pair [_resolve_extra_field] returns: the
    empty list of the literal branch, or a parameter dictionary. *)
Inductive extra_parameters : Type :=
| EmptyList
| Parameters (p : gmap string pyval).

(** [column.get(key)], [None] when the key is absent. *)
Definition get (column : list (string * pyval)) (key : string) : pyval :=
  default PNone (dict_get column key).

(** The column the declaration refers to: from [source_field], or else
    from [case_expression]. *)
Definition source_column (self : Exporter.t) (column : list (string * pyval))
    (field_query_layer : option string) : partial (option string) :=
  if truthy (get column "source_field") then
    _resolve_source_field self (get column "source_field") field_query_layer PNone
  else if truthy (get column "case_expression") then
    match get column "case_expression" with
    | PDict case_expression =>
        _resolve_source_field self (get case_expression "source_field") field_query_layer
          (get case_expression "operator")
    | _ => Some (Raise AttributeError)
    end
  else Some (Ok (Some "")).

(** [select_bit] after the statement [if column.get('formula'): ...]. *)
Definition formula_bit (self : Exporter.t) (column : list (string * pyval))
    (field_query_layer : option string) (select_bit : string) : result string :=
  if truthy (get column "formula") then
    match get column "formula" with
    | PStr formula =>
        resolved ← Exporter._resolve_formula self (Some formula) field_query_layer;
        Ok (default "" resolved)
    | _ =>
        if opt_truthy field_query_layer
           && negb (bool_decide (default "" field_query_layer ∈ ["base"; "middle"]))
        then Raise ValueError
        else Raise TypeError
    end
  else Ok select_bit.

Definition distinct_bit (column : list (string * pyval)) : string :=
  if truthy (get column "distinct") then "DISTINCT " else "".

(** The call of the aggregate function, for the [aggragate] case. *)
Definition aggregate_bit (column : list (string * pyval)) (field_column : string)
    : option string :=
  let field_type := default (PStr "string") (dict_get column "field_type") in
  let '(function_name, seperator, field_cast) :=
    if str_is field_type "string" || str_is field_type "text" then
      ("STRING_AGG",
       text ← py_str (default (PStr " ,") (dict_get column "seperator"));
       Some (", '" +:+ text +:+ "'"),
       "::text")
    else if str_is field_type "list" then ("ARRAY_AGG", Some "", "")
    else ("", Some "", "") in
  seperator ← seperator;
  order_bit ←
    (if truthy (get column "order") then
       text ← py_str (get column "order");
       Some (" ORDER BY " +:+ field_column +:+ field_cast +:+ " " +:+ text)
     else Some "");
  Some (function_name +:+ "(" +:+ distinct_bit column +:+ field_column +:+ field_cast
          +:+ seperator +:+ order_bit +:+ ")").

(** [select_bit] after the statement [match column.get('function'): ...];
    [field_column] is the possibly-[None] source column.  The [case]
    function is not covered. *)
Definition function_bit (column : list (string * pyval)) (field_column : option string)
    (select_bit : string) : option string :=
  let function := get column "function" in
  if str_is function "sum" then
    if opt_truthy field_column then Some ("SUM(" +:+ fmt field_column +:+ ")")
    else Some select_bit
  else if str_is function "count" then
    if opt_truthy field_column
    then Some ("COUNT(" +:+ distinct_bit column +:+ fmt field_column +:+ ")")
    else Some "COUNT(*)"
  else if str_is function "aggragate" then
    if opt_truthy field_column then aggregate_bit column (fmt field_column)
    else Some select_bit
  else if str_is function "case" then None
  else Some select_bit.

Definition cast_bit (column : list (string * pyval)) (select_bit : string) : option string :=
  if truthy (get column "cast") then
    text ← py_str (get column "cast"); Some (select_bit +:+ "::" +:+ text)
  else Some select_bit.

Definition alias_bit (column : list (string * pyval)) (select_bit : string) : option string :=
  if truthy (get column "column_name") then
    text ← py_str (get column "column_name"); Some (select_bit +:+ " AS " +:+ text)
  else Some select_bit.

(** [Exporter._resolve_extra_field], without the [case] function. *)
Definition _resolve_extra_field (self : Exporter.t) (column : list (string * pyval))
    (query_layer field_query_layer : option string) : partial (pyval * extra_parameters) :=
  match ExtraField.literal column with
  | Some (value, _) => Some (Ok (value, EmptyList))
  | None =>
      pbind (source_column self column field_query_layer) (fun field_column =>
      pbind (covered (formula_bit self column field_query_layer "")) (fun select_bit =>
      match function_bit column field_column select_bit with
      | None => None
      | Some select_bit =>
          match cast_bit column select_bit with
          | None => None
          | Some select_bit =>
              pbind (covered (ExtraField.filter_block self column field_query_layer
                                select_bit ∅))
                (fun '(select_bit, parameters) =>
                   match alias_bit column select_bit with
                   | None => None
                   | Some select_bit => Some (Ok (PStr select_bit, Parameters parameters))
                   end)
          end
      end))
  end.

End Resolver.

(** *** Vocabulary for the statements about source fields and columns *)

(** A string of a source-field list that names a field: not blank and not
    the star. *)
Definition names_a_field (s : string) : bool :=
  str_truthy s && negb (String.eqb s "*").

(** [self] resolves the names, in order, to the field objects. *)
Definition resolves (self : Exporter.t) (names : list string) (fields : list field_object)
    : Prop :=
  Forall2 (fun name field => Exporter.find_field self None None (Some name) = Ok field)
          names fields.

Definition columns_of (fields : list field_object) (query_layer : option string)
    : list string :=
  map (fun field => field_column field query_layer) fields.

(** A column declaration with no literal value, formula, cast or filter. *)
Definition plain_declaration (column : list (string * pyval)) : Prop :=
  dict_get column "value" = None
  ∧ truthy (Resolver.get column "formula") = false
  ∧ truthy (Resolver.get column "cast") = false
  ∧ truthy (Resolver.get column "filter") = false.

(** The text [ AS name] the declaration ends with, when it has a name. *)
Definition alias (name : string) : string :=
  if str_truthy name then " AS " +:+ name else "".

(** Sample declarations over the sample schema. *)
Definition count_orders : list (string * pyval) :=
  [("column_name", PStr "orders"); ("function", PStr "count"); ("source_field", PStr "*")].

Definition count_amounts : list (string * pyval) :=
  [("column_name", PStr "amounts"); ("function", PStr "count");
   ("source_field", PStr "amount"); ("distinct", PBool true)].

Definition amount_only : list (string * pyval) :=
  [("column_name", PStr "amount_copy"); ("source_field", PStr "amount")].

(** The declaration names none of the functions the resolver knows. *)
Definition no_function (column : list (string * pyval)) : Prop :=
  Forall (fun name => str_is (Resolver.get column "function") name = false)
         ["sum"; "count"; "aggragate"; "case"].

(** ** The request clauses of [final_sql] *)

Module FinalSql.

(** The field a group or a filter refers to: a name, or a dictionary with
    [app], [model] and [field]. *)
Definition field_of_reference (self : Exporter.t) (reference : pyval)
    : partial field_object :=
  match reference with
  | PStr name => Some (Exporter.find_field self None None (Some name))
  | PDict items => Resolver.find_by_dict self items
  | _ => Some (Raise AttributeError)
  end.

(** The loop [for group in query.group_by] on the clause texts of
    [sql_dict]. *)
Fixpoint group_by_loop (self : Exporter.t) (groups : list pyval)
    (field_query_layer : option string) (sql_dict : gmap string string)
    : partial (gmap string string) :=
  match groups with
  | [] => Some (Ok sql_dict)
  | group :: rest =>
      pbind (field_of_reference self group) (fun field =>
        let column := field_column field field_query_layer in
        let sql_dict :=
          <["group_by" := join ", " (filter_none [sql_dict !! "group_by"; Some column])]>
            sql_dict in
        let sql_dict :=
          <["select" := join ", " (filter_none [Some column; sql_dict !! "select"])]>
            sql_dict in
        group_by_loop self rest field_query_layer sql_dict)
  end.

(** The predicate and the parameters of one filter of [query.where] on the
    column [column]; [where_bit] is the predicate of the filter before, or
    [None] for the first one.  A filter without value whose [not_null] and
    [valid] are not set leaves the variable as it is: the predicate of the
    filter before is used again, and for the first filter Python raises
    [UnboundLocalError], which is not covered. *)
Definition where_bit_of (where_item : list (string * pyval)) (column : string)
    (where_bit : option string) : option (string * gmap string pyval) :=
  match dict_get where_item "value" with
  | Some value =>
      operator ← py_str (default (PStr "=") (dict_get where_item "operator"));
      Some (column +:+ " " +:+ operator +:+ " %(" +:+ column +:+ ")s", {[column := value]})
  | None =>
      if truthy (Resolver.get where_item "not_null") then Some (column +:+ " IS NOT NULL", ∅)
      else if truthy (Resolver.get where_item "valid") then
        Some (column +:+ " IS NOT NULL AND " +:+ column +:+ "::TEXT != ''", ∅)
      else where_bit ← where_bit; Some (where_bit, ∅)
  end.

(** The loop [for where_item in query.where]: the state is
    [sql_dict.get('where')], the variable [where_bit] and [parameters]. *)
Fixpoint where_loop (self : Exporter.t) (where_ : list pyval)
    (field_query_layer : option string)
    (state : option string * option string * gmap string pyval)
    : partial (option string * option string * gmap string pyval) :=
  match where_ with
  | [] => Some (Ok state)
  | where_item :: rest =>
      let '(sql_where, where_bit, parameters) := state in
      pbind (covered (ExtraField.item where_item "field")) (fun reference =>
      pbind (field_of_reference self reference) (fun field =>
        match where_item with
        | PDict entries =>
            match where_bit_of entries (field_column field field_query_layer) where_bit with
            | Some (where_bit, added_parameters) =>
                where_loop self rest field_query_layer
                  (Some (join " AND " (filter_none [sql_where; Some where_bit])),
                   Some where_bit, dict_or parameters added_parameters)
            | None => None
            end
        | _ => None
        end))
  end.

End FinalSql.

(** A comparison of a field with a value, and the dictionary that states it
    in [query.where] or in the filter of a column. *)
Record condition : Type := {
  on : string;
  operator : option string;
  value : pyval
}.

Definition item_of (c : condition) : pyval :=
  PDict (("field", PStr (on c))
           :: match operator c with
              | Some op => [("operator", PStr op)]
              | None => []
              end
           ++ [("value", value c)]).

(** The predicate of a comparison on the column [column], with the named
    placeholder. *)
Definition condition_text (column : string) (c : condition) : string :=
  column +:+ " " +:+ default "=" (operator c) +:+ " %(" +:+ column +:+ ")s".

(** Two comparisons on the same field of the sample schema. *)
Definition amount_range : list condition :=
  [{| on := "amount"; operator := Some ">="; value := PInt 1 |};
   {| on := "amount"; operator := Some "<"; value := PInt 10 |}].

(** A comparison on the city of the sample schema. *)
Definition in_paris : condition :=
  {| on := "city"; operator := Some "="; value := PStr "Paris" |}.

(** * Properties *)

Lemma join_filter_left sep v :
  join sep (filter_none [Some v; None]) = v.
Proof.
  simpl. unfold str_truthy. destruct (String.eqb_spec v ""); simpl; congruence.
Qed.

Lemma join_filter_right sep v :
  join sep (filter_none [None; Some v]) = v.
Proof.
  simpl. unfold str_truthy. destruct (String.eqb_spec v ""); simpl; congruence.
Qed.

Lemma merge_key_value a b merged key sep :
  merge_key a b merged (key, sep) = <[key := joined_values sep a b key]> merged.
Proof.
  unfold merge_key, joined_values.
  destruct (text a !! key) as [v1|], (text b !! key) as [v2|]; try reflexivity.
  - by rewrite join_filter_left.
  - by rewrite join_filter_right.
Qed.

Lemma merged_text_lookup a b key sep :
  (key, sep) ∈ mergers ->
  foldl (merge_key a b) ∅ mergers !! key = Some (joined_values sep a b key).
Proof.
  intros Hin. unfold mergers in *. cbn [foldl]. rewrite !merge_key_value.
  repeat (apply elem_of_cons in Hin as [Heq | Hin];
          [ injection Heq as -> ->; by simplify_map_eq | ]).
  by apply elem_of_nil in Hin.
Qed.

Lemma merge_parameters_lookup a b k :
  merge_parameters a b !! k =
    match parameters_of b !! k with
    | Some v => Some v
    | None => parameters_of a !! k
    end.
Proof.
  unfold merge_parameters, parameters_of, dict_or.
  destruct (parameters a) as [p1|], (parameters b) as [p2|]; simpl.
  - rewrite lookup_union. destruct (p2 !! k), (p1 !! k); reflexivity.
  - rewrite lookup_empty. reflexivity.
  - rewrite lookup_empty. by destruct (p2 !! k).
  - by rewrite lookup_empty.
Qed.

Lemma joined_values_absent sep a b key :
  text a !! key = None -> text b !! key = None -> joined_values sep a b key = "".
Proof. unfold joined_values. by intros -> ->. Qed.

Lemma merge2_clauses a b : clauses_joined a b (merge2 a b).
Proof.
  unfold clauses_joined, merge2; cbn [text].
  repeat split; apply merged_text_lookup; unfold mergers; set_solver.
Qed.

Example test_merge_sql_dicts_select :
  text (merge2 test_dict1 test_dict2) !! "select" = Some "one as one_thing, two as two_thing".
Proof. vm_compute. reflexivity. Qed.

Example test_merge_sql_dicts_from :
  text (merge2 test_dict1 test_dict2) !! "from"
  = Some "test1 as test_table_1 test2 as test_table_2".
Proof. vm_compute. reflexivity. Qed.

Example test_merge_sql_dicts_where :
  text (merge2 test_dict1 test_dict2) !! "where" = Some "thing1 = 1 AND thing2 = 2".
Proof. vm_compute. reflexivity. Qed.

Example test_merge_sql_dicts_having :
  text (merge2 test_dict1 test_dict2) !! "having"
  = Some "count(thing1) = 11 AND count(thing2) = 22".
Proof. vm_compute. reflexivity. Qed.

(** C1. [merge_sql_dicts] is a total function on optional fragments:
    merging [None] with [None] gives [None]; merging a fragment with [None],
    on either side, gives the fragment (an equal copy); and merging two
    fragments gives a fragment in which each of [select], [select_no_table],
    [from], [where], [group_by], [having] is the two operands' non-empty
    values joined with the clause's separator (so the empty string when both
    are absent, as in the merge of two empty fragments), and whose
    parameters are the union of the operands' maps, the second operand
    winning where both bind a key. *)
Theorem merge_sql_dicts_total_and_clausewise :
  merge_sql_dicts None None = None
  ∧ (∀ a, merge_sql_dicts (Some a) None = Some a ∧ merge_sql_dicts None (Some a) = Some a)
  ∧ (∀ a b, ∃ m,
       merge_sql_dicts (Some a) (Some b) = Some m
       ∧ clauses_joined a b m
       ∧ ∃ p, parameters m = Some p
              ∧ ∀ k, p !! k = match parameters_of b !! k with
                              | Some v => Some v
                              | None => parameters_of a !! k
                              end)
  ∧ (∀ key sep, joined_values sep empty_sql_dict empty_sql_dict key = "")
  ∧ (∃ m, merge_sql_dicts (Some empty_sql_dict) (Some empty_sql_dict) = Some m
          ∧ text m = list_to_map [("select", ""); ("select_no_table", ""); ("from", "");
                                  ("where", ""); ("group_by", ""); ("having", "")]
          ∧ parameters m = Some ∅).
Proof.
  split; [reflexivity|]. split; [by intros a|]. split.
  - intros a b. exists (merge2 a b). split; [reflexivity|]. split.
    + apply merge2_clauses.
    + exists (merge_parameters a b). split; [reflexivity|].
      intros k. apply merge_parameters_lookup.
  - split; [reflexivity|].
    eexists. split; [reflexivity|]. split; [|reflexivity].
    apply map_eq. intros k. unfold merge2. cbn [text].
    unfold mergers. cbn [foldl]. rewrite !merge_key_value.
    rewrite !joined_values_absent by apply lookup_empty.
    cbn [list_to_map foldr fst snd uncurry].
    repeat (destruct (decide (k = _)) as [->|]; [by simplify_map_eq|]).
    by simplify_map_eq.
Qed.

(** The rendering at layer [outer] spells the keyword in lower case. *)
Lemma column_outer_keyword_case :
  ExporterField.column orders_amount (Some "outer") = "orders_amount as amount"
  ∧ ExporterField.column orders_amount (Some "outer") ≠ "orders_amount AS amount".
Proof. split; [reflexivity | discriminate]. Qed.

(** C3, as the code has it.  [column] is a function of the field and the
    layer alone.  For a field with physical column [c] in table [t] it
    returns [t.c] at layer [base], [c AS t_c] at layer [inner], [t_c] at
    layer [middle], [t_c as c] (keyword in lower case) at layer [outer], and
    the bare [c] when the layer is [None]. *)
Theorem column_by_layer name kind c field_name related join_only t :
  let f := physical_field name kind c field_name related join_only t in
  ExporterField.column f (Some "base") = t +:+ "." +:+ c
  ∧ ExporterField.column f (Some "inner") = c +:+ " AS " +:+ t +:+ "_" +:+ c
  ∧ ExporterField.column f (Some "middle") = t +:+ "_" +:+ c
  ∧ ExporterField.column f (Some "outer") = t +:+ "_" +:+ c +:+ " as " +:+ c
  ∧ ExporterField.column f None = c.
Proof. repeat split. Qed.

(** A pseudofield renders as its name at every layer. *)
Lemma pseudofield_column p layer :
  field_column (Pseudofield p) layer = ExporterPseudofield.name p.
Proof. reflexivity. Qed.

Lemma app_get_field_length app field :
  length (ExporterApp._get_field app field)
  = length (filter (fun model => has_field (ExporterModel.fields_by_name model) field = true)
                   (ExporterApp.models app)).
Proof.
  unfold ExporterApp._get_field.
  induction (ExporterApp.models app) as [|model models IH]; [reflexivity|].
  cbn [flat_map]. rewrite length_app, IH, filter_cons. unfold has_field.
  destruct (ExporterModel.fields_by_name model !! field) eqn:E.
  - rewrite decide_True; [reflexivity|]. apply bool_decide_eq_true. by eexists.
  - rewrite decide_False; [reflexivity|].
    rewrite bool_decide_eq_true. intros [? ?]. congruence.
Qed.

Lemma rollups_get_field_length rollups field :
  length (flat_map (fun rollup => ExporterRollup._get_field rollup field) rollups)
  = length (filter (fun rollup => has_field (ExporterRollup.fields_by_name rollup) field = true)
                   rollups).
Proof.
  induction rollups as [|rollup rollups IH]; [reflexivity|].
  cbn [flat_map]. rewrite length_app, IH, filter_cons.
  unfold ExporterRollup._get_field, has_field.
  destruct (ExporterRollup.fields_by_name rollup !! field) eqn:E.
  - rewrite decide_True; [reflexivity|]. apply bool_decide_eq_true. by eexists.
  - rewrite decide_False; [reflexivity|].
    rewrite bool_decide_eq_true. intros [? ?]. congruence.
Qed.

Lemma candidates_length self field :
  length (Exporter.candidates self field) = declarations self field.
Proof.
  unfold Exporter.candidates, declarations.
  rewrite !length_app, rollups_get_field_length, Nat.add_assoc. f_equal. f_equal.
  - unfold has_field. destruct (Exporter.fields_by_name self !! field) eqn:E.
    + rewrite bool_decide_eq_true_2; [reflexivity | by eexists].
    + rewrite bool_decide_eq_false_2; [reflexivity|]. intros [? ?]. congruence.
  - induction (Exporter.apps self) as [|app apps IH]; [reflexivity|].
    cbn [flat_map map sum_list]. rewrite length_app, IH, app_get_field_length.
    reflexivity.
Qed.

Lemma candidates_declared self field fo :
  fo ∈ Exporter.candidates self field -> declared_as self field fo.
Proof.
  unfold Exporter.candidates. rewrite !elem_of_app.
  intros [Hown | [Happs | Hrollups]].
  - left. destruct (Exporter.fields_by_name self !! field) as [p|] eqn:E.
    + apply list_elem_of_singleton in Hown. eauto.
    + by apply elem_of_nil in Hown.
  - right; left. apply list_elem_of_In, in_flat_map in Happs as (app & Happ & Hin).
    unfold ExporterApp._get_field in Hin.
    apply in_flat_map in Hin as (model & Hmodel & Hin).
    destruct (ExporterModel.fields_by_name model !! field) as [f|] eqn:E; [|done].
    destruct Hin as [<- | []].
    exists app, model, f. by rewrite <- !list_elem_of_In in *.
  - right; right. apply list_elem_of_In, in_flat_map in Hrollups as (rollup & Hrollup & Hin).
    unfold ExporterRollup._get_field in Hin.
    destruct (ExporterRollup.fields_by_name rollup !! field) as [f|] eqn:E; [|done].
    destruct Hin as [<- | []]. exists rollup. by rewrite <- list_elem_of_In in *.
Qed.

Lemma opt_truthy_some s : s ≠ "" -> opt_truthy (Some s) = true.
Proof.
  intros Hs. unfold opt_truthy, str_truthy.
  destruct (String.eqb_spec s ""); [contradiction | reflexivity].
Qed.

Lemma find_field_unqualified self field :
  field ≠ "" -> count_char dot_char field ≠ 2 ->
  Exporter.find_field self None None (Some field)
  = match Exporter.candidates self field with
    | [field_object] => Ok field_object
    | _ => Raise MLExportWizardFieldNotFound
    end.
Proof.
  intros Hfield Hdots. unfold Exporter.find_field.
  cbn [from_option id]. rewrite (proj2 (Nat.eqb_neq _ _) Hdots), andb_false_r.
  rewrite (opt_truthy_some field Hfield). cbn [opt_truthy andb from_option id].
  by destruct (Exporter.candidates self field) as [|? [|? ?]].
Qed.

Lemma find_field_qualified self app model field :
  app ≠ "" -> model ≠ "" -> field ≠ "" ->
  Exporter.find_field self (Some app) (Some model) (Some field)
  = Exporter.find_qualified self app model field.
Proof.
  intros Happ Hmodel Hfield. unfold Exporter.find_field.
  rewrite (opt_truthy_some field Hfield), (opt_truthy_some app Happ),
    (opt_truthy_some model Hmodel).
  cbn [negb andb from_option id].
  by rewrite (opt_truthy_some field Hfield), (opt_truthy_some app Happ),
    (opt_truthy_some model Hmodel).
Qed.

(** C2. For every exporter: an unqualified name (not empty, not of the
    dotted form [app.model.field]) is resolved only when exactly one place
    among the exporter's pseudofields, its apps' models and its rollups
    declares it, and then to the field declared there; with no declaration,
    or with more than one, the lookup raises [MLExportWizardFieldNotFound].
    A qualified lookup returns the field when app, model and field are all
    found and raises [MLExportWizardFieldNotFound] when a segment is
    missing.  A lookup without a name raises the same error. *)
Theorem find_field_unique_or_not_found (self : Exporter.t) (name app model field : string) :
  name ≠ "" -> count_char dot_char name ≠ 2 ->
  app ≠ "" -> model ≠ "" -> field ≠ "" ->
  find_field_contract self name app model field.
Proof.
  intros Hname Hdots Happ Hmodel Hfield. unfold find_field_contract.
  rewrite find_field_unqualified, find_field_qualified by done.
  split; [|split; [|split; reflexivity]].
  - pose proof (candidates_length self name) as Hlen.
    pose proof (candidates_declared self name) as Hdecl.
    destruct (Exporter.candidates self name) as [|fo [|fo' rest]];
      cbn [length] in Hlen.
    + split; [reflexivity | lia].
    + split; [done|]. apply Hdecl. set_solver.
    + split; [reflexivity | lia].
  - unfold Exporter.find_qualified, qualified_target.
    destruct (Exporter.apps_by_name self !! app) as [a|]; cbn; [|done].
    destruct (ExporterApp.models_by_name a !! model) as [m|]; cbn; [|done].
    destruct (ExporterModel.fields_by_name m !! field) as [f|]; cbn; [|done].
    by exists f.
Qed.

(** In the sample schema [id] is declared by both tables: the bare name is
    refused, the qualified name is found. *)
Lemma find_field_unique_or_not_found_witness :
  find_field_contract Sales "id" "shop" "Order" "id".
Proof.
  apply (find_field_unique_or_not_found Sales "id" "shop" "Order" "id");
    [discriminate | vm_compute; discriminate | discriminate | discriminate | discriminate].
Defined.

Example find_field_ambiguous :
  declarations Sales "id" = 2
  ∧ Exporter.find_field Sales None None (Some "id") = Raise MLExportWizardFieldNotFound.
Proof. split; vm_compute; reflexivity. Qed.

Example find_field_dotted :
  Exporter.find_field Sales None None (Some "shop.Order.amount")
  = Ok (Field (plain_field "amount" "orders")).
Proof. vm_compute. reflexivity. Qed.

(** ** Formulas *)

Lemma _resolve_formula_empty self layer :
  Exporter._resolve_formula self None layer = Ok None
  ∧ Exporter._resolve_formula self (Some "") layer = Ok None.
Proof. split; reflexivity. Qed.

Example _resolve_formula_base :
  Exporter._resolve_formula Formulas (Some ("f(" +:+ quoted "x" +:+ ")")) (Some "base")
  = Ok (Some "f(t.x)").
Proof. vm_compute. reflexivity. Qed.

Example _resolve_formula_middle :
  Exporter._resolve_formula Formulas (Some ("f(" +:+ quoted "x" +:+ ")")) (Some "middle")
  = Ok (Some "f(t_x)").
Proof. vm_compute. reflexivity. Qed.

Example _resolve_formula_bare :
  Exporter._resolve_formula Formulas (Some ("f(" +:+ quoted "x" +:+ ")")) None
  = Ok (Some "f(x)").
Proof. vm_compute. reflexivity. Qed.

Example _resolve_formula_no_tokens :
  Exporter._resolve_formula Formulas (Some "test") None = Ok (Some "test").
Proof. vm_compute. reflexivity. Qed.

Example _resolve_formula_bad_field :
  Exporter._resolve_formula Formulas (Some ("test(" +:+ quoted "bad_field" +:+ ")")) None
  = Raise MLExportWizardFieldNotFound.
Proof. vm_compute. reflexivity. Qed.

Example _resolve_formula_bad_layer :
  Exporter._resolve_formula Formulas (Some ("f(" +:+ quoted "x" +:+ ")")) (Some "bad")
  = Raise ValueError.
Proof. vm_compute. reflexivity. Qed.

Example substitute_in_place_base :
  substitute_in_place base_column_of ("f(" +:+ quoted "x" +:+ ")") None = "f(t.x)".
Proof. vm_compute. reflexivity. Qed.

(** C8, at an input where the code departs from substitution in place.  The formula
    [straddling_formula] has the tokens [x], [y], [y] with the bare text [x]
    between the last two.  Substitution in place gives [t.xt.yxt.y];
    [_resolve_formula] replaces every occurrence of the first token's text,
    also the one made of the closing quote of a token, the bare [x] and the
    opening quote of the next token, and returns a text in which the bare
    [x] is rewritten and the [y] tokens are left unresolved. *)
Theorem _resolve_formula_rewrites_unquoted_text :
  quoted_tokens straddling_formula = [quoted "x"; quoted "y"; quoted "y"]
  ∧ substitute_in_place base_column_of straddling_formula None = "t.xt.yxt.y"
  ∧ Exporter._resolve_formula Formulas (Some straddling_formula) (Some "base")
    = Ok (Some ("t.x" +:+ dquote +:+ "yt.xy" +:+ dquote))
  ∧ Exporter._resolve_formula Formulas (Some straddling_formula) (Some "base")
    ≠ Ok (Some (substitute_in_place base_column_of straddling_formula None)).
Proof. repeat split; vm_compute; (reflexivity || discriminate). Qed.

(** ** The execution lock *)

(** The flag that [is_update_safe] tests is set by no operation of the
    class: the constructor clears it and the cursor writes to the attribute
    [is_executing] instead. *)
Lemma _is_executing_never_set compiled opened executed q :
  ExporterQuery._is_executing (ExporterQuery.cursor q) = ExporterQuery._is_executing q
  ∧ ExporterQuery._is_executing
      (ExporterQuery.Cursor__enter__ compiled opened executed q).2
    = ExporterQuery._is_executing q
  ∧ ExporterQuery._is_executing (ExporterQuery.Cursor__exit__ q)
    = ExporterQuery._is_executing q.
Proof.
  repeat split. unfold ExporterQuery.Cursor__enter__.
  destruct compiled; [destruct opened; [destruct executed|]|]; reflexivity.
Qed.

Lemma apply_update_unlocked u q :
  ExporterQuery._is_executing q = false -> ∃ q', ExporterQuery.apply_update u q = Ok q'.
Proof.
  intros Hq.
  destruct u; cbn; unfold ExporterQuery.set_exporter, ExporterQuery.set_where_before_join,
    ExporterQuery.set_limit, ExporterQuery.set_count, ExporterQuery.set_group_by,
    ExporterQuery.set_where, ExporterQuery.set_extra_field, ExporterQuery.set_order_by,
    ExporterQuery.is_update_safe; rewrite Hq; cbn; eauto.
Qed.

Lemma apply_update_locked u q :
  ExporterQuery._is_executing q = true ->
  ExporterQuery.apply_update u q = Raise MLExportWizardQueryExecuting.
Proof.
  intros Hq.
  destruct u; cbn; unfold ExporterQuery.set_exporter, ExporterQuery.set_where_before_join,
    ExporterQuery.set_limit, ExporterQuery.set_count, ExporterQuery.set_group_by,
    ExporterQuery.set_where, ExporterQuery.set_extra_field, ExporterQuery.set_order_by,
    ExporterQuery.is_update_safe; rewrite Hq; reflexivity.
Qed.

(** C6, on the code as written.  For every new request, once its cursor is
    open (the statement compiled, the database cursor opened and the
    statement executed), the attribute [is_executing]
    is [True] but the flag [_is_executing] that the setters test is still
    [False], and each of the eight guarded updates succeeds instead of
    raising [MLExportWizardQueryExecuting]. *)
Theorem open_cursor_does_not_lock exporter count group_by where_before_join where_
    extra_field order_by limit sql parameters (u : ExporterQuery.update) :
  let query := new_query exporter count group_by where_before_join where_ extra_field
                 order_by limit in
  let entered := ExporterQuery.Cursor__enter__ (Ok (sql, parameters)) (Ok ()) (Ok ())
                   (ExporterQuery.cursor query) in
  entered.1 = Ok ()
  ∧ ExporterQuery.attrs entered.2 !! "is_executing" = Some (PBool true)
  ∧ ExporterQuery._is_executing entered.2 = false
  ∧ (∃ q', ExporterQuery.apply_update u entered.2 = Ok q')
  ∧ ExporterQuery.apply_update u entered.2 ≠ Raise MLExportWizardQueryExecuting.
Proof.
  cbn zeta. split; [reflexivity|]. split; [by simplify_map_eq|]. split; [reflexivity|].
  assert (∃ q', ExporterQuery.apply_update u
            (ExporterQuery.Cursor__enter__ (Ok (sql, parameters)) (Ok ()) (Ok ())
               (ExporterQuery.cursor
                  (new_query exporter count group_by where_before_join where_ extra_field
                     order_by limit))).2 = Ok q') as [q' Hq'].
  { by apply apply_update_unlocked. }
  split; [by exists q' | by rewrite Hq'].
Qed.

(** When [__enter__] raises after the attribute is set (the database
    refuses the statement), [__exit__] does not run and the attribute stays
    [True]. *)
Lemma failed_execute_leaves_attribute exporter count where_before_join sql parameters e :
  let query := new_query exporter count PNone where_before_join PNone PNone PNone PNone in
  let left := ExporterQuery.with_cursor_do (Ok (sql, parameters)) (Ok ()) (Raise e)
                (fun q => (Ok (), q)) query in
  left.1 = Raise e ∧ ExporterQuery.attrs left.2 !! "is_executing" = Some (PBool true).
Proof. cbn zeta. split; [reflexivity | by simplify_map_eq]. Qed.

(** ** Literal extra columns *)

(** C7, on the code as written.  A declaration with a [value] key returns
    before any field is resolved when the value is [None], a string or an
    integer.  For [None] the text is [Null]; for a string [s] the text is the
    fixed text of the source literal, in which the value is not inlined,
    whatever [s] is; for an integer the number itself is returned, not
    text.  In each case the second component is an empty list, which the
    callers cannot unite with their parameter dictionary. *)
Theorem literal_string_is_not_inlined (s : string) (z : Z) (rest : list (string * pyval))
    (parameters : gmap string pyval) :
  ExtraField.literal (("value", PNone) :: rest) = Some (PStr "Null", PList [])
  ∧ ExtraField.literal (("value", PStr s) :: rest) = Some (PStr "'{column['value']}'", PList [])
  ∧ ExtraField.literal (("value", PStr "abc") :: rest) ≠ Some (PStr "'abc'", PList [])
  ∧ ExtraField.literal (("value", PInt z) :: rest) = Some (PInt z, PList [])
  ∧ ExtraField.or_parameters parameters (PList []) = Raise TypeError
  ∧ ExtraField.join_select (Some "a") (PInt 7) = Raise TypeError.
Proof. repeat split; discriminate. Qed.

(** ** Rollup construction *)

(** C9, on the code as written.  When the named inner exporter is not in the
    registry, the constructor fails with [KeyError], the error of the
    dictionary lookup, not with [MLExportWizardExporterNotFound]. *)
Theorem rollup_of_unknown_exporter_raises_KeyError exporters parent name exporter settings
    where_before_join :
  ExporterRollupMethods.__init__ (delete exporter exporters) parent name exporter settings
    where_before_join = Some (Raise KeyError)
  ∧ ExporterRollupMethods.__init__ (delete exporter exporters) parent name exporter settings
      where_before_join ≠ Some (Raise MLExportWizardExporterNotFound).
Proof.
  unfold ExporterRollupMethods.__init__. rewrite lookup_delete_eq.
  split; [reflexivity | discriminate].
Qed.

Example rollup_of_known_exporter :
  ∃ rollup parent,
    ExporterRollupMethods.__init__ {["Sales" := Sales]} Formulas "by_city" "Sales"
      [("group_by", PList [PStr "city"])] None = Some (Ok (rollup, parent))
    ∧ ExporterRollup.fields rollup = [Field (plain_field "city" "customers")]
    ∧ Exporter.rollups parent = [rollup].
Proof. eexists _, _. vm_compute. repeat split. Qed.

(** ** Predicates with a falsy value *)

Lemma _resolve_where_falsy operator field value layer :
  truthy operator = false ∨ field = None ∨ truthy value = false ->
  _resolve_where operator field value layer = (None, None).
Proof.
  unfold _resolve_where. intros [H | [-> | H]]; [|reflexivity|];
    destruct field; try reflexivity; rewrite H; [reflexivity|].
  by rewrite orb_true_r.
Qed.

(** The filter block of an extra column leaves the select text and the
    parameters as they are when the filter's value is falsy. *)
Lemma filter_block_omits_falsy_value select_bit parameters layer :
  ExtraField.filter_block Sales (filtered_count (PInt 0)) layer select_bit parameters
  = Ok (select_bit, parameters)
  ∧ ExtraField.filter_block Sales (filtered_count (PStr "")) layer select_bit parameters
    = Ok (select_bit, parameters).
Proof. split; reflexivity. Qed.

Lemma where_before_join_loop_falsy self name f value operator rest where_bit sql_dict :
  ExporterModel.fields_by_name self !! name = Some f ->
  truthy value = false ->
  ExporterModel.where_before_join_loop self ((PStr name, value, operator) :: rest)
    where_bit sql_dict = Raise TypeError.
Proof.
  intros Hf Hv.
  cbn [ExporterModel.where_before_join_loop ExporterModel.field_by_name].
  rewrite Hf. cbn [mbind result_bind].
  rewrite _resolve_where_falsy by auto. reflexivity.
Qed.

(** C10, at an input where a falsy value is not silently omitted.
    [_resolve_where] does return [(None, None)] for the values [0] and the
    empty string, and the filter of an extra column is then omitted; but a
    pre-join filter with such a value is not omitted: the compile of the
    group raises [TypeError] where the parameters are united with [None].
    With the value [5] the same request compiles to a derived table. *)
Theorem pre_join_filter_with_falsy_value_raises st :
  _resolve_where (PStr "=") (Some (Field (plain_field "amount" "orders"))) (PInt 0) None
  = (None, None)
  ∧ _resolve_where (PStr "=") (Some (Field (plain_field "amount" "orders"))) (PStr "") None
    = (None, None)
  ∧ ExporterApp._sql_dict shop (amount_filter (PInt 0)) None st
    = Some (Raise TypeError, ExporterApp.fresh_state)
  ∧ ExporterApp._sql_dict shop (amount_filter (PStr "")) None st
    = Some (Raise TypeError, ExporterApp.fresh_state)
  ∧ ∃ sql_dict st',
      ExporterApp._sql_dict shop (amount_filter (PInt 5)) None st = Some (Ok sql_dict, st')
      ∧ text sql_dict !! "from"
        = Some (" (SELECT * FROM orders WHERE amount=%(amount)s) AS orders "
                +:+ "LEFT JOIN customers ON customers.customer_id = orders.customer_id").
Proof.
  split; [reflexivity|]. split; [reflexivity|].
  split; [vm_compute; reflexivity|]. split; [vm_compute; reflexivity|].
  eexists _, _. split; [vm_compute; reflexivity | vm_compute; reflexivity].
Qed.

(** ** The join traversal *)

Lemma append_cons x (a b : string) : String x a +:+ b = String x (a +:+ b).
Proof. reflexivity. Qed.

Lemma append_nil_l (b : string) : "" +:+ b = b.
Proof. reflexivity. Qed.

Lemma append_nil_r (a : string) : a +:+ "" = a.
Proof. induction a as [|x a IH]; [reflexivity | by rewrite append_cons, IH]. Qed.

Lemma append_assoc (a b c : string) : (a +:+ b) +:+ c = a +:+ b +:+ c.
Proof.
  induction a as [|x a IH]; [reflexivity | by rewrite !append_cons, IH].
Qed.

Lemma str_truthy_append a b : str_truthy a = true -> str_truthy (a +:+ b) = true.
Proof. by destruct a. Qed.

Lemma str_truthy_false s : str_truthy s = false -> s = "".
Proof. unfold str_truthy. by destruct (String.eqb_spec s ""). Qed.

(** Joining is associative on possibly absent, possibly empty values. *)
Lemma join_filter_assoc sep (x y z : option string) :
  join sep (filter_none [Some (join sep (filter_none [x; y])); z])
  = join sep (filter_none [x; Some (join sep (filter_none [y; z]))]).
Proof.
  destruct x as [x|], y as [y|], z as [z|]; cbn [filter_none];
    repeat match goal with
           | |- context [str_truthy ?s] =>
               lazymatch s with
               | _ +:+ _ => fail
               | _ =>
                   let E := fresh "E" in
                   destruct (str_truthy s) eqn:E;
                   [| apply str_truthy_false in E; subst s]
               end
           end;
    cbn [join filter_none];
    rewrite ?str_truthy_append by done;
    repeat match goal with
           | H : str_truthy ?s = _ |- _ => rewrite ?H; clear H
           end;
    cbn [join filter_none str_truthy String.eqb negb];
    rewrite ?append_assoc; try reflexivity.
Qed.

Lemma merged_text_lookup_other a b key :
  key ∉ clause_keys -> text (merge2 a b) !! key = None.
Proof.
  intros Hkey. unfold merge2. cbn [text]. unfold mergers. cbn [foldl].
  rewrite !merge_key_value.
  unfold clause_keys, mergers in Hkey. cbn in Hkey.
  rewrite !lookup_insert_ne by set_solver. apply lookup_empty.
Qed.

Lemma merge2_text_lookup a b key sep :
  (key, sep) ∈ mergers -> text (merge2 a b) !! key = Some (joined_values sep a b key).
Proof. apply merged_text_lookup. Qed.

Lemma merged_text_lookup_key a b key :
  key ∈ clause_keys ->
  ∃ sep, (key, sep) ∈ mergers
         ∧ text (merge2 a b) !! key = Some (joined_values sep a b key).
Proof.
  intros Hkey. unfold clause_keys in Hkey. apply elem_of_list_to_set in Hkey.
  apply list_elem_of_fmap in Hkey as ([key' sep] & -> & Hin).
  exists sep. split; [done|]. by apply merge2_text_lookup.
Qed.

Lemma merge_parameters_union a b :
  merge_parameters a b = dict_or (parameters_of a) (parameters_of b).
Proof.
  unfold merge_parameters, parameters_of, dict_or.
  destruct (parameters a), (parameters b); cbn;
    by rewrite ?(left_id_L ∅ (∪)), ?(right_id_L ∅ (∪)).
Qed.

(** The two halves of the associativity of the merge. *)
Lemma merge2_text_assoc a b c :
  text (merge2 (merge2 a b) c) = text (merge2 a (merge2 b c)).
Proof.
  apply map_eq. intros key. destruct (decide (key ∈ clause_keys)) as [Hkey|Hkey].
  - destruct (merged_text_lookup_key (merge2 a b) c key Hkey) as (sep & Hsep & ->).
    rewrite (merge2_text_lookup a (merge2 b c) key sep Hsep).
    f_equal. unfold joined_values.
    rewrite (merge2_text_lookup a b key sep Hsep),
      (merge2_text_lookup b c key sep Hsep).
    unfold joined_values. apply join_filter_assoc.
  - by rewrite !merged_text_lookup_other.
Qed.

Lemma merge2_parameters_assoc a b c :
  parameters (merge2 (merge2 a b) c) = parameters (merge2 a (merge2 b c)).
Proof.
  cbn [merge2 parameters]. f_equal. rewrite !merge_parameters_union.
  unfold parameters_of at 1 4. cbn [merge2 parameters from_option id].
  rewrite !merge_parameters_union. unfold dict_or. by rewrite (assoc_L (∪)).
Qed.

(** Merging with a fragment that is itself a merge of fragments is merging
    with the fragments one after the other. *)
Lemma merge2_foldl a b cs :
  merge2 a (foldl merge2 b cs) = foldl merge2 (merge2 a b) cs.
Proof.
  revert b. induction cs as [|c cs IH]; intros b; [done|]. cbn [foldl]. rewrite IH.
  f_equal. pose proof (merge2_text_assoc a b c) as Htext.
  pose proof (merge2_parameters_assoc a b c) as Hparameters.
  destruct (merge2 (merge2 a b) c), (merge2 a (merge2 b c)). cbn in *. congruence.
Qed.

Lemma size_list_to_set_le (l : list string) : size (list_to_set l : gset string) ≤ length l.
Proof.
  induction l as [|x l IH]; cbn [list_to_set length].
  - by rewrite size_empty.
  - rewrite size_union_alt, size_singleton.
    pose proof (subseteq_size (list_to_set l ∖ {[x]}) (list_to_set l : gset string)) as Hle.
    assert (size (list_to_set l ∖ {[x]} : gset string) ≤ size (list_to_set l : gset string)).
    { apply Hle. set_solver. }
    lia.
Qed.

Lemma registered_names_size models_by_name :
  size (registered_names models_by_name) ≤ size models_by_name.
Proof.
  unfold registered_names.
  etrans; [apply size_list_to_set_le|]. by rewrite length_map, length_map_to_list.
Qed.

Lemma registered_lookup (models_by_name : gmap string ExporterModel.t) key model :
  models_by_name !! key = Some model ->
  ExporterModel.name model ∈ registered_names models_by_name.
Proof.
  intros Hm. unfold registered_names. apply elem_of_list_to_set, list_elem_of_fmap.
  exists (key, model). split; [reflexivity|]. by apply elem_of_map_to_list.
Qed.

Lemma join_target_registered models_by_name field join_model :
  ExporterModel.join_target models_by_name field = Some join_model ->
  ExporterModel.name join_model ∈ registered_names models_by_name.
Proof.
  unfold ExporterModel.join_target. case_bool_decide; [|done].
  destruct (related_model (ExporterField.field field)) as [related|]; [|done].
  cbn. apply registered_lookup.
Qed.

Lemma remaining_mono models_by_name st st' :
  prepped_models st ⊆ prepped_models st' ->
  remaining models_by_name st' ≤ remaining models_by_name st.
Proof. intros Hsub. apply subseteq_size. set_solver. Qed.

Lemma consistent_fresh : consistent ExporterApp.fresh_state.
Proof. split; [constructor | set_solver]. Qed.

Lemma note_prepped_consistent self sql_dict st :
  ExporterModel.name self ∉ prepped_models st -> consistent st ->
  consistent (ExporterModel.note_prepped self (ExporterModel.emit self sql_dict st)).
Proof.
  intros Hnew [Hnodup Hiff]. split; cbn.
  - apply NoDup_app. split; [done|]. split; [|apply NoDup_singleton].
    intros x Hx Hx'. apply list_elem_of_singleton in Hx' as ->. by apply Hnew, Hiff.
  - intros x. rewrite elem_of_union, elem_of_singleton, elem_of_app, list_elem_of_singleton.
    rewrite Hiff. tauto.
Qed.

Lemma note_prepped_remaining models_by_name self sql_dict st :
  ExporterModel.name self ∈ registered_names models_by_name ->
  ExporterModel.name self ∉ prepped_models st ->
  S (remaining models_by_name
       (ExporterModel.note_prepped self (ExporterModel.emit self sql_dict st)))
  = remaining models_by_name st.
Proof.
  intros Hreg Hnew. unfold remaining, ExporterModel.note_prepped, ExporterModel.emit;
    cbn [prepped_models].
  replace (registered_names models_by_name ∖ prepped_models st)
    with ({[ExporterModel.name self]}
            ∪ (registered_names models_by_name
                 ∖ ({[ExporterModel.name self]} ∪ prepped_models st))).
  - pose proof (size_union (C := gset string)) as Hsize.
    rewrite Hsize by set_solver. by rewrite size_singleton.
  - apply set_eq. intros x. rewrite !elem_of_union, !elem_of_difference, elem_of_union,
      elem_of_singleton.
    destruct (decide (x = ExporterModel.name self)) as [->|]; tauto.
Qed.

Lemma join_related_runs models_by_name self fuel rec :
  (∀ join_model join_using st,
      ExporterModel.name join_model ∈ registered_names models_by_name ->
      ExporterModel.name join_model ∉ prepped_models st ->
      consistent st -> remaining models_by_name st ≤ fuel ->
      run_ok st (rec join_model join_using st)) ->
  ∀ fields sql_dict st,
    consistent st -> remaining models_by_name st ≤ fuel ->
    run_ok st (ExporterModel.join_related rec models_by_name self fields sql_dict st).
Proof.
  intros Hrec fields. induction fields as [|field rest IH]; intros sql_dict st Hst Hfuel.
  - exists (Ok sql_dict), st. done.
  - cbn [ExporterModel.join_related].
    destruct (ExporterModel.join_target models_by_name field) as [join_model|] eqn:Htarget;
      [|by apply IH].
    destruct (ExporterModel.skipped self join_model st) eqn:Hskip; [by apply IH|].
    unfold ExporterModel.skipped in Hskip. apply orb_false_iff in Hskip as [Hnew _].
    apply bool_decide_eq_false in Hnew.
    destruct (Hrec join_model (Some (ExporterField.column field None)) st)
      as (outcome & st1 & -> & Hst1 & Hsub); [by eapply join_target_registered|done..|].
    destruct outcome as [joined_dict|e].
    + destruct (IH (merge2 sql_dict joined_dict) st1) as (outcome & st2 & -> & Hst2 & Hsub2).
      * done.
      * pose proof (remaining_mono models_by_name st st1 Hsub). lia.
      * exists outcome, st2. split; [done|]. split; [done|]. set_solver.
    + by exists (Raise e), st1.
Qed.

Lemma _sql_dict_runs models_by_name where_before_join query_layer fuel :
  ∀ self table_name left_join join_model join_using st,
    ExporterModel.name self ∈ registered_names models_by_name ->
    ExporterModel.name self ∉ prepped_models st ->
    consistent st -> remaining models_by_name st ≤ fuel ->
    run_ok st (ExporterModel._sql_dict fuel models_by_name self table_name left_join
                 join_model join_using where_before_join query_layer st).
Proof.
  induction fuel as [|fuel IH]; intros self table_name left_join join_model join_using st
    Hreg Hnew Hst Hfuel.
  - pose proof (note_prepped_remaining models_by_name self empty_sql_dict st Hreg Hnew). lia.
  - cbn [ExporterModel._sql_dict].
    destruct (ExporterModel.own_sql_dict self table_name left_join join_model join_using
                where_before_join query_layer) as [sql_dict|e].
    + pose proof (note_prepped_remaining models_by_name self sql_dict st Hreg Hnew) as Hrem.
      cbn zeta.
      destruct (join_related_runs models_by_name self fuel
                  (fun join_model join_using st =>
                     ExporterModel._sql_dict fuel models_by_name join_model None true
                       (Some self) join_using where_before_join query_layer st)
                  (fun jm ju st' => IH jm None true (Some self) ju st')
                  (ExporterModel.fields self) sql_dict
                  (ExporterModel.note_prepped self (ExporterModel.emit self sql_dict st)))
        as (outcome & st' & -> & Hst' & Hsub).
      * by apply note_prepped_consistent.
      * lia.
      * exists outcome, st'. split; [done|]. split; [done|]. cbn in Hsub. set_solver.
    + by exists (Raise e), st.
Qed.

Lemma app_sql_dict_runs self where_before_join query_layer st :
  run_ok ExporterApp.fresh_state (ExporterApp._sql_dict self where_before_join query_layer st).
Proof.
  unfold ExporterApp._sql_dict.
  destruct (opt_truthy (ExporterApp.primary_model self));
    [|exists (Raise ImproperlyConfigured), ExporterApp.fresh_state;
      by split; [|split; [apply consistent_fresh|]]].
  destruct (ExporterApp.models_by_name self !! default "" (ExporterApp.primary_model self))
    as [model|] eqn:Hmodel;
    [|exists (Raise KeyError), ExporterApp.fresh_state;
      by split; [|split; [apply consistent_fresh|]]].
  apply _sql_dict_runs.
  - by eapply registered_lookup.
  - set_solver.
  - apply consistent_fresh.
  - unfold remaining. etrans; [apply subseteq_size|].
    + apply subseteq_difference_l. reflexivity.
    + pose proof (registered_names_size (ExporterApp.models_by_name self)). lia.
Qed.

Lemma join_related_skips rec models_by_name self field rest sql_dict st join_model :
  ExporterModel.join_target models_by_name field = Some join_model ->
  ExporterModel.name join_model ∈ prepped_models st
  ∨ (∃ names, ExporterModel.dont_link_to self = Some names
              ∧ ExporterModel.name join_model ∈ names)
  ∨ (∃ names, ExporterModel.dont_link_to join_model = Some names
              ∧ ExporterModel.name self ∈ names) ->
  ExporterModel.join_related rec models_by_name self (field :: rest) sql_dict st
  = ExporterModel.join_related rec models_by_name self rest sql_dict st.
Proof.
  intros Htarget Hskip. cbn [ExporterModel.join_related]. rewrite Htarget.
  replace (ExporterModel.skipped self join_model st) with true; [reflexivity|].
  symmetry. unfold ExporterModel.skipped, ExporterModel.dont_link.
  destruct Hskip as [Hin | [(names & -> & Hin) | (names & -> & Hin)]].
  - by rewrite bool_decide_eq_true_2.
  - rewrite (bool_decide_eq_true_2 _ Hin). by rewrite orb_true_r.
  - rewrite (bool_decide_eq_true_2 _ Hin). by rewrite !orb_true_r.
Qed.

(** *** What was emitted is what was merged *)

Lemma join_target_value models_by_name field join_model :
  ExporterModel.join_target models_by_name field = Some join_model ->
  ∃ key, models_by_name !! key = Some join_model.
Proof.
  unfold ExporterModel.join_target. case_bool_decide; [|done].
  destruct (related_model (ExporterField.field field)) as [related|]; [|done].
  cbn. by exists related.
Qed.

(** The loop over the relationship fields: the fragment it returns is the
    fragment it was given merged with the fragments emitted meanwhile. *)
Lemma join_related_trace models_by_name where_before_join query_layer self rec :
  (∀ join_model join_using st outcome st',
      (∃ key, models_by_name !! key = Some join_model) ->
      rec join_model join_using st = Some (outcome, st') ->
      traced models_by_name where_before_join query_layer st ->
      traced models_by_name where_before_join query_layer st'
      ∧ ∃ new, fragments st' = fragments st ++ new
               ∧ ∀ joined_dict, outcome = Ok joined_dict -> merged new = Some joined_dict) ->
  ∀ fields sql_dict st outcome st',
    ExporterModel.join_related rec models_by_name self fields sql_dict st
    = Some (outcome, st') ->
    traced models_by_name where_before_join query_layer st ->
    traced models_by_name where_before_join query_layer st'
    ∧ ∃ new, fragments st' = fragments st ++ new
             ∧ ∀ result, outcome = Ok result -> result = foldl merge2 sql_dict new.
Proof.
  intros Hrec fields.
  induction fields as [|field rest IH]; intros sql_dict st outcome st' Hrun Hst.
  - cbn [ExporterModel.join_related] in Hrun. injection Hrun as <- <-.
    split; [done|]. exists []. split; [by rewrite app_nil_r|]. by intros result [= <-].
  - cbn [ExporterModel.join_related] in Hrun.
    destruct (ExporterModel.join_target models_by_name field) as [join_model|] eqn:Htarget;
      [|by eapply IH].
    destruct (ExporterModel.skipped self join_model st); [by eapply IH|].
    destruct (rec join_model (Some (ExporterField.column field None)) st)
      as [[[joined_dict|e] st1]|] eqn:Hcall; [| |done].
    + destruct (Hrec _ _ _ _ _ (join_target_value _ _ _ Htarget) Hcall Hst)
        as (Hst1 & new1 & Hnew1 & Hmerged).
      destruct (IH _ _ _ _ Hrun Hst1) as (Hst' & new2 & Hnew2 & Hresult).
      split; [done|]. exists (new1 ++ new2).
      split; [by rewrite Hnew2, Hnew1, app_assoc|].
      intros result Houtcome. rewrite (Hresult result Houtcome).
      specialize (Hmerged joined_dict eq_refl).
      destruct new1 as [|first new1]; [done|]. cbn [merged] in Hmerged.
      injection Hmerged as <-. cbn [app foldl]. by rewrite foldl_app, merge2_foldl.
    + injection Hrun as <- <-.
      destruct (Hrec _ _ _ _ _ (join_target_value _ _ _ Htarget) Hcall Hst)
        as (Hst1 & new1 & Hnew1 & _).
      split; [done|]. exists new1. split; [done|]. by intros result [=].
Qed.

(** A call for a model: the fragments it emits start with the model's own,
    and the fragment it returns is their merge. *)
Lemma _sql_dict_trace models_by_name where_before_join query_layer fuel :
  ∀ self table_name left_join join_model join_using st outcome st',
    (∃ key, models_by_name !! key = Some self) ->
    ExporterModel._sql_dict fuel models_by_name self table_name left_join join_model
      join_using where_before_join query_layer st = Some (outcome, st') ->
    traced models_by_name where_before_join query_layer st ->
    traced models_by_name where_before_join query_layer st'
    ∧ ∃ new, fragments st' = fragments st ++ new
             ∧ ∀ sql_dict, outcome = Ok sql_dict -> merged new = Some sql_dict.
Proof.
  induction fuel as [|fuel IH];
    intros self table_name left_join join_model join_using st outcome st' Hself Hrun Hst;
    [done|].
  cbn [ExporterModel._sql_dict] in Hrun.
  destruct (ExporterModel.own_sql_dict self table_name left_join join_model join_using
              where_before_join query_layer) as [own|e] eqn:Hown.
  - cbn zeta in Hrun.
    destruct (join_related_trace models_by_name where_before_join query_layer self
                (fun join_model join_using st =>
                   ExporterModel._sql_dict fuel models_by_name join_model None true
                     (Some self) join_using where_before_join query_layer st)
                (fun jm ju st0 outcome0 st0' Hjm => IH jm None true (Some self) ju st0
                                                      outcome0 st0' Hjm)
                _ _ _ _ _ Hrun) as (Hst' & new & Hnew & Hresult).
    + unfold traced. cbn [joined fragments ExporterModel.note_prepped ExporterModel.emit].
      apply Forall2_app; [exact Hst|]. constructor; [|constructor].
      destruct Hself as [key Hkey].
      by exists key, self, table_name, left_join, join_model, join_using.
    + split; [done|]. exists (own :: new). split.
      * rewrite Hnew. cbn [fragments ExporterModel.note_prepped ExporterModel.emit].
        by rewrite <- app_assoc.
      * intros sql_dict Houtcome. cbn [merged]. by rewrite (Hresult sql_dict Houtcome).
  - injection Hrun as <- <-. split; [done|]. exists []. split; [by rewrite app_nil_r|].
    by intros sql_dict [=].
Qed.

Lemma app_sql_dict_trace self where_before_join query_layer st outcome st' :
  ExporterApp._sql_dict self where_before_join query_layer st = Some (outcome, st') ->
  traced (ExporterApp.models_by_name self) where_before_join query_layer st'
  ∧ ∀ sql_dict, outcome = Ok sql_dict -> merged (fragments st') = Some sql_dict.
Proof.
  unfold ExporterApp._sql_dict.
  destruct (opt_truthy (ExporterApp.primary_model self));
    [|intros [= <- <-]; split; [constructor | by intros sql_dict [=]]].
  destruct (ExporterApp.models_by_name self !! default "" (ExporterApp.primary_model self))
    as [model|] eqn:Hmodel;
    [|intros [= <- <-]; split; [constructor | by intros sql_dict [=]]].
  intros Hrun.
  destruct (_sql_dict_trace _ _ _ _ _ _ _ _ _ _ _ _ (ex_intro _ _ Hmodel) Hrun)
    as (Hst' & new & Hnew & Hmerged); [constructor|].
  cbn [fragments ExporterApp.fresh_state app] in Hnew. rewrite Hnew. done.
Qed.

(** C5. One compile pass of a dataset group, [ExporterApp._sql_dict]:
    the pass does not depend on the set of prepped models it finds (the set
    is reset at the start); the pass ends, and at its end the record of the
    models whose fragment was emitted has no duplicate, so every model was
    joined at most once, and the set holds exactly the models in that
    record: a model is in the set if and only if its fragment was emitted.
    The record is of the fragments that make the result: each recorded
    fragment is the own fragment of the registered model recorded with it,
    and the fragment the pass returns is the merge of the recorded
    fragments in their order.  The join step skips a relationship field
    whose target model is already in the set, or is named by this model's
    [dont_link_to], or names this model in its own [dont_link_to]. *)
Theorem each_model_joined_at_most_once (self : ExporterApp.t)
    (where_before_join : where_before_join_view) (query_layer : option string)
    (st : compile_state) :
  ExporterApp._sql_dict self where_before_join query_layer st
  = ExporterApp._sql_dict self where_before_join query_layer ExporterApp.fresh_state
  ∧ (∃ outcome st',
       ExporterApp._sql_dict self where_before_join query_layer st = Some (outcome, st')
       ∧ NoDup (joined st')
       ∧ (∀ name, name ∈ prepped_models st' ↔ name ∈ joined st')
       ∧ Forall2 (own_fragment (ExporterApp.models_by_name self) where_before_join
                    query_layer)
                 (joined st') (fragments st')
       ∧ ∀ sql_dict, outcome = Ok sql_dict -> merged (fragments st') = Some sql_dict)
  ∧ (∀ rec model field rest sql_dict st join_model,
       ExporterModel.join_target (ExporterApp.models_by_name self) field = Some join_model ->
       ExporterModel.name join_model ∈ prepped_models st
       ∨ (∃ names, ExporterModel.dont_link_to model = Some names
                   ∧ ExporterModel.name join_model ∈ names)
       ∨ (∃ names, ExporterModel.dont_link_to join_model = Some names
                   ∧ ExporterModel.name model ∈ names) ->
       ExporterModel.join_related rec (ExporterApp.models_by_name self) model (field :: rest)
         sql_dict st
       = ExporterModel.join_related rec (ExporterApp.models_by_name self) model rest
           sql_dict st).
Proof.
  split; [reflexivity|]. split.
  - destruct (app_sql_dict_runs self where_before_join query_layer st)
      as (outcome & st' & Hrun & [Hnodup Hiff] & _).
    destruct (app_sql_dict_trace self where_before_join query_layer st outcome st' Hrun)
      as [Htraced Hmerged].
    by exists outcome, st'.
  - intros rec model field rest sql_dict st0 join_model. apply join_related_skips.
Qed.

(** In a group whose two models point at each other and at themselves, the
    pass ends with each model joined once. *)
Example cyclic_group_joined_once :
  ∃ sql_dict st',
    ExporterApp._sql_dict cyclic None None ExporterApp.fresh_state = Some (Ok sql_dict, st')
    ∧ joined st' = ["A"; "B"]
    ∧ prepped_models st' = {["A"; "B"]}
    ∧ length (fragments st') = 2
    ∧ text sql_dict !! "from" = Some "A LEFT JOIN B ON B.other_id = A.other_id".
Proof. eexists _, _. repeat split; vm_compute; reflexivity. Qed.

(** ** The rollup's request *)

Section HeapFacts.
Import Heap.
Implicit Types (h : gmap loc obj) (l d : loc).

Lemma assoc_get_None {V} (entries : list (string * V)) key :
  assoc_get entries key = None <-> key ∉ entries.*1.
Proof.
  induction entries as [|[k v] entries IH]; cbn.
  - split; [intros _; apply not_elem_of_nil | done].
  - destruct (String.eqb_spec k key) as [->|Hne].
    + split; [done|]. intros Hnot. exfalso. apply Hnot. left.
    + rewrite IH, not_elem_of_cons. naive_solver.
Qed.

Lemma assoc_get_elem_of {V} (entries : list (string * V)) key v :
  assoc_get entries key = Some v -> (key, v) ∈ entries.
Proof.
  induction entries as [|[k v'] entries IH]; cbn; [done|].
  destruct (String.eqb_spec k key) as [->|Hne].
  - intros [= ->]. left.
  - intros H. right. by apply IH.
Qed.

Lemma assoc_get_app_new {V} (entries : list (string * V)) key v key' :
  assoc_get entries key = None ->
  assoc_get (entries ++ [(key, v)]) key'
  = if decide (key' = key) then Some v else assoc_get entries key'.
Proof.
  intros Hnone. induction entries as [|[k w] entries IH]; cbn in *.
  - destruct (String.eqb_spec key key') as [->|Hne].
    + by rewrite decide_True.
    + by rewrite decide_False.
  - destruct (String.eqb_spec k key) as [->|Hne]; [done|].
    destruct (String.eqb_spec k key') as [->|Hne'].
    + by rewrite decide_False.
    + by apply IH.
Qed.

Lemma alloc_fresh h o h' l :
  alloc h o = (h', l) -> (l ∉ dom h) ∧ h' = <[l := o]> h.
Proof. unfold alloc. intros [= <- <-]. split; [apply is_fresh | done]. Qed.

Lemma read_list_is_Some h l :
  is_Some (read_list h l) <-> ∃ items, h !! l = Some (OList items).
Proof.
  unfold read_list. split.
  - intros [items H]. destruct (h !! l) as [[]|]; naive_solver.
  - intros [items ->]. by eexists.
Qed.

Lemma read_list_insert_query h l q l' :
  is_Some (read_query h l) -> read_list (<[l := OQuery q]> h) l' = read_list h l'.
Proof.
  unfold read_query, read_list. intros [q0 Hq].
  destruct (decide (l = l')) as [->|Hne].
  - rewrite lookup_insert_eq. by destruct (h !! l') as [[]|].
  - by rewrite lookup_insert_ne.
Qed.

Lemma read_dict_insert_query h l q d :
  is_Some (read_query h l) -> read_dict (<[l := OQuery q]> h) d = read_dict h d.
Proof.
  unfold read_query, read_dict. intros [q0 Hq].
  destruct (decide (l = d)) as [->|Hne].
  - rewrite lookup_insert_eq. by destruct (h !! d) as [[]|].
  - by rewrite lookup_insert_ne.
Qed.

Lemma filters_of_insert_query h l q (ref : option loc) table_name :
  is_Some (read_query h l) ->
  filters_of (<[l := OQuery q]> h) ref table_name = filters_of h ref table_name.
Proof.
  intros Hq. unfold filters_of. destruct ref as [d|]; [|done]. cbn.
  rewrite read_dict_insert_query by done.
  destruct (read_dict h d) as [entries|]; [|done]. cbn.
  destruct (assoc_get entries table_name) as [l'|]; [|done]. cbn.
  by apply read_list_insert_query.
Qed.

Lemma well_formed_dict_inv h d :
  well_formed_dict h d ->
  ∃ entries, read_dict h d = Some entries
             ∧ NoDup entries.*1
             ∧ ∀ k l0, (k, l0) ∈ entries -> is_Some (read_list h l0).
Proof.
  unfold well_formed_dict. destruct (read_dict h d) as [entries|]; [|done].
  intros [Hkeys Hlists]. exists entries. split; [done|]. split; [done|].
  intros k l0 Hin. by apply (proj1 (Forall_forall _ _) Hlists (k, l0)).
Qed.

(** Reading through a dictionary that lies in the part of the heap which
    [h'] shares with [h]. *)
Lemma filters_of_agree h h' (ref : option loc) table_name :
  (∀ l, l ∈ dom h -> h' !! l = h !! l) ->
  well_formed_reference h ref ->
  filters_of h' ref table_name = filters_of h ref table_name.
Proof.
  intros Hagree Hwf. unfold filters_of. destruct ref as [d|]; [|done]. cbn.
  apply well_formed_dict_inv in Hwf as (entries & Hd & _ & Hlists).
  assert (d ∈ dom h) as Hdom.
  { unfold read_dict in Hd. apply elem_of_dom. destruct (h !! d); naive_solver. }
  unfold read_dict in *. rewrite (Hagree d Hdom).
  destruct (h !! d) as [[| entries0 |]|]; try done. injection Hd as ->. cbn.
  destruct (assoc_get entries table_name) as [l|] eqn:Hget; [|done]. cbn.
  apply assoc_get_elem_of, Hlists, read_list_is_Some in Hget as [items Hl].
  unfold read_list. rewrite Hagree; [done|]. apply elem_of_dom. by eexists.
Qed.
End HeapFacts.

Section Deepcopy.
Import Heap ExporterRollupMethods.
Implicit Types (h : gmap loc obj) (l d : loc).

(** [through h entries key]: the list found under [key], read in [h]. *)
Local Abbreviation through h entries key := (assoc_get entries key ≫= read_list h).

Lemma agree_dom h0 h l :
  (∀ l, l ∈ dom h0 -> h !! l = h0 !! l) -> l ∈ dom h0 -> l ∈ dom h.
Proof.
  intros Hagree Hl. apply elem_of_dom. rewrite (Hagree l Hl). by apply elem_of_dom.
Qed.

Lemma copy_entries_unshared h0 :
  ∀ entries h memo,
    (∀ l, l ∈ dom h0 -> h !! l = h0 !! l) ->
    NoDup entries.*2 ->
    (∀ l, l ∈ entries.*2 -> memo !! l = None) ->
    (∀ k l, (k, l) ∈ entries -> is_Some (read_list h0 l)) ->
    ∃ h' memo' entries',
      copy_entries h memo entries = Some (h', memo', entries')
      ∧ (∀ l, l ∈ dom h -> h' !! l = h !! l)
      ∧ entries'.*1 = entries.*1
      ∧ NoDup entries'.*2
      ∧ (∀ l', l' ∈ entries'.*2 -> (l' ∉ dom h) ∧ is_Some (read_list h' l'))
      ∧ (∀ key, through h' entries' key = through h0 entries key).
Proof.
  induction entries as [|[k l] entries IH]; intros h memo Hagree Hnodup Hmemo Hlists.
  - exists h, memo, []. split; [done|]. split; [done|]. split; [done|].
    split; [constructor|]. split; [|done].
    intros l' Hin. by apply elem_of_nil in Hin.
  - cbn [copy_entries]. apply NoDup_cons in Hnodup as [Hl Hnodup].
    destruct (Hlists k l) as [items Hitems]; [left|].
    assert (h0 !! l = Some (OList items)) as Hl0.
    { unfold read_list in Hitems. destruct (h0 !! l) as [[]|]; naive_solver. }
    assert (h !! l = Some (OList items)) as Hlh.
    { rewrite Hagree; [done|]. apply elem_of_dom. by eexists. }
    unfold copy_list. rewrite (Hmemo l) by left. rewrite Hlh. cbn.
    set (l1 := fresh (dom h)). assert (l1 ∉ dom h) as Hfresh by apply is_fresh.
    destruct (IH (<[l1 := OList items]> h) (<[l := l1]> memo))
      as (h' & memo' & entries' & -> & Hext & Hkeys & Hnodup' & Hnew & Hthrough).
    + intros x Hx. rewrite lookup_insert_ne; [by apply Hagree|].
      intros ->. apply Hfresh. by eapply agree_dom.
    + done.
    + intros x Hx. rewrite lookup_insert_ne; [apply Hmemo; by right|].
      intros ->. by apply Hl.
    + intros k' l' Hin. apply (Hlists k' l'). by right.
    + cbn. exists h', memo', ((k, l1) :: entries').
      assert (h' !! l1 = Some (OList items)) as Hl1.
      { rewrite Hext; [apply lookup_insert_eq|]. apply elem_of_dom.
        rewrite lookup_insert_eq. by eexists. }
      split; [done|]. split.
      { intros x Hx. rewrite Hext.
        - rewrite lookup_insert_ne; [done|]. by intros ->.
        - apply elem_of_dom. rewrite lookup_insert_ne; [by apply elem_of_dom|].
          by intros ->. }
      split; [cbn; by rewrite Hkeys|]. split.
      { cbn. apply NoDup_cons. split; [|done]. intros Hin.
        apply Hnew in Hin as [Hin _]. apply Hin, elem_of_dom.
        rewrite lookup_insert_eq. by eexists. }
      split.
      { intros l' Hin. cbn in Hin. apply elem_of_cons in Hin as [->|Hin].
        - split; [done|]. unfold read_list. rewrite Hl1. by eexists.
        - apply Hnew in Hin as [Hin Hread]. split; [|done].
          intros Hdom. apply Hin, elem_of_dom.
          rewrite lookup_insert_ne; [by apply elem_of_dom|]. by intros ->. }
      intros key. cbn [assoc_get].
      destruct (String.eqb k key); [|apply Hthrough].
      cbn. unfold read_list. by rewrite Hl1, Hl0.
Qed.
Lemma read_list_Some h l items :
  read_list h l = Some items <-> h !! l = Some (OList items).
Proof. unfold read_list. destruct (h !! l) as [[]|]; naive_solver. Qed.

Lemma read_dict_Some h d entries :
  read_dict h d = Some entries <-> h !! d = Some (ODict entries).
Proof. unfold read_dict. destruct (h !! d) as [[]|]; naive_solver. Qed.

Lemma read_query_Some h l q :
  read_query h l = Some q <-> h !! l = Some (OQuery q).
Proof. unfold read_query. destruct (h !! l) as [[]|]; naive_solver. Qed.

Lemma filters_of_dict h d entries key :
  read_dict h d = Some entries ->
  filters_of h (Some d) key = through h entries key.
Proof. intros Hd. unfold filters_of. cbn. by rewrite Hd. Qed.

Lemma through_None h0 (entries : list (string * loc)) key :
  key ∉ entries.*1 -> through h0 entries key = None.
Proof. intros Hkey. apply assoc_get_None in Hkey. by rewrite Hkey. Qed.

(** The loop that merges the rollup's own pre-join filters into the
    dictionary [d] of the copied request.  [h0] is the heap before the
    copy was made; the lists of the entries named by the rollup's setting
    are private to the copy and not shared between keys. *)
Lemma merge_where_before_join_spec h0 d :
  d ∉ dom h0 ->
  ∀ setting hc entries,
    NoDup setting.*1 ->
    (∀ k l, (k, l) ∈ setting -> is_Some (read_list h0 l)) ->
    (∀ l, l ∈ dom h0 -> hc !! l = h0 !! l) ->
    read_dict hc d = Some entries ->
    (∀ k l, assoc_get entries k = Some l -> is_Some (read_list hc l)) ->
    (∀ k l, k ∈ setting.*1 -> assoc_get entries k = Some l ->
            (l ∉ dom h0) ∧ ∀ k', assoc_get entries k' = Some l -> k' = k) ->
    ∃ h',
      merge_where_before_join hc d setting = Some h'
      ∧ (∀ l, l ∈ dom h0 -> h' !! l = h0 !! l)
      ∧ (∀ l, l ∉ dom h0 -> l ≠ d -> (∀ k, assoc_get entries k ≠ Some l) ->
              h' !! l = hc !! l)
      ∧ ∀ key, filters_of h' (Some d) key
               = combined (filters_of hc (Some d) key) (through h0 setting key).
Proof.
  intros Hd0 setting.
  induction setting as [|[t0 b] setting IH];
    intros hc entries Hnodup Hlists Hagree Hdict Hread Hprivate.
  - exists hc. split; [done|]. split; [done|]. split; [done|].
    intros key. cbn [assoc_get mbind option_bind].
    by destruct (filters_of hc (Some d) key).
  - cbn [merge_where_before_join]. rewrite Hdict. cbn [mbind option_bind].
    apply NoDup_cons in Hnodup as [Ht0 Hnodup].
    destruct (Hlists t0 b) as [bits Hbits]; [left|].
    apply read_list_Some in Hbits.
    assert (b ∈ dom h0) as Hb0 by (apply elem_of_dom; by eexists).
    assert (hc !! b = Some (OList bits)) as Hbc by (by rewrite Hagree).
    assert (hc !! d = Some (ODict entries)) as Hdc by (by apply read_dict_Some).
    destruct (assoc_get entries t0) as [target|] eqn:Htarget.
    + destruct (Hread t0 target Htarget) as [items Hitems].
      rewrite Hitems. cbn [mbind option_bind].
      rewrite (proj2 (read_list_Some hc b bits) Hbc). cbn [mbind option_bind].
      apply read_list_Some in Hitems.
      destruct (Hprivate t0 target) as [Hfresh Hunique]; [left|done|].
      assert (target ≠ d) as Htd by (intros ->; congruence).
      destruct (IH (<[target := OList (items ++ bits)%list]> hc) entries)
        as (h' & -> & Hagree' & Hframe & Hfilters).
      * done.
      * intros k l Hin. apply (Hlists k l). by right.
      * intros l Hl. rewrite lookup_insert_ne; [by apply Hagree|]. by intros ->.
      * apply read_dict_Some. by rewrite lookup_insert_ne.
      * intros k l Hget. destruct (decide (l = target)) as [->|Hne].
        -- exists (items ++ bits)%list. apply read_list_Some, lookup_insert_eq.
        -- destruct (Hread k l Hget) as [its Hits]. exists its.
           apply read_list_Some. rewrite lookup_insert_ne by done.
           by apply read_list_Some.
      * intros k l Hk Hget. apply Hprivate; [by right | done].
      * exists h'. split; [done|]. split; [done|]. split.
        { intros l Hl0 Hld Hnot. rewrite Hframe by done.
          rewrite lookup_insert_ne; [done|]. intros ->. by apply (Hnot t0). }
        intros key. rewrite Hfilters.
        rewrite (filters_of_dict (<[target := OList (items ++ bits)%list]> hc) d entries)
          by (apply read_dict_Some; by rewrite lookup_insert_ne).
        rewrite (filters_of_dict hc d entries) by done.
        cbn [assoc_get]. destruct (String.eqb_spec t0 key) as [<-|Hne].
        -- rewrite Htarget. cbn [mbind option_bind].
           rewrite (proj2 (read_list_Some _ target (items ++ bits)%list))
             by apply lookup_insert_eq.
           rewrite (proj2 (read_list_Some hc target items)) by done.
           rewrite (proj2 (read_list_Some h0 b bits)) by done.
           by rewrite through_None.
        -- destruct (assoc_get entries key) as [l|] eqn:Hkey; [|done].
           cbn [mbind option_bind]. unfold read_list at 1.
           rewrite lookup_insert_ne; [done|].
           intros ->. apply Hne. symmetry. by apply Hunique.
    + assert (∀ l, l ≠ d -> <[d := ODict (entries ++ [(t0, b)])]> hc !! l = hc !! l)
        as Hother by (intros l Hl; by rewrite lookup_insert_ne).
      assert (b ≠ d) as Hbd by (intros ->; done).
      destruct (IH (<[d := ODict (entries ++ [(t0, b)])]> hc) (entries ++ [(t0, b)]))
        as (h' & -> & Hagree' & Hframe & Hfilters).
      * done.
      * intros k l Hin. apply (Hlists k l). by right.
      * intros l Hl. rewrite Hother; [by apply Hagree|]. by intros ->.
      * apply read_dict_Some, lookup_insert_eq.
      * intros k l. rewrite assoc_get_app_new by done. case_decide.
        -- intros [= <-]. exists bits. apply read_list_Some. by rewrite Hother.
        -- intros Hget. destruct (Hread k l Hget) as [its Hits]. exists its.
           apply read_list_Some in Hits. apply read_list_Some.
           rewrite Hother; [done|]. intros ->. congruence.
      * intros k l Hk. rewrite assoc_get_app_new by done.
        rewrite decide_False by (intros ->; done).
        intros Hget. destruct (Hprivate k l) as [Hfresh Hunique]; [by right|done|].
        split; [done|]. intros k'. rewrite assoc_get_app_new by done. case_decide.
        -- intros [= <-]. done.
        -- apply Hunique.
      * exists h'. split; [done|]. split; [done|]. split.
        { intros l Hl0 Hld Hnot. rewrite Hframe; [by apply Hother|done..|].
          intros k. rewrite assoc_get_app_new by done. case_decide.
          - intros [= <-]. done.
          - apply Hnot. }
        intros key. rewrite Hfilters.
        rewrite (filters_of_dict _ d (entries ++ [(t0, b)]))
          by apply read_dict_Some, lookup_insert_eq.
        rewrite (filters_of_dict hc d entries) by done.
        rewrite assoc_get_app_new by done.
        cbn [assoc_get]. destruct (String.eqb_spec t0 key) as [<-|Hne].
        -- rewrite decide_True by done. rewrite Htarget. cbn [mbind option_bind].
           rewrite (proj2 (read_list_Some _ b bits)) by (by rewrite Hother).
           rewrite (proj2 (read_list_Some h0 b bits)) by done.
           by rewrite through_None.
        -- rewrite decide_False by done.
           destruct (assoc_get entries key) as [l|] eqn:Hkey; [|done].
           cbn [mbind option_bind]. unfold read_list at 1.
           rewrite Hother; [done|].
           intros ->. destruct (Hread key d Hkey) as [its Hits].
           apply read_list_Some in Hits. congruence.
Qed.
End Deepcopy.

Section RollupRequest.
Import Heap ExporterRollupMethods.
Implicit Types (h : gmap loc obj) (l d : loc).

Local Abbreviation through h entries key := (assoc_get entries key ≫= read_list h).

Lemma apply_update_updated u q :
  ExporterQuery._is_executing q = false ->
  ExporterQuery.apply_update u q = Ok (ExporterQuery.updated u q).
Proof.
  intros Hq.
  destruct u; cbn; unfold ExporterQuery.set_exporter, ExporterQuery.set_where_before_join,
    ExporterQuery.set_limit, ExporterQuery.set_count, ExporterQuery.set_group_by,
    ExporterQuery.set_where, ExporterQuery.set_extra_field, ExporterQuery.set_order_by,
    ExporterQuery.is_update_safe; rewrite Hq; reflexivity.
Qed.

Lemma updated_is_executing u q :
  ExporterQuery._is_executing (ExporterQuery.updated u q) = ExporterQuery._is_executing q.
Proof. by destruct u. Qed.

Lemma read_query_insert h l q : read_query (<[l := OQuery q]> h) l = Some q.
Proof. unfold read_query. by rewrite lookup_insert_eq. Qed.

Lemma assign_step u h l q k :
  read_query h l = Some q -> ExporterQuery._is_executing q = false ->
  and_then (assign u h l) k = k (<[l := OQuery (ExporterQuery.updated u q)]> h).
Proof.
  intros Hread Hq. unfold assign. rewrite Hread. cbn [mbind option_bind].
  by rewrite apply_update_updated.
Qed.

Lemma override_spec self h l q :
  read_query h l = Some q -> ExporterQuery._is_executing q = false ->
  ∃ q',
    override self h l = Some (Ok (), <[l := OQuery q']> h)
    ∧ ExporterQuery._group_by q'
      = listify (default PNone (dict_get (ExporterRollup.settings self) "group_by"))
    ∧ ExporterQuery._extra_field q'
      = listify (default PNone (dict_get (ExporterRollup.settings self) "extra_field"))
    ∧ ExporterQuery._order_by q' = []
    ∧ ExporterQuery._where q' = []
    ∧ ExporterQuery._limit q' = PNone
    ∧ ExporterQuery._exporter q' = ExporterQuery._exporter q
    ∧ ExporterQuery._count q' = ExporterQuery._count q
    ∧ ExporterQuery._where_before_join q' = ExporterQuery._where_before_join q.
Proof.
  intros Hread Hq. unfold override.
  erewrite assign_step; [|exact Hread|exact Hq].
  erewrite assign_step; [|apply read_query_insert|by rewrite updated_is_executing].
  erewrite assign_step; [|apply read_query_insert|by rewrite !updated_is_executing].
  erewrite assign_step; [|apply read_query_insert|by rewrite !updated_is_executing].
  erewrite assign_step; [|apply read_query_insert|by rewrite !updated_is_executing].
  rewrite read_query_insert. cbn [mbind option_bind].
  rewrite !insert_insert_eq.
  eexists. split; [reflexivity|]. repeat split.
Qed.

Lemma NoDup_snd_unique (entries : list (string * loc)) k k' l :
  NoDup entries.*2 -> (k, l) ∈ entries -> (k', l) ∈ entries -> k = k'.
Proof.
  induction entries as [|[k0 l0] entries IH]; cbn; intros Hnodup Hk Hk'.
  - by apply elem_of_nil in Hk.
  - apply NoDup_cons in Hnodup as [Hl0 Hnodup].
    apply elem_of_cons in Hk as [Heq|Hk];
      apply elem_of_cons in Hk' as [Heq'|Hk']; simplify_eq.
    + done.
    + exfalso. apply Hl0. apply list_elem_of_fmap. by exists (k', l0).
    + exfalso. apply Hl0. apply list_elem_of_fmap. by exists (k, l0).
    + by apply IH.
Qed.

(** What [copy.deepcopy] gives for a well-formed request. *)
Lemma deepcopy_spec h query q :
  read_query h query = Some q -> request_well_formed h q ->
  ExporterQuery.database_cursor_attached q = false ->
  ∃ h1 rollup_query q1,
    deepcopy h query = Some (Ok (h1, rollup_query))
    ∧ (rollup_query ∉ dom h)
    ∧ (∀ l, l ∈ dom h -> h1 !! l = h !! l)
    ∧ read_query h1 rollup_query = Some q1
    ∧ q1 = ExporterQuery.with_where_before_join (ExporterQuery._where_before_join q1) q
    ∧ match ExporterQuery._where_before_join q, ExporterQuery._where_before_join q1 with
      | None, None => True
      | Some d, Some d' =>
          ∃ entries entries',
            read_dict h d = Some entries ∧ read_dict h1 d' = Some entries'
            ∧ (d' ∉ dom h) ∧ d' ≠ rollup_query
            ∧ entries'.*1 = entries.*1
            ∧ NoDup entries'.*2
            ∧ (∀ l', l' ∈ entries'.*2 ->
                     (l' ∉ dom h) ∧ l' ≠ rollup_query ∧ is_Some (read_list h1 l'))
            ∧ (∀ key, through h1 entries' key = through h entries key)
      | _, _ => False
      end.
Proof.
  intros Hread [Hwf Hunshared] Hcursor. unfold deepcopy.
  apply read_query_Some in Hread. rewrite Hread, Hcursor.
  destruct (ExporterQuery._where_before_join q) as [d|] eqn:Hd.
  - apply well_formed_dict_inv in Hwf as (entries & Hentries & Hkeys & Hlists).
    specialize (Hunshared d eq_refl). unfold unshared in Hunshared.
    rewrite Hentries in Hunshared.
    unfold deepcopy_dict. apply read_dict_Some in Hentries. rewrite Hentries.
    destruct (copy_entries_unshared h entries h ∅)
      as (h' & memo' & entries' & -> & Hext & Hkeys' & Hnodup' & Hnew & Hthrough);
      [done|done|by intros; apply lookup_empty|done|].
    cbn. set (d' := fresh (dom h')).
    set (h2 := <[d' := ODict entries']> h').
    set (rq := fresh (dom h2)).
    assert (d' ∉ dom h') as Hd' by apply is_fresh.
    assert (rq ∉ dom h2) as Hrq by apply is_fresh.
    assert (dom h ⊆ dom h') as Hsub.
    { intros x Hx. apply elem_of_dom. rewrite Hext by done. by apply elem_of_dom. }
    assert (d' ≠ rq) as Hne.
    { intros Heq. apply Hrq. rewrite <- Heq. apply elem_of_dom. unfold h2.
      rewrite lookup_insert_eq. by eexists. }
    assert (rq ∉ dom h') as Hrq'.
    { intros Hin. apply Hrq. apply elem_of_dom. unfold h2.
      rewrite lookup_insert_ne by done. by apply elem_of_dom. }
    exists (<[rq := OQuery (ExporterQuery.with_where_before_join (Some d') q)]> h2), rq,
      (ExporterQuery.with_where_before_join (Some d') q).
    split; [done|]. split; [set_solver|]. split.
    { intros x Hx. rewrite lookup_insert_ne by (intros ->; set_solver).
      unfold h2. rewrite lookup_insert_ne by (intros ->; set_solver). by apply Hext. }
    split; [apply read_query_insert|]. split; [done|]. cbn.
    exists entries, entries'. split; [by apply read_dict_Some|]. split.
    { apply read_dict_Some. rewrite lookup_insert_ne by done. apply lookup_insert_eq. }
    split; [set_solver|]. split; [done|]. split; [done|]. split; [done|].
    assert (∀ l', l' ∈ entries'.*2 -> l' ≠ d' ∧ l' ≠ rq) as Hdistinct.
    { intros l' Hin. apply Hnew in Hin as [_ [items Hitems]].
      apply read_list_Some in Hitems.
      split; intros ->; [apply Hd' | apply Hrq']; apply elem_of_dom; by eexists. }
    split.
    { intros l' Hin. destruct (Hdistinct l' Hin) as [? ?].
      destruct (Hnew l' Hin) as [? [items Hitems]].
      split; [done|]. split; [done|]. exists items.
      apply read_list_Some in Hitems. apply read_list_Some.
      rewrite lookup_insert_ne by done. unfold h2. by rewrite lookup_insert_ne. }
    intros key. rewrite <- Hthrough.
    destruct (assoc_get entries' key) as [l'|] eqn:Hkey; [|done]. cbn.
    destruct (Hdistinct l') as [? ?].
    { apply list_elem_of_fmap. exists (key, l'). split; [done|].
      by apply assoc_get_elem_of. }
    unfold read_list. rewrite lookup_insert_ne by done. unfold h2.
    by rewrite lookup_insert_ne.
  - cbn. set (rq := fresh (dom h)).
    assert (rq ∉ dom h) as Hrq by apply is_fresh.
    exists (<[rq := OQuery q]> h), rq, q.
    split; [done|]. split; [done|]. split.
    { intros x Hx. rewrite lookup_insert_ne; [done|]. by intros ->. }
    split; [apply read_query_insert|]. rewrite Hd. split; [|done].
    destruct q. cbn in Hd. by subst.
Qed.
End RollupRequest.

Lemma combined_None_r own : combined own None = own.
Proof. by destruct own. Qed.

Lemma filters_of_None h table_name : Heap.filters_of h None table_name = None.
Proof. reflexivity. Qed.

Lemma deepcopy_of_database_cursor h query q :
  Heap.read_query h query = Some q ->
  ExporterQuery.database_cursor_attached q = true ->
  Heap.deepcopy h query = Some (Raise TypeError).
Proof.
  intros Hread Hcursor. unfold Heap.deepcopy.
  apply read_query_Some in Hread. by rewrite Hread, Hcursor.
Qed.

(** C4. For every rollup and every well-formed caller request (its
    [where_before_join], if any, is a dictionary of list objects, no list
    being shared by two tables; the objects of the rollup's own setting
    likewise; no cursor logic has set the request executing).

    When no [Cursor] holding a database cursor is attached to the request,
    the rollup prepares a new request object and leaves every object that
    existed unchanged, the caller's request and its dictionary and lists
    among them.  In the new request [group_by] and [extra_field] are the
    rollup's own declared values, [order_by], [where] and [limit] are
    cleared, and the pre-join filters of every table are the caller's
    followed by the rollup's own, so lists of tables named by both are
    concatenated.  The inner exporter is compiled, at layer [inner], with
    that new request.

    When such a [Cursor] is attached (inside the [with] block, or after
    an execute that failed), the request cannot be copied: the rollup
    raises [TypeError], compiles nothing and leaves the heap as it was. *)
Theorem rollup_compiles_a_private_request (self : ExporterRollup.t)
    (h : gmap loc Heap.obj) (query : loc) (q : ExporterQuery.t) :
  Heap.read_query h query = Some q ->
  ExporterQuery._is_executing q = false ->
  request_well_formed h q ->
  well_formed_reference h (ExporterRollup.where_before_join self) ->
  (ExporterQuery.database_cursor_attached q = false ->
   ∃ h' rollup_query rq,
     ExporterRollupMethods.rollup_query self h query = Some (Ok rollup_query, h')
     ∧ rollup_request_contract self h q h' rollup_query rq
     ∧ ∀ final_sql query_layer,
         ExporterRollupMethods._sql_dict final_sql self h query query_layer
         = Some (ExporterRollupMethods.wrap self query_layer
                   (final_sql h' rollup_query (Some "inner")), h'))
  ∧ (ExporterQuery.database_cursor_attached q = true ->
     ExporterRollupMethods.rollup_query self h query = Some (Raise TypeError, h)
     ∧ ∀ final_sql query_layer,
         ExporterRollupMethods._sql_dict final_sql self h query query_layer
         = Some (Raise TypeError, h)).
Proof.
  intros Hread Hq Hwf Hsetting. split; [intros Hcursor|]; cycle 1.
  { intros Hcursor.
    assert (ExporterRollupMethods.rollup_query self h query = Some (Raise TypeError, h))
      as Hrun.
    { unfold ExporterRollupMethods.rollup_query.
      by rewrite (deepcopy_of_database_cursor h query q Hread Hcursor). }
    split; [done|]. intros final_sql query_layer.
    unfold ExporterRollupMethods._sql_dict. by rewrite Hrun. }
  destruct (deepcopy_spec h query q Hread Hwf Hcursor)
    as (h1 & rql & q1 & Hcopy & Hfresh & Hagree & Hread1 & Hq1 & Hdict).
  assert (ExporterQuery._is_executing q1 = false) as Hq1x by (by rewrite Hq1).
  assert (ExporterQuery._exporter q1 = ExporterQuery._exporter q) as Hexp by (by rewrite Hq1).
  assert (ExporterQuery._count q1 = ExporterQuery._count q) as Hcount by (by rewrite Hq1).
  (* the heap and request after the rollup's setting was merged in *)
  assert (∃ hm qm,
            ExporterRollupMethods.merge_setting self h1 rql = Some (Ok (), hm)
            ∧ (∀ l, l ∈ dom h -> hm !! l = h !! l)
            ∧ Heap.read_query hm rql = Some qm
            ∧ ExporterQuery._is_executing qm = false
            ∧ ExporterQuery._exporter qm = ExporterQuery._exporter q
            ∧ ExporterQuery._count qm = ExporterQuery._count q
            ∧ ∀ table_name,
                Heap.filters_of hm (ExporterQuery._where_before_join qm) table_name
                = combined (Heap.filters_of h (ExporterQuery._where_before_join q) table_name)
                    (Heap.filters_of h (ExporterRollup.where_before_join self) table_name))
    as (hm & qm & Hmerge & Hagreem & Hreadm & Hqm & Hexpm & Hcountm & Hfilters).
  { unfold ExporterRollupMethods.merge_setting.
    destruct (ExporterRollup.where_before_join self) as [s|] eqn:Hs.
    - rewrite Hread1. cbn [mbind option_bind].
      (* the assignment of the rollup's dictionary, when the copy has none *)
      assert (Heap.dict_truthy h1 (ExporterQuery._where_before_join q1) = false ->
              (∀ table_name,
                 Heap.filters_of h (ExporterQuery._where_before_join q) table_name = None) ->
              ∃ hm qm,
                ExporterRollupMethods.assign (ExporterQuery.UWhereBeforeJoin (Some s)) h1 rql
                = Some (Ok (), hm)
                ∧ (∀ l, l ∈ dom h -> hm !! l = h !! l)
                ∧ Heap.read_query hm rql = Some qm
                ∧ ExporterQuery._is_executing qm = false
                ∧ ExporterQuery._exporter qm = ExporterQuery._exporter q
                ∧ ExporterQuery._count qm = ExporterQuery._count q
                ∧ ∀ table_name,
                    Heap.filters_of hm (ExporterQuery._where_before_join qm) table_name
                    = combined
                        (Heap.filters_of h (ExporterQuery._where_before_join q) table_name)
                        (Heap.filters_of h (Some s) table_name)) as Hassign.
      { intros _ Hnone. unfold ExporterRollupMethods.assign. rewrite Hread1.
        cbn [mbind option_bind]. rewrite apply_update_updated by done.
        eexists _, _. split; [reflexivity|]. split.
        { intros l Hl. rewrite lookup_insert_ne; [by apply Hagree|]. by intros ->. }
        split; [apply read_query_insert|]. split; [done|]. split; [done|]. split; [done|].
        intros table_name. rewrite Hnone. cbn [combined ExporterQuery.updated
          ExporterQuery.with_where_before_join ExporterQuery._where_before_join].
        rewrite filters_of_insert_query by (by eexists).
        by apply filters_of_agree. }
      destruct (ExporterQuery._where_before_join q) as [d|] eqn:Hd;
        destruct (ExporterQuery._where_before_join q1) as [d'|] eqn:Hd'; try done.
      + destruct Hdict as (entries & entries' & Hentries & Hentries' & Hd0 & Hdrq & Hkeys
                           & Hnodup & Hnew & Hthrough).
        unfold Heap.dict_truthy in *. rewrite Hentries' in *.
        destruct entries' as [|entry' entries'].
        * cbn [negb]. apply Hassign; [done|]. intros table_name.
          rewrite (filters_of_dict h d entries) by done.
          destruct entries; [done | discriminate].
        * cbn [negb mbind option_bind].
          apply well_formed_dict_inv in Hsetting as (setting & Hset & Hsetkeys & Hsetlists).
          assert (Heap.read_dict h1 s = Some setting) as Hset1.
          { apply read_dict_Some. apply read_dict_Some in Hset.
            rewrite Hagree; [done|]. apply elem_of_dom. by eexists. }
          rewrite Hset1. cbn [mbind option_bind].
          destruct (merge_where_before_join_spec h d' Hd0 setting h1 (entry' :: entries'))
            as (hm & Hloop & Hagreem & Hframe & Hfilters); try done.
          { intros k l Hget. apply (Hnew l). apply list_elem_of_fmap.
            exists (k, l). split; [done|]. by apply assoc_get_elem_of. }
          { intros k l _ Hget. split.
            - apply (Hnew l). apply list_elem_of_fmap.
              exists (k, l). split; [done|]. by apply assoc_get_elem_of.
            - intros k' Hget'.
              eapply NoDup_snd_unique; [exact Hnodup|by apply assoc_get_elem_of..]. }
          rewrite Hloop. cbn [mbind option_bind].
          exists hm, q1. split; [done|]. split; [done|]. split.
          { apply read_query_Some. rewrite Hframe; [by apply read_query_Some|done..|].
            intros k Hget. apply assoc_get_elem_of in Hget.
            apply (Hnew rql); [|done]. apply list_elem_of_fmap. by exists (k, rql). }
          split; [done|]. split; [done|]. split; [done|].
          intros table_name. rewrite Hd'. rewrite Hfilters.
          rewrite (filters_of_dict h1 d' (entry' :: entries')) by done.
          rewrite Hthrough. rewrite (filters_of_dict h d entries) by done.
          by rewrite (filters_of_dict h s setting) by done.
      + apply Hassign; [done|]. intros table_name. apply filters_of_None.
    - exists h1, q1. split; [done|]. split; [done|]. split; [done|].
      split; [done|]. split; [done|]. split; [done|].
      intros table_name. rewrite filters_of_None, combined_None_r.
      destruct (ExporterQuery._where_before_join q) as [d|] eqn:Hd;
        destruct (ExporterQuery._where_before_join q1) as [d'|] eqn:Hd'; try done.
      destruct Hdict as (entries & entries' & Hentries & Hentries' & _ & _ & _ & _ & _
                         & Hthrough).
      rewrite (filters_of_dict h1 d' entries'), (filters_of_dict h d entries) by done.
      apply Hthrough. }
  destruct (override_spec self hm rql qm Hreadm Hqm)
    as (rq & Hover & Hgroup & Hextra & Horder & Hwhere & Hlimit & Hexp' & Hcount' & Hwbj).
  assert (ExporterRollupMethods.rollup_query self h query
          = Some (Ok rql, <[rql := Heap.OQuery rq]> hm)) as Hrun.
  { unfold ExporterRollupMethods.rollup_query. rewrite Hcopy.
    rewrite Hmerge. cbn [ExporterRollupMethods.and_then]. by rewrite Hover. }
  exists (<[rql := Heap.OQuery rq]> hm), rql, rq.
  split; [done|]. split.
  - split; [done|]. split.
    { intros l Hl. rewrite lookup_insert_ne; [by apply Hagreem|]. by intros ->. }
    split; [apply read_query_insert|].
    split; [done|]. split; [done|]. split; [done|]. split; [done|]. split; [done|].
    split; [congruence|]. split; [congruence|].
    intros table_name. rewrite Hwbj, filters_of_insert_query by (by eexists). apply Hfilters.
  - intros final_sql query_layer. unfold ExporterRollupMethods._sql_dict. by rewrite Hrun.
Qed.

(** The sample request with the sample rollup: every hypothesis holds,
    and no cursor is attached. *)
Lemma rollup_compiles_a_private_request_witness :
  ∃ h' rollup_query rq,
    ExporterRollupMethods.rollup_query sample_rollup sample_heap 10%positive
    = Some (Ok rollup_query, h')
    ∧ rollup_request_contract sample_rollup sample_heap sample_request h' rollup_query rq
    ∧ ∀ final_sql query_layer,
        ExporterRollupMethods._sql_dict final_sql sample_rollup sample_heap 10%positive
          query_layer
        = Some (ExporterRollupMethods.wrap sample_rollup query_layer
                  (final_sql h' rollup_query (Some "inner")), h').
Proof.
  refine (proj1 (rollup_compiles_a_private_request sample_rollup sample_heap 10%positive
                   sample_request _ _ _ _) _).
  - reflexivity.
  - reflexivity.
  - split.
    + unfold well_formed_reference, well_formed_dict. simpl.
      split; [by apply (bool_decide_unpack _)|]. repeat constructor; by eexists.
    + intros d [= <-]. unfold unshared. simpl. by apply (bool_decide_unpack _).
  - unfold well_formed_reference, well_formed_dict. simpl.
    split; [by apply (bool_decide_unpack _)|]. repeat constructor; by eexists.
  - reflexivity.
Defined.

(** The sample request after an execute that the database refused: the
    cursor object is still attached and holds the database cursor, and the
    rollup raises [TypeError]. *)
Example rollup_after_failed_execute_raises sql parameters e :
  let left := ExporterQuery.with_cursor_do (Ok (sql, parameters)) (Ok ()) (Raise e)
                (fun q => (Ok (), q)) sample_request in
  left.1 = Raise e
  ∧ ExporterQuery.database_cursor_attached left.2 = true
  ∧ ExporterRollupMethods.rollup_query sample_rollup
      (<[10%positive := Heap.OQuery left.2]> sample_heap) 10%positive
    = Some (Raise TypeError, <[10%positive := Heap.OQuery left.2]> sample_heap).
Proof.
  cbn zeta. split; [reflexivity|]. split; [reflexivity|].
  unfold ExporterRollupMethods.rollup_query.
  erewrite deepcopy_of_database_cursor; [done | apply read_query_insert | reflexivity].
Qed.

Example sample_rollup_request :
  ∃ h' rollup_query rq,
    ExporterRollupMethods.rollup_query sample_rollup sample_heap 10%positive
    = Some (Ok rollup_query, h')
    ∧ Heap.read_query h' rollup_query = Some rq
    ∧ Heap.view h' (ExporterQuery._where_before_join rq)
      = Some (Some [("orders", [filter_item "amount" 5; filter_item "amount" 9]);
                    ("customers", [PDict [("field", PStr "city"); ("value", PStr "Oslo")]]);
                    ("items", [PDict [("field", PStr "sku"); ("value", PStr "x")]])])
    ∧ Heap.view h' (Some 3%positive) = Heap.view sample_heap (Some 3%positive)
    ∧ Heap.read_query h' 10%positive = Some sample_request.
Proof. eexists _, _, _. repeat split; vm_compute; reflexivity. Qed.

(** C4 does not extend to a caller's dictionary that holds one list object
    under two tables: the deep copy keeps
    the sharing, and the list of [orders] is extended with the rollup's
    filters for [orders] and also with those for [customers]. *)
Lemma shared_list_receives_both_settings :
  ∃ h' rollup_query rq,
    ExporterRollupMethods.rollup_query sample_rollup shared_heap 10%positive
    = Some (Ok rollup_query, h')
    ∧ Heap.read_query h' rollup_query = Some rq
    ∧ Heap.filters_of h' (ExporterQuery._where_before_join rq) "orders"
      = Some [filter_item "id" 1; filter_item "amount" 9; filter_item "city" 7]
    ∧ combined (Heap.filters_of shared_heap (Some 3%positive) "orders")
               (Heap.filters_of shared_heap (Some 20%positive) "orders")
      = Some [filter_item "id" 1; filter_item "amount" 9]
    ∧ Heap.filters_of h' (ExporterQuery._where_before_join rq) "orders"
      ≠ combined (Heap.filters_of shared_heap (Some 3%positive) "orders")
                 (Heap.filters_of shared_heap (Some 20%positive) "orders").
Proof.
  eexists _, _, _. split; [vm_compute; reflexivity|]. split; [vm_compute; reflexivity|].
  split; [vm_compute; reflexivity|]. split; [vm_compute; reflexivity|].
  vm_compute. discriminate.
Qed.

(** * Further properties *)

(** ** The merge as an operation on fragments *)

(** X2. Whatever the operands hold, the merge of two fragments has text
    entries for exactly the six keys of the [mergers] table, which are
    [select], [select_no_table], [from], [where], [group_by] and [having],
    and has a parameter map: other entries of the operands, such as
    [join], [order_by] and [limit], are not carried over. *)
Theorem merge2_is_normal a b :
  normal (merge2 a b)
  ∧ dom (text (merge2 a b))
    = {["select"; "select_no_table"; "from"; "where"; "group_by"; "having"]}
  ∧ text (merge2 a b) !! "join" = None
  ∧ text (merge2 a b) !! "order_by" = None
  ∧ text (merge2 a b) !! "limit" = None.
Proof.
  assert (normal (merge2 a b)) as Hnormal.
  { split.
    - apply set_eq. intros key. rewrite elem_of_dom. split.
      + intros [v Hv]. destruct (decide (key ∈ clause_keys)) as [|Hnot]; [done|].
        rewrite merged_text_lookup_other in Hv by done. done.
      + intros Hkey. destruct (merged_text_lookup_key a b key Hkey) as (sep & _ & ->).
        by eexists.
    - by eexists. }
  split; [done|]. split.
  - destruct Hnormal as [-> _]. unfold clause_keys, mergers. cbn. set_solver.
  - repeat split; apply merged_text_lookup_other; unfold clause_keys, mergers; cbn;
      set_solver.
Qed.

(** X1. The merge is associative: merging three fragments gives the same
    fragment whichever pair is merged first, so folding a sequence of
    fragments gives one well-defined SQL text. *)
Theorem merge2_assoc a b c :
  merge2 (merge2 a b) c = merge2 a (merge2 b c).
Proof.
  pose proof (merge2_text_assoc a b c) as Htext.
  pose proof (merge2_parameters_assoc a b c) as Hparameters.
  destruct (merge2 (merge2 a b) c), (merge2 a (merge2 b c)). cbn in *. congruence.
Qed.

Lemma joined_values_empty_r sep a key :
  joined_values sep a empty_sql_dict key = default "" (text a !! key).
Proof.
  unfold joined_values. cbn [text empty_sql_dict]. rewrite lookup_empty.
  destruct (text a !! key) as [v|]; [apply join_filter_left | reflexivity].
Qed.

Lemma joined_values_empty_l sep a key :
  joined_values sep empty_sql_dict a key = default "" (text a !! key).
Proof.
  unfold joined_values. cbn [text empty_sql_dict]. rewrite lookup_empty.
  destruct (text a !! key) as [v|]; [apply join_filter_right | reflexivity].
Qed.

(** X3. The empty fragment is a neutral element on normal fragments: merging
    a fragment that has the six clause keys and a parameter map with the
    empty dictionary, on either side, gives the fragment back (the behaviour
    the test suite checks with [dict1] and [dict2]). *)
Theorem merge2_empty_neutral a :
  normal a -> merge2 a empty_sql_dict = a ∧ merge2 empty_sql_dict a = a.
Proof.
  intros [Hdom [p Hp]].
  assert (∀ key, key ∈ clause_keys -> is_Some (text a !! key)) as Hkeys.
  { intros key Hkey. apply elem_of_dom. by rewrite Hdom. }
  assert (∀ key, key ∉ clause_keys -> text a !! key = None) as Hother.
  { intros key Hkey. apply not_elem_of_dom. by rewrite Hdom. }
  assert (text (merge2 a empty_sql_dict) = text a
          ∧ text (merge2 empty_sql_dict a) = text a) as [Hl Hr].
  { split; apply map_eq; intros key;
      (destruct (decide (key ∈ clause_keys)) as [Hkey|Hkey];
       [|by rewrite merged_text_lookup_other, Hother]).
    - destruct (merged_text_lookup_key a empty_sql_dict key Hkey) as (sep & _ & ->).
      rewrite joined_values_empty_r. by destruct (Hkeys key Hkey) as [v ->].
    - destruct (merged_text_lookup_key empty_sql_dict a key Hkey) as (sep & _ & ->).
      rewrite joined_values_empty_l. by destruct (Hkeys key Hkey) as [v ->]. }
  assert (parameters (merge2 a empty_sql_dict) = parameters a
          ∧ parameters (merge2 empty_sql_dict a) = parameters a) as [Hpl Hpr].
  { cbn [merge2 parameters]. rewrite !merge_parameters_union.
    unfold parameters_of, dict_or. rewrite Hp. cbn.
    by rewrite (left_id_L ∅ (∪)), (right_id_L ∅ (∪)). }
  split.
  - destruct (merge2 a empty_sql_dict), a. cbn in *. congruence.
  - destruct (merge2 empty_sql_dict a), a. cbn in *. congruence.
Qed.

(** The fragment [dict1] of the test suite is normal. *)
Lemma merge2_empty_neutral_witness :
  merge2 test_dict1 empty_sql_dict = test_dict1
  ∧ merge2 empty_sql_dict test_dict1 = test_dict1.
Proof.
  apply (merge2_empty_neutral test_dict1). split.
  - apply set_eq. intros key. unfold clause_keys, test_dict1, mergers. cbn.
    rewrite !dom_insert, dom_empty. set_solver.
  - by eexists.
Defined.

(** ** The select list of a model *)

Lemma join_snoc sep (l : list string) s :
  l ≠ [] -> join sep (l ++ [s]) = join sep l +:+ sep +:+ s.
Proof.
  induction l as [|x [|y l] IH]; intros Hl; [done|reflexivity|].
  change (join sep ((x :: y :: l) ++ [s]))
    with (x +:+ sep +:+ join sep ((y :: l) ++ [s])).
  rewrite IH by done.
  change (join sep (x :: y :: l)) with (x +:+ sep +:+ join sep (y :: l)).
  by rewrite !append_assoc.
Qed.

Lemma join_truthy sep (l : list string) :
  l ≠ [] -> Forall (fun s => str_truthy s = true) l -> str_truthy (join sep l) = true.
Proof.
  destruct l as [|x [|y l]]; intros Hl Hall; [done| |].
  - by apply Forall_inv in Hall.
  - apply Forall_inv in Hall.
    change (join sep (x :: y :: l)) with (x +:+ sep +:+ join sep (y :: l)).
    by apply str_truthy_append.
Qed.

Lemma select_text_truthy table_name query_layer f :
  str_truthy (select_text table_name query_layer f) = true.
Proof.
  unfold select_text.
  destruct (if opt_truthy table_name then default "" table_name
            else ExporterField.parent_table f); reflexivity.
Qed.

Lemma field_sql_dict_select f table_name query_layer :
  text (ExporterField._sql_dict f table_name query_layer) !! "select"
  = if selectable f then Some (select_text table_name query_layer f) else None.
Proof.
  unfold ExporterField._sql_dict, selectable, select_text.
  destruct (ExporterField.join_only f || ExporterField.is_relation f); cbn [negb text].
  - apply lookup_empty.
  - rewrite lookup_insert_ne by done. rewrite lookup_insert_eq.
    by destruct (opt_truthy table_name).
Qed.

Lemma join_filter_snoc (l : list string) s :
  Forall (fun s => str_truthy s = true) l -> str_truthy s = true ->
  join ", " (filter_none [Some (join ", " l); Some s]) = join ", " (l ++ [s]).
Proof.
  intros Hall Hs. destruct (decide (l = [])) as [->|Hl].
  - cbn. by rewrite Hs.
  - cbn [filter_none]. rewrite join_truthy, Hs by done. by rewrite join_snoc.
Qed.

Lemma merge_fields_select fields table_name query_layer :
  ∀ (selected : list string) d,
    Forall (fun s => str_truthy s = true) selected ->
    text d !! "select" = Some (join ", " selected) ->
    text (ExporterModel.merge_fields fields table_name query_layer d) !! "select"
    = Some (join ", "
              (selected ++ map (select_text table_name query_layer)
                             (filter (fun f => selectable f = true) fields))).
Proof.
  unfold ExporterModel.merge_fields.
  induction fields as [|f fields IH]; intros selected d Hall Hd; cbn [foldl].
  - by rewrite filter_nil, app_nil_r.
  - assert (text (merge2 d (ExporterField._sql_dict f table_name query_layer)) !! "select"
            = Some (join ", " (selected ++ if selectable f
                                           then [select_text table_name query_layer f]
                                           else []))) as Hstep.
    { rewrite (merge2_text_lookup _ _ "select" ", ") by (unfold mergers; set_solver).
      f_equal. unfold joined_values. rewrite Hd, field_sql_dict_select.
      destruct (selectable f).
      - apply join_filter_snoc; [done | apply select_text_truthy].
      - by rewrite join_filter_left, app_nil_r. }
    rewrite filter_cons. destruct (selectable f) eqn:Hf.
    + rewrite decide_True by done.
      rewrite (IH (selected ++ [select_text table_name query_layer f]) _); [| |done].
      * by rewrite <- app_assoc.
      * apply Forall_app. split; [done|]. constructor; [apply select_text_truthy|done].
    + rewrite decide_False by done.
      rewrite app_nil_r in Hstep. by apply IH.
Qed.

Lemma where_before_join_loop_text self tuples :
  ∀ where_bit d where_bit' d',
    ExporterModel.where_before_join_loop self tuples where_bit d = Ok (where_bit', d') ->
    text d' = text d.
Proof.
  induction tuples as [|[[field_name value] operator] tuples IH];
    intros where_bit d where_bit' d'; cbn [ExporterModel.where_before_join_loop].
  - by intros [= _ <-].
  - destruct (ExporterModel.field_by_name self field_name) as [f|e];
      cbn [mbind result_bind]; [|done].
    destruct (_resolve_where operator (Some (Field f)) value None) as [w [p|]]; [|done].
    intros Hloop. by rewrite (IH _ _ _ _ Hloop).
Qed.

Lemma table_reference_text self where_before_join d tbl d' :
  ExporterModel.table_reference self where_before_join d = Ok (tbl, d') ->
  text d' = text d.
Proof.
  unfold ExporterModel.table_reference.
  destruct where_before_join as [[|entry entries]|]; try by intros [= _ <-].
  destruct (assoc_get (entry :: entries) (ExporterModel.name self)) as [limits|];
    [|by intros [= _ <-]].
  destruct (ExporterModel.limit_tuples limits) as [tuples|e]; cbn [mbind result_bind];
    [|done].
  destruct (ExporterModel.where_before_join_loop self tuples (Some "") d)
    as [[where_bit d1]|e] eqn:Hloop; cbn [mbind result_bind]; [|done].
  apply where_before_join_loop_text in Hloop.
  destruct (opt_truthy where_bit); intros [= _ <-]; done.
Qed.

(** X4. The select list of a model follows the declaration order of its
    fields: when the model has at least one field, the fragment it emits for
    itself has the select text made of the entries of its selectable fields
    (not join-only, not a relationship), in the order of [self.fields],
    joined by a comma and a blank. *)
Theorem own_select_in_declaration_order self table_name left_join join_model join_using
    where_before_join query_layer sql_dict :
  ExporterModel.fields self ≠ [] ->
  ExporterModel.own_sql_dict self table_name left_join join_model join_using
    where_before_join query_layer = Ok sql_dict ->
  text sql_dict !! "select"
  = Some (join ", " (map (select_text table_name query_layer)
                       (filter (fun f => selectable f = true) (ExporterModel.fields self)))).
Proof.
  intros Hfields. unfold ExporterModel.own_sql_dict.
  destruct (ExporterModel.table_reference self where_before_join empty_sql_dict)
    as [[tbl d0]|e] eqn:Href; cbn [mbind result_bind]; [|done].
  apply table_reference_text in Href.
  intros [= <-].
  destruct (ExporterModel.fields self) as [|f fields]; [done|].
  unfold ExporterModel.merge_fields. cbn [foldl].
  match goal with
  | |- text (foldl _ (merge2 ?d _) _) !! _ = _ => set (start := d)
  end.
  assert (text start !! "select" = None) as Hstart.
  { unfold start.
    destruct left_join, (opt_truthy join_using); cbn [set_text text];
      rewrite ?lookup_insert_ne by done; by rewrite Href. }
  pose proof (merge_fields_select fields table_name query_layer
                (if selectable f then [select_text table_name query_layer f] else [])
                (merge2 start (ExporterField._sql_dict f table_name query_layer))) as H.
  unfold ExporterModel.merge_fields in H. rewrite H.
  - rewrite filter_cons. destruct (selectable f) eqn:Hf.
    + by rewrite decide_True.
    + by rewrite decide_False.
  - destruct (selectable f); constructor; [apply select_text_truthy | done].
  - rewrite (merge2_text_lookup _ _ "select" ", ") by (unfold mergers; set_solver).
    f_equal. unfold joined_values. rewrite field_sql_dict_select, Hstart.
    destruct (selectable f); [apply join_filter_right | reflexivity].
Qed.

(** The model [Order] of the sample schema. *)
Lemma own_select_in_declaration_order_witness :
  ∃ sql_dict,
    ExporterModel.own_sql_dict Order None false None None None None = Ok sql_dict
    ∧ text sql_dict !! "select" = Some "orders.id, orders.amount".
Proof.
  destruct (ExporterModel.own_sql_dict Order None false None None None None)
    as [d|e] eqn:E.
  - exists d. split; [done|].
    rewrite (own_select_in_declaration_order Order None false None None None None d
               ltac:(cbn; discriminate) E).
    reflexivity.
  - vm_compute in E. discriminate.
Defined.

(** ** Dotted names *)

Lemma count_char_append c (a b : string) :
  count_char c (a +:+ b) = count_char c a + count_char c b.
Proof.
  induction a as [|x a IH]; [reflexivity|].
  rewrite append_cons. cbn [count_char]. rewrite IH. lia.
Qed.

Lemma split_on_not_nil c s : split_on c s ≠ [].
Proof.
  destruct s as [|x s]; [done|]. cbn [split_on].
  destruct (split_on c s); [done|]. by destruct (Ascii.eqb x c).
Qed.

Lemma split_on_dot_free (s : string) : dot_free s -> split_on dot_char s = [s].
Proof.
  unfold dot_free. induction s as [|x s IH]; [done|]. cbn [count_char split_on].
  destruct (Ascii.eqb x dot_char); [done|]. intros Hs. by rewrite IH.
Qed.

Lemma split_on_dotted (a r : string) :
  dot_free a -> split_on dot_char (a +:+ dot +:+ r) = a :: split_on dot_char r.
Proof.
  unfold dot_free. induction a as [|x a IH].
  - intros _. rewrite append_nil_l. unfold dot. rewrite append_cons, append_nil_l.
    cbn [split_on]. pose proof (split_on_not_nil dot_char r).
    destruct (split_on dot_char r); [done|]. by rewrite Ascii.eqb_refl.
  - rewrite append_cons. cbn [count_char split_on].
    destruct (Ascii.eqb x dot_char); [done|]. intros Ha. by rewrite IH.
Qed.

Lemma count_dot : count_char dot_char dot = 1.
Proof. reflexivity. Qed.

Lemma str_truthy_iff s : str_truthy s = true <-> s ≠ "".
Proof. unfold str_truthy. destruct (String.eqb_spec s ""); naive_solver. Qed.

(** X5. A bare name of the form [app.model.field] is the qualified lookup:
    for non-empty, dot-free segments, [find_field(field='a.m.f')] gives what
    [find_field(app='a', model='m', field='f')] gives.  When the model
    segment is empty the name is not treated as qualified: the lookup is
    that of the bare last segment, and the app segment is ignored. *)
Theorem find_field_dotted_name (self : Exporter.t) (app model field : string) :
  dot_free app -> dot_free model -> dot_free field ->
  app ≠ "" -> model ≠ "" -> field ≠ "" ->
  Exporter.find_field self None None (Some (app +:+ dot +:+ model +:+ dot +:+ field))
  = Exporter.find_field self (Some app) (Some model) (Some field)
  ∧ Exporter.find_field self None None (Some (app +:+ dot +:+ dot +:+ field))
    = Exporter.find_field self None None (Some field).
Proof.
  intros Ha Hm Hf Happ Hmodel Hfield.
  assert (∀ m, dot_free m ->
            count_char dot_char (app +:+ dot +:+ m +:+ dot +:+ field) = 2) as Hcount.
  { intros m Hm'. rewrite !count_char_append, count_dot. unfold dot_free in *. lia. }
  assert (∀ m, dot_free m ->
            split_on dot_char (app +:+ dot +:+ m +:+ dot +:+ field) = [app; m; field])
    as Hsplit.
  { intros m Hm'. by rewrite !split_on_dotted, split_on_dot_free. }
  assert (∀ r, opt_truthy (Some (app +:+ r)) = true) as Htruthy.
  { intros r. apply str_truthy_append. by apply str_truthy_iff. }
  split.
  - rewrite find_field_qualified by done.
    unfold Exporter.find_field. cbn [from_option id]. rewrite Htruthy.
    cbn [opt_truthy negb andb]. rewrite (Hcount model Hm), (Hsplit model Hm).
    cbn [Nat.eqb]. rewrite !opt_truthy_some by done. reflexivity.
  - rewrite (find_field_unqualified self field) by (unfold dot_free in Hf; first [done | lia]).
    unfold Exporter.find_field. cbn [from_option id]. rewrite Htruthy.
    cbn [opt_truthy negb andb].
    specialize (Hcount "" eq_refl). specialize (Hsplit "" eq_refl).
    rewrite append_nil_l in Hcount, Hsplit. rewrite Hcount, Hsplit.
    cbn [Nat.eqb opt_truthy str_truthy String.eqb negb andb from_option id].
    rewrite (proj2 (str_truthy_iff field)) by done.
    by destruct (str_truthy app); cbn [andb];
      destruct (Exporter.candidates self field) as [|? [|? ?]].
Qed.

(** In the sample schema. *)
Lemma find_field_dotted_name_witness :
  Exporter.find_field Sales None None (Some "shop.Order.amount")
  = Exporter.find_field Sales (Some "shop") (Some "Order") (Some "amount")
  ∧ Exporter.find_field Sales None None (Some "shop..amount")
    = Exporter.find_field Sales None None (Some "amount").
Proof.
  apply (find_field_dotted_name Sales "shop" "Order" "amount");
    first [reflexivity | discriminate].
Defined.

(** ** The pseudofields of a new exporter *)




(** ** Pre-join filters *)

Lemma str_truthy_append_r a b : str_truthy b = true -> str_truthy (a +:+ b) = true.
Proof. by destruct a. Qed.

Lemma placeholder_truthy (col op : string) :
  str_truthy (col +:+ op +:+ "%(" +:+ col +:+ ")s") = true.
Proof. by do 2 apply str_truthy_append_r. Qed.

Lemma _resolve_where_applicable f operator value :
  truthy operator = true -> truthy value = true ->
  _resolve_where operator (Some (Field f)) value None
  = (Some (predicate f operator), Some {[ExporterField.column f None := value]}).
Proof.
  intros Ho Hv. unfold _resolve_where, predicate, supported. rewrite Ho, Hv.
  cbn [negb orb field_column].
  destruct operator as [| | |op| |]; try reflexivity.
  destruct (bool_decide (op ∈ ["="; ">="; "<="; "<>"; "!="])); [|reflexivity].
  cbn [filter_none str_truthy String.eqb negb]. fold (str_truthy "").
  change (str_truthy "") with false. cbn [filter_none].
  fold (str_truthy (ExporterField.column f None +:+ op +:+ "%("
                    +:+ ExporterField.column f None +:+ ")s")).
  by rewrite placeholder_truthy.
Qed.

Lemma where_before_join_loop_last self init :
  ∀ name f value operator where_bit d,
    Forall (applicable self) init ->
    ExporterModel.fields_by_name self !! name = Some f ->
    truthy value = true -> truthy operator = true ->
    ∃ d', ExporterModel.where_before_join_loop self (init ++ [(PStr name, value, operator)])
            where_bit d = Ok (Some (predicate f operator), d')
          ∧ text d' = text d
          ∧ ∃ p, parameters d' = Some p ∧ p !! ExporterField.column f None = Some value.
Proof.
  induction init as [|[[field_name0 value0] operator0] init IH];
    intros name f value operator where_bit d Hinit Hf Hv Ho.
  - cbn [app ExporterModel.where_before_join_loop ExporterModel.field_by_name].
    rewrite Hf. cbn [mbind result_bind]. rewrite _resolve_where_applicable by done.
    eexists. split; [reflexivity|]. split; [reflexivity|].
    eexists. split; [reflexivity|]. unfold dict_or.
    apply lookup_union_Some_l, lookup_singleton_eq.
  - apply Forall_cons in Hinit as [(name0 & f0 & Hname0 & Hf0 & Hv0 & Ho0) Hinit].
    cbn in Hname0, Hv0, Ho0. subst field_name0.
    cbn [app ExporterModel.where_before_join_loop ExporterModel.field_by_name].
    rewrite Hf0. cbn [mbind result_bind]. rewrite _resolve_where_applicable by done.
    destruct (IH name f value operator (Some (predicate f0 operator0))
                (set_parameters
                   (dict_or (default ∅ (parameters d)) {[ExporterField.column f0 None := value0]})
                   d) Hinit Hf Hv Ho) as (d' & -> & Htext & Hp).
    by exists d'.
Qed.

(** X7. Of the pre-join filters declared for a table only the last one is
    applied.  When all filters of the table pass the tests of
    [_resolve_where], the table reference is the derived table with the
    predicate of the last filter alone (the parameter of that filter is
    bound, the text of the fragment is untouched); and when the operator of
    the last filter is not one of [=], [>=], [<=], [<>], [!=] the reference
    is the plain table, so no filter is applied at all. *)
Theorem table_reference_applies_last_filter self entry entries limits init name f value
    operator d :
  assoc_get (entry :: entries) (ExporterModel.name self) = Some limits ->
  ExporterModel.limit_tuples limits = Ok (init ++ [(PStr name, value, operator)]) ->
  Forall (applicable self) init ->
  ExporterModel.fields_by_name self !! name = Some f ->
  truthy value = true -> truthy operator = true ->
  ∃ d',
    ExporterModel.table_reference self (Some (entry :: entries)) d
    = Ok (if supported operator
          then " (SELECT * FROM " +:+ ExporterModel.table self +:+ " WHERE "
               +:+ predicate f operator +:+ ") AS " +:+ ExporterModel.table self
          else ExporterModel.table self, d')
    ∧ text d' = text d
    ∧ ∃ p, parameters d' = Some p ∧ p !! ExporterField.column f None = Some value.
Proof.
  intros Hentry Htuples Hinit Hf Hv Ho. unfold ExporterModel.table_reference.
  rewrite Hentry, Htuples. cbn [mbind result_bind].
  destruct (where_before_join_loop_last self init name f value operator (Some "") d
              Hinit Hf Hv Ho) as (d' & -> & Htext & Hp).
  cbn [mbind result_bind]. exists d'. split; [|done].
  unfold predicate. destruct operator as [| | |op| |]; try reflexivity.
  destruct (supported (PStr op)) eqn:Hs; [|reflexivity].
  cbn [fmt from_option id opt_truthy].
  by rewrite placeholder_truthy.
Qed.

(** With a filter on [amount] followed by a filter on [id], only [id] is
    filtered. *)
Lemma table_reference_applies_last_filter_witness :
  ∃ d',
    ExporterModel.table_reference Order (Some two_filters) empty_sql_dict
    = Ok (" (SELECT * FROM orders WHERE id=%(id)s) AS orders", d')
    ∧ text d' = ∅
    ∧ ∃ p, parameters d' = Some p ∧ p !! "id" = Some (PInt 3).
Proof.
  apply (table_reference_applies_last_filter Order
           ("Order", [PDict [("field", PStr "amount"); ("value", PInt 5);
                             ("operator", PStr ">=")];
                      PDict [("field", PStr "id"); ("value", PInt 3)]]) []
           [PDict [("field", PStr "amount"); ("value", PInt 5); ("operator", PStr ">=")];
            PDict [("field", PStr "id"); ("value", PInt 3)]]
           [(PStr "amount", PInt 5, PStr ">=")] "id" (plain_field "id" "orders")
           (PInt 3) (PStr "=") empty_sql_dict).
  - reflexivity.
  - reflexivity.
  - constructor; [|constructor].
    exists "amount", (plain_field "amount" "orders"). repeat split.
  - reflexivity.
  - reflexivity.
  - reflexivity.
Defined.

(** ** Compiling a group without pre-join filters *)

Lemma own_sql_dict_unfiltered self table_name left_join join_model join_using query_layer
    where_before_join :
  where_before_join = None ∨ where_before_join = Some [] ->
  ∃ sql_dict,
    ExporterModel.own_sql_dict self table_name left_join join_model join_using
      where_before_join query_layer = Ok sql_dict.
Proof.
  intros [-> | ->]; unfold ExporterModel.own_sql_dict, ExporterModel.table_reference;
    cbn [mbind result_bind]; by eexists.
Qed.

Lemma join_related_joins models_by_name self fuel rec :
  (∀ join_model join_using st,
      ExporterModel.name join_model ∈ registered_names models_by_name ->
      ExporterModel.name join_model ∉ prepped_models st ->
      consistent st -> remaining models_by_name st ≤ fuel ->
      ∃ more, run_joins models_by_name st (ExporterModel.name join_model :: more)
                (rec join_model join_using st)) ->
  ∀ fields sql_dict st,
    consistent st -> remaining models_by_name st ≤ fuel ->
    ∃ more, run_joins models_by_name st more
              (ExporterModel.join_related rec models_by_name self fields sql_dict st).
Proof.
  intros Hrec fields. induction fields as [|field rest IH]; intros sql_dict st Hst Hfuel.
  - exists []. exists sql_dict, st. rewrite app_nil_r. done.
  - cbn [ExporterModel.join_related].
    destruct (ExporterModel.join_target models_by_name field) as [join_model|] eqn:Htarget;
      [|by apply IH].
    destruct (ExporterModel.skipped self join_model st) eqn:Hskip; [by apply IH|].
    unfold ExporterModel.skipped in Hskip. apply orb_false_iff in Hskip as [Hnew _].
    apply bool_decide_eq_false in Hnew.
    destruct (Hrec join_model (Some (ExporterField.column field None)) st)
      as (more1 & joined_dict & st1 & -> & Hst1 & Hsub1 & Hjoined1 & Hreg1);
      [by eapply join_target_registered|done..|].
    destruct (IH (merge2 sql_dict joined_dict) st1)
      as (more2 & d & st2 & -> & Hst2 & Hsub2 & Hjoined2 & Hreg2).
    + done.
    + pose proof (remaining_mono models_by_name st st1 Hsub1). lia.
    + exists ((ExporterModel.name join_model :: more1) ++ more2), d, st2.
      split; [done|]. split; [done|]. split; [set_solver|]. split.
      * by rewrite Hjoined2, Hjoined1, <- app_assoc.
      * by apply Forall_app.
Qed.

Lemma _sql_dict_joins models_by_name where_before_join query_layer fuel :
  where_before_join = None ∨ where_before_join = Some [] ->
  ∀ self table_name left_join join_model join_using st,
    ExporterModel.name self ∈ registered_names models_by_name ->
    ExporterModel.name self ∉ prepped_models st ->
    consistent st -> remaining models_by_name st ≤ fuel ->
    ∃ more, run_joins models_by_name st (ExporterModel.name self :: more)
              (ExporterModel._sql_dict fuel models_by_name self table_name left_join
                 join_model join_using where_before_join query_layer st).
Proof.
  intros Hquery.
  induction fuel as [|fuel IH]; intros self table_name left_join join_model join_using st
    Hreg Hnew Hst Hfuel.
  - pose proof (note_prepped_remaining models_by_name self empty_sql_dict st Hreg Hnew).
    lia.
  - cbn [ExporterModel._sql_dict].
    destruct (own_sql_dict_unfiltered self table_name left_join join_model join_using
                query_layer where_before_join Hquery) as [sql_dict ->].
    pose proof (note_prepped_remaining models_by_name self sql_dict st Hreg Hnew) as Hrem.
    cbn zeta.
    destruct (join_related_joins models_by_name self fuel
                (fun join_model join_using st =>
                   ExporterModel._sql_dict fuel models_by_name join_model None true
                     (Some self) join_using where_before_join query_layer st)
                (fun jm ju st' => IH jm None true (Some self) ju st')
                (ExporterModel.fields self) sql_dict
                (ExporterModel.note_prepped self (ExporterModel.emit self sql_dict st)))
      as (more & d & st' & -> & Hst' & Hsub & Hjoined & Hregs).
    + by apply note_prepped_consistent.
    + lia.
    + exists more, d, st'. split; [done|]. split; [done|].
      cbn in Hsub, Hjoined. split; [set_solver|]. split.
      * by rewrite Hjoined, <- app_assoc.
      * by constructor.
Qed.

(** X8. Compiling a dataset group without pre-join filters never fails for
    a configured group: when [primary_model] names a registered model the
    compile returns a fragment, the primary model is the first model
    joined, every joined model is a registered model of the group, and none
    is joined twice.  A missing or empty [primary_model] raises
    [ImproperlyConfigured]; a [primary_model] that names no registered model
    raises [KeyError]. *)
Theorem app_compiles_without_filters (self : ExporterApp.t) (query_layer : option string)
    (st : compile_state) :
  app_compile_outcome self (ExporterApp._sql_dict self None query_layer st)
  ∧ app_compile_outcome self (ExporterApp._sql_dict self (Some []) query_layer st).
Proof.
  assert (∀ where_before_join,
            where_before_join = None ∨ where_before_join = Some [] ->
            app_compile_outcome self
              (ExporterApp._sql_dict self where_before_join query_layer st)) as H.
  { intros where_before_join Hquery.
    unfold app_compile_outcome, ExporterApp._sql_dict.
    destruct (ExporterApp.primary_model self) as [primary|]; [|reflexivity].
    cbn [opt_truthy from_option id]. destruct (str_truthy primary); [|reflexivity].
    destruct (ExporterApp.models_by_name self !! primary) as [model|] eqn:Hmodel;
      [|reflexivity].
    destruct (_sql_dict_joins (ExporterApp.models_by_name self) where_before_join
                query_layer (S (size (ExporterApp.models_by_name self))) Hquery
                model None false None None ExporterApp.fresh_state)
      as (more & d & st' & Hrun & [Hnodup _] & _ & Hjoined & Hregs).
    - by eapply registered_lookup.
    - set_solver.
    - apply consistent_fresh.
    - unfold remaining. etrans; [apply subseteq_size|].
      + apply subseteq_difference_l. reflexivity.
      + pose proof (registered_names_size (ExporterApp.models_by_name self)). lia.
    - exists d, st', more. cbn in Hjoined. split; [done|]. split; [done|].
      split; [done|]. by rewrite Hjoined. }
  split; apply H; auto.
Qed.

(** ** Formulas with at most one token *)

Lemma count_char_cons_zero c x (s : string) :
  count_char c (String x s) = 0 -> Ascii.eqb x c = false ∧ count_char c s = 0.
Proof. cbn [count_char]. destruct (Ascii.eqb x c); [lia | done]. Qed.

Lemma quoted_tokens_quote_free (pre rest : string) :
  quote_free pre ->
  quoted_tokens_from (pre +:+ rest) None = quoted_tokens_from rest None.
Proof.
  unfold quote_free. induction pre as [|x pre IH]; [done|].
  intros [Hx Hpre]%count_char_cons_zero. rewrite append_cons.
  cbn [quoted_tokens_from]. rewrite Hx. by apply IH.
Qed.

Lemma quoted_tokens_closing (name post : string) :
  quote_free name -> one_line name ->
  ∀ inside,
    quoted_tokens_from (name +:+ dquote +:+ post) (Some inside)
    = (inside +:+ name +:+ dquote) :: quoted_tokens_from post None.
Proof.
  unfold quote_free, one_line. induction name as [|x name IH]; intros Hq Hn inside.
  - rewrite !append_nil_l. unfold dquote at 1. rewrite append_cons, append_nil_l.
    cbn [quoted_tokens_from]. by rewrite Ascii.eqb_refl.
  - apply count_char_cons_zero in Hq as [Hx Hq].
    apply count_char_cons_zero in Hn as [Hx' Hn].
    rewrite append_cons. cbn [quoted_tokens_from]. rewrite Hx, Hx'.
    rewrite IH by done. by rewrite !append_assoc.
Qed.

Lemma quoted_tokens_single (pre name post : string) :
  quote_free pre -> quote_free name -> one_line name -> quote_free post ->
  quoted_tokens (pre +:+ quoted name +:+ post) = [quoted name].
Proof.
  intros Hpre Hname Hline Hpost. unfold quoted_tokens, quoted.
  rewrite quoted_tokens_quote_free by done.
  unfold dquote at 1. rewrite !append_cons, !append_nil_l.
  cbn [quoted_tokens_from]. rewrite Ascii.eqb_refl.
  rewrite append_assoc, quoted_tokens_closing by done.
  rewrite <- (append_nil_r post), quoted_tokens_quote_free by done.
  reflexivity.
Qed.

Lemma strip_dquotes_quote_free (s : string) : quote_free s -> strip_dquotes s = s.
Proof.
  unfold quote_free. induction s as [|x s IH]; [done|].
  intros [Hx Hs]%count_char_cons_zero. cbn [strip_dquotes]. rewrite Hx. by rewrite IH.
Qed.

Lemma strip_dquotes_append (a b : string) :
  strip_dquotes (a +:+ b) = strip_dquotes a +:+ strip_dquotes b.
Proof.
  induction a as [|x a IH]; [done|]. rewrite append_cons. cbn [strip_dquotes].
  destruct (Ascii.eqb x dquote_char); [done|]. by rewrite append_cons, IH.
Qed.

Lemma strip_dquotes_quoted (name : string) :
  quote_free name -> strip_dquotes (quoted name) = name.
Proof.
  intros Hname. unfold quoted. rewrite !strip_dquotes_append.
  rewrite (strip_dquotes_quote_free name) by done.
  change (strip_dquotes dquote) with "". by rewrite append_nil_l, append_nil_r.
Qed.

Lemma starts_with_append (p s : string) : starts_with p (p +:+ s) = true.
Proof.
  induction p as [|x p IH]; [by destruct s|].
  rewrite append_cons. cbn [starts_with]. by rewrite Ascii.eqb_refl.
Qed.

Lemma replace_from_skip old new (x post : string) :
  replace_from old new (x +:+ post) (String.length x) = replace_from old new post 0.
Proof.
  induction x as [|a x IH]; [by rewrite append_nil_l|].
  rewrite append_cons. cbn [replace_from String.length]. apply IH.
Qed.

Lemma replace_from_no_start a old new (s : string) :
  count_char a s = 0 -> replace_from (String a old) new s 0 = s.
Proof.
  induction s as [|x s IH]; [done|].
  intros [Hx Hs]%count_char_cons_zero. cbn [replace_from starts_with].
  rewrite Ascii.eqb_sym, Hx. cbn [andb]. by rewrite IH.
Qed.

Lemma str_replace_single (pre name post new : string) :
  quote_free pre -> quote_free post ->
  str_replace (quoted name) new (pre +:+ quoted name +:+ post) = pre +:+ new +:+ post.
Proof.
  intros Hpre Hpost. unfold quoted, dquote at 1 3. rewrite !append_cons, !append_nil_l.
  unfold str_replace.
  set (old_rest := name +:+ dquote).
  unfold quote_free in Hpre. induction pre as [|x pre IH].
  - rewrite !append_nil_l. cbn [replace_from].
    pose proof (starts_with_append (String dquote_char old_rest) post) as Hstart.
    rewrite append_cons in Hstart. rewrite Hstart.
    change (String.length (String dquote_char old_rest) - 1)
      with (String.length old_rest - 0).
    rewrite Nat.sub_0_r, replace_from_skip.
    by rewrite replace_from_no_start.
  - apply count_char_cons_zero in Hpre as [Hx Hpre]. rewrite !append_cons.
    cbn [replace_from starts_with]. rewrite Ascii.eqb_sym, Hx. cbn [andb].
    by rewrite IH.
Qed.

(** X9. A formula with at most one quoted token is resolved exactly.  At a
    layer that formulas accept ([None], [base], [middle]): a non-empty
    formula without a double quote is returned as it is, without any field
    lookup; and a formula [pre "name" post], with no further double quote
    and no line feed in the name, resolves to [pre], the column of the
    field that [find_field] gives for [name], and [post]; when that lookup
    raises, the resolution raises the same exception. *)
Theorem _resolve_formula_single_token (self : Exporter.t) (pre name post : string)
    (query_layer : option string) :
  query_layer ∈ [None; Some "base"; Some "middle"] ->
  quote_free pre -> quote_free name -> one_line name -> quote_free post ->
  (pre ≠ "" -> Exporter._resolve_formula self (Some pre) query_layer = Ok (Some pre))
  ∧ Exporter._resolve_formula self (Some (pre +:+ quoted name +:+ post)) query_layer
    = match Exporter.find_field self None None (Some name) with
      | Ok field_object => Ok (Some (pre +:+ field_column field_object query_layer +:+ post))
      | Raise e => Raise e
      end.
Proof.
  intros Hlayer Hpre Hname Hline Hpost.
  assert (opt_truthy query_layer
          && negb (bool_decide (default "" query_layer ∈ ["base"; "middle"])) = false)
    as Hok.
  { repeat (apply elem_of_cons in Hlayer as [->|Hlayer]; [reflexivity|]).
    by apply elem_of_nil in Hlayer. }
  split.
  - intros Hne. unfold Exporter._resolve_formula.
    rewrite opt_truthy_some by done. cbn [negb from_option id]. rewrite Hok.
    unfold quoted_tokens. rewrite <- (append_nil_r pre) at 1.
    rewrite quoted_tokens_quote_free by done. reflexivity.
  - unfold Exporter._resolve_formula.
    assert (opt_truthy (Some (pre +:+ quoted name +:+ post)) = true) as ->.
    { apply str_truthy_append_r. unfold quoted, dquote. by rewrite append_cons. }
    cbn [negb from_option id]. rewrite Hok.
    rewrite quoted_tokens_single by done. cbn [Exporter.replace_tokens].
    rewrite strip_dquotes_quoted by done.
    destruct (Exporter.find_field self None None (Some name)) as [fo|e];
      cbn [mbind result_bind]; [|reflexivity].
    by rewrite str_replace_single.
Qed.

(** The spec's example [f("x")] on the table [t]. *)
Lemma _resolve_formula_single_token_witness :
  Exporter._resolve_formula Formulas (Some ("f(" +:+ quoted "x" +:+ ")")) (Some "middle")
  = Ok (Some "f(t_x)").
Proof.
  destruct (_resolve_formula_single_token Formulas "f(" "x" ")" (Some "middle"))
    as [_ H]; [set_solver | reflexivity..|].
  rewrite H. reflexivity.
Defined.

(** ** Source fields *)

Lemma split_on_count c s :
  length (split_on c s) = S (count_char c s)
  ∧ Forall (fun part => count_char c part = 0) (split_on c s).
Proof.
  induction s as [|x s [IHlen IHparts]]; [by split; [|repeat constructor]|].
  cbn [split_on count_char]. destruct (split_on c s) as [|part parts]; [done|].
  apply Forall_cons in IHparts as [Hpart Hparts]. cbn [length] in IHlen.
  destruct (Ascii.eqb x c) eqn:Hx.
  - split; [cbn [length]; lia | by repeat constructor].
  - split; [cbn [length]; lia |]. constructor; [|done]. cbn [count_char]. by rewrite Hx.
Qed.

Lemma two_dots_names_a_field s : count_char dot_char s = 2 -> names_a_field s = true.
Proof.
  intros Hs. unfold names_a_field, str_truthy.
  destruct (String.eqb_spec s "") as [->|_]; [done|].
  by destruct (String.eqb_spec s "*") as [->|_].
Qed.

Lemma find_field_two_dots self s :
  count_char dot_char s = 2 ->
  ∃ a m f, split_on dot_char s = [a; m; f]
    ∧ Exporter.find_field self (Some a) (Some m) (Some f)
      = Exporter.find_field self None None (Some s).
Proof.
  intros Hs. destruct (split_on_count dot_char s) as [Hlen Hparts]. rewrite Hs in Hlen.
  destruct (split_on dot_char s) as [|a [|m [|f [|? ?]]]] eqn:Hsplit; try done.
  exists a, m, f. split; [done|].
  apply Forall_cons in Hparts as [_ Hparts]. apply Forall_cons in Hparts as [_ Hparts].
  apply Forall_cons in Hparts as [Hf _].
  pose proof (two_dots_names_a_field s Hs) as Hname.
  apply andb_true_iff in Hname as [Hname _].
  unfold Exporter.find_field. cbn [from_option id opt_truthy negb].
  rewrite Hname, Hs, Hsplit, Hf. cbn [Nat.eqb andb]. by rewrite !andb_false_r.
Qed.

(** One turn of the loop over the strings of a source-field list: the
    treatment of the form [app.model.field] agrees with what [find_field]
    does with the whole string. *)
Lemma collect_step self name rest acc :
  Resolver.collect self (PStr name :: rest) acc
  = if names_a_field name
    then pbind (Some (Exporter.find_field self None None (Some name)))
               (fun field_object => Resolver.collect self rest (acc ++ [field_object]))
    else Resolver.collect self rest acc.
Proof.
  cbn [Resolver.collect]. destruct (count_char dot_char name =? 2) eqn:Hdots.
  - apply Nat.eqb_eq in Hdots. rewrite (two_dots_names_a_field name Hdots).
    destruct (find_field_two_dots self name Hdots) as (a & m & f & -> & ->). done.
  - reflexivity.
Qed.

Lemma collect_names self names :
  ∀ acc fields,
    resolves self (List.filter names_a_field names) fields ->
    Resolver.collect self (PStr <$> names) acc = Some (Ok (acc ++ fields)).
Proof.
  induction names as [|name names IH]; intros acc fields Hfields.
  - apply Forall2_nil_inv_l in Hfields as ->. by rewrite app_nil_r.
  - rewrite fmap_cons, collect_step. cbn [List.filter] in Hfields.
    destruct (names_a_field name).
    + apply Forall2_cons_inv_l in Hfields as (field & fields' & Hfield & Hrest & ->).
      rewrite Hfield. cbn [pbind]. rewrite (IH _ _ Hrest). by rewrite <- app_assoc.
    + by apply IH.
Qed.

Lemma collect_failure self pre bad post e :
  ∀ acc fields,
    resolves self (List.filter names_a_field pre) fields ->
    names_a_field bad = true ->
    Exporter.find_field self None None (Some bad) = Raise e ->
    Resolver.collect self (PStr <$> (pre ++ bad :: post)) acc = Some (Raise e).
Proof.
  induction pre as [|name pre IH]; intros acc fields Hfields Hbad He.
  - cbn [app]. by rewrite fmap_cons, collect_step, Hbad, He.
  - cbn [app]. rewrite fmap_cons, collect_step. cbn [List.filter] in Hfields.
    destruct (names_a_field name).
    + apply Forall2_cons_inv_l in Hfields as (field & fields' & Hfield & Hrest & ->).
      rewrite Hfield. cbn [pbind]. by eapply IH.
    + by eapply IH.
Qed.

Lemma fmap_truthy (names : list string) :
  truthy (PList (PStr <$> names)) = match names with [] => false | _ => true end.
Proof. by destruct names. Qed.

(** X10. The source fields of a column, given as a list of names: blank
    names and the star are skipped, every other name is looked up as
    [find_field(field=name)] looks it up (also a name of the form
    [app.model.field]), and the columns come out in the order of the list:
    none gives [None], one gives the column alone, several give
    [ROW(c1, c2, ...)], or [c1 || c2 || ...] for the operator [join]. *)
Theorem _resolve_source_field_of_names (self : Exporter.t) (names : list string)
    (fields : list field_object) (field_query_layer : option string) (operator : pyval) :
  resolves self (List.filter names_a_field names) fields ->
  Resolver._resolve_source_field self (PList (PStr <$> names)) field_query_layer operator
  = Some (Ok match columns_of fields field_query_layer with
             | [] => None
             | [column] => Some column
             | columns =>
                 Some (if str_is operator "join" then join " || " columns
                       else "ROW(" +:+ join ", " columns +:+ ")")
             end).
Proof.
  intros Hfields. unfold Resolver._resolve_source_field. rewrite fmap_truthy.
  destruct names as [|name names].
  - cbn [List.filter] in Hfields. by apply Forall2_nil_inv_l in Hfields as ->.
  - cbn [negb]. rewrite (collect_names self _ [] fields Hfields). cbn [pbind app].
    destruct fields as [|field [|field' fields]]; [done | done |].
    unfold columns_of. cbn [map]. by destruct (str_is operator "join").
Qed.

(** In the sample schema: two names, the star and a blank. *)
Lemma _resolve_source_field_of_names_witness :
  Resolver._resolve_source_field Sales
    (PList (PStr <$> ["amount"; "*"; "shop.Customer.city"; ""])) None PNone
  = Some (Ok (Some "ROW(amount, city)")).
Proof.
  exact (_resolve_source_field_of_names Sales ["amount"; "*"; "shop.Customer.city"; ""]
           [Field (plain_field "amount" "orders"); Field (plain_field "city" "customers")]
           None PNone ltac:(repeat constructor)).
Defined.

(** X11. When a name of the list cannot be resolved, and the names before it
    can, the call raises what [find_field] raises for that name, whatever
    follows it in the list. *)
Theorem _resolve_source_field_first_failure (self : Exporter.t) (pre : list string)
    (bad : string) (post : list string) (fields : list field_object) (e : exn)
    (field_query_layer : option string) (operator : pyval) :
  resolves self (List.filter names_a_field pre) fields ->
  names_a_field bad = true ->
  Exporter.find_field self None None (Some bad) = Raise e ->
  Resolver._resolve_source_field self (PList (PStr <$> (pre ++ bad :: post)))
    field_query_layer operator
  = Some (Raise e).
Proof.
  intros Hfields Hbad He. unfold Resolver._resolve_source_field. rewrite fmap_truthy.
  destruct (pre ++ bad :: post) eqn:Hlist; [by destruct pre|]. rewrite <- Hlist.
  cbn [negb]. by rewrite (collect_failure self pre bad post e [] fields Hfields Hbad He).
Qed.

(** In the sample schema [id] is a field of two models. *)
Lemma _resolve_source_field_first_failure_witness :
  Resolver._resolve_source_field Sales (PList (PStr <$> (["amount"] ++ "id" :: ["city"])))
    None PNone
  = Some (Raise MLExportWizardFieldNotFound).
Proof.
  exact (_resolve_source_field_first_failure Sales ["amount"] "id" ["city"]
           [Field (plain_field "amount" "orders")] MLExportWizardFieldNotFound None PNone
           ltac:(repeat constructor) eq_refl eq_refl).
Defined.

(** ** Column declarations *)

Lemma alias_bit_named column name select_bit :
  Resolver.get column "column_name" = PStr name ->
  Resolver.alias_bit column select_bit = Some (select_bit +:+ alias name).
Proof.
  intros Hname. unfold Resolver.alias_bit, alias. rewrite Hname.
  cbn [truthy py_str mbind option_bind]. fold (str_truthy name).
  destruct (str_truthy name); [done|]. by rewrite append_nil_r.
Qed.

Lemma filter_block_skipped self column layer select_bit parameters :
  truthy (Resolver.get column "filter") = false ->
  ExtraField.filter_block self column layer select_bit parameters
  = Ok (select_bit, parameters).
Proof.
  unfold Resolver.get, ExtraField.filter_block.
  destruct (dict_get column "filter") as [v|]; [|done]. cbn [from_option id].
  by intros ->.
Qed.

(** A declaration without value, formula, cast and filter: the source
    column and the function decide the text. *)
Lemma plain_declaration_result self column name query_layer field_query_layer
    field_column select_bit :
  plain_declaration column ->
  Resolver.get column "column_name" = PStr name ->
  Resolver.source_column self column field_query_layer = Some (Ok field_column) ->
  Resolver.function_bit column field_column "" = Some select_bit ->
  Resolver._resolve_extra_field self column query_layer field_query_layer
  = Some (Ok (PStr (select_bit +:+ alias name), Resolver.Parameters ∅)).
Proof.
  intros (Hvalue & Hformula & Hcast & Hfilter) Hname Hsource Hfunction.
  unfold Resolver._resolve_extra_field, ExtraField.literal. rewrite Hvalue, Hsource.
  cbn [pbind]. unfold Resolver.formula_bit, covered. rewrite Hformula. cbn [pbind].
  rewrite Hfunction. unfold Resolver.cast_bit. rewrite Hcast.
  rewrite (filter_block_skipped _ _ _ _ _ Hfilter). cbn [pbind].
  by rewrite (alias_bit_named _ _ _ Hname).
Qed.

Lemma plain_declaration_failure self column query_layer field_query_layer e :
  dict_get column "value" = None ->
  Resolver.source_column self column field_query_layer = Some (Raise e) ->
  Resolver._resolve_extra_field self column query_layer field_query_layer
  = Some (Raise e).
Proof.
  intros Hvalue Hsource. unfold Resolver._resolve_extra_field, ExtraField.literal.
  by rewrite Hvalue, Hsource.
Qed.

Lemma source_column_of_name self column field_query_layer name :
  Resolver.get column "source_field" = PStr name ->
  Resolver.source_column self column field_query_layer
  = if names_a_field name
    then match Exporter.find_field self None None (Some name) with
         | Ok field => Some (Ok (Some (field_column field field_query_layer)))
         | Raise e => Some (Raise e)
         end
    else if str_truthy name then Some (Ok None)
    else if truthy (Resolver.get column "case_expression")
    then match Resolver.get column "case_expression" with
         | PDict case_expression =>
             Resolver._resolve_source_field self
               (Resolver.get case_expression "source_field") field_query_layer
               (Resolver.get case_expression "operator")
         | _ => Some (Raise AttributeError)
         end
    else Some (Ok (Some "")).
Proof.
  intros Hsource. unfold Resolver.source_column. rewrite Hsource.
  cbn [truthy]. fold (str_truthy name). unfold names_a_field.
  destruct (str_truthy name) eqn:Htruthy; cbn [andb]; [|done].
  unfold Resolver._resolve_source_field. cbn [truthy]. fold (str_truthy name).
  rewrite Htruthy. cbn [negb]. rewrite collect_step. unfold names_a_field.
  rewrite Htruthy. cbn [andb]. destruct (negb (name =? "*")%string); [|done].
  cbn [Resolver.collect]. by destruct (Exporter.find_field self None None (Some name)).
Qed.

(** X12. A plain [count] column.  Over the star, or with no source field
    and no case expression, it counts the rows, with the star as argument; over a source field that
    resolves to a non-empty column [c] it is [COUNT(c)], or
    [COUNT(DISTINCT c)] when [distinct] is set; when the source field
    cannot be resolved the lookup's exception is raised.  The column name
    follows as [ AS name], and there are no parameters. *)
Theorem count_column (self : Exporter.t) (column : list (string * pyval)) (name : string)
    (query_layer field_query_layer : option string) :
  plain_declaration column ->
  Resolver.get column "function" = PStr "count" ->
  Resolver.get column "column_name" = PStr name ->
  let outcome :=
    Resolver._resolve_extra_field self column query_layer field_query_layer in
  ((Resolver.get column "source_field" = PStr "*"
    ∨ (truthy (Resolver.get column "source_field") = false
       ∧ truthy (Resolver.get column "case_expression") = false)) ->
   outcome = Some (Ok (PStr ("COUNT(*)" +:+ alias name), Resolver.Parameters ∅)))
  ∧ (∀ source, Resolver.get column "source_field" = PStr source ->
       names_a_field source = true ->
       match Exporter.find_field self None None (Some source) with
       | Ok field =>
           field_column field field_query_layer ≠ "" ->
           outcome
           = Some (Ok (PStr ("COUNT(" +:+ Resolver.distinct_bit column
                               +:+ field_column field field_query_layer +:+ ")"
                               +:+ alias name),
                       Resolver.Parameters ∅))
       | Raise e => outcome = Some (Raise e)
       end).
Proof.
  intros Hplain Hfunction Hname outcome. subst outcome. split.
  - intros Hsource.
    apply (plain_declaration_result self column name _ _
             (match Resolver.get column "source_field" with
              | PStr "*" => None | _ => Some "" end)); try done.
    + destruct Hsource as [Hstar|[Hnone Hcase]].
      * by rewrite (source_column_of_name _ _ _ "*" Hstar), Hstar.
      * unfold Resolver.source_column. rewrite Hnone, Hcase.
        destruct (Resolver.get column "source_field") as [| | |s| |]; try done.
        destruct (String.eqb_spec s "*") as [->|Hs]; [done|].
        by destruct s as [|[[] [] [] [] [] [] [] []] [|??]].
    + unfold Resolver.function_bit. rewrite Hfunction. cbn [str_is String.eqb Ascii.eqb
        Bool.eqb andb].
      by destruct (Resolver.get column "source_field") as [| | |[|[[] [] [] [] [] [] [] []] [|??]]| |].
  - intros source Hsource Hreal.
    pose proof (source_column_of_name self column field_query_layer source Hsource)
      as Hcolumn.
    rewrite Hreal in Hcolumn.
    destruct (Exporter.find_field self None None (Some source)) as [field|e].
    + intros Htext.
      rewrite (plain_declaration_result self column name _ _ _
                 ("COUNT(" +:+ Resolver.distinct_bit column
                    +:+ field_column field field_query_layer +:+ ")")
                 Hplain Hname Hcolumn);
        [by rewrite <- !append_assoc|].
      unfold Resolver.function_bit. rewrite Hfunction.
      cbn [str_is String.eqb Ascii.eqb Bool.eqb andb fmt from_option id].
      by rewrite opt_truthy_some.
    + apply plain_declaration_failure; [apply Hplain | done].
Qed.

(** In the sample schema: the orders counted, over the star. *)
Lemma count_column_witness :
  Resolver._resolve_extra_field Sales count_orders None (Some "base")
  = Some (Ok (PStr "COUNT(*) AS orders", Resolver.Parameters ∅)).
Proof.
  exact (proj1 (count_column Sales count_orders "orders" None (Some "base")
                  ltac:(by repeat split) eq_refl eq_refl)
               (or_introl eq_refl)).
Defined.

(** X13. A declaration that names a source but no function and no formula
    selects nothing from the source: when its source column resolves, the
    text returned is the alias alone (empty for a declaration without
    column name).  The same holds for [sum] and [aggragate] when the
    source gives no column. *)
Theorem declaration_without_function_selects_nothing (self : Exporter.t)
    (column : list (string * pyval)) (name : string) (field_column : option string)
    (query_layer field_query_layer : option string) :
  plain_declaration column ->
  Resolver.get column "column_name" = PStr name ->
  Resolver.source_column self column field_query_layer = Some (Ok field_column) ->
  no_function column
  ∨ (opt_truthy field_column = false
     ∧ (Resolver.get column "function" = PStr "sum"
        ∨ Resolver.get column "function" = PStr "aggragate")) ->
  Resolver._resolve_extra_field self column query_layer field_query_layer
  = Some (Ok (PStr (alias name), Resolver.Parameters ∅)).
Proof.
  intros Hplain Hname Hsource Hfunction.
  rewrite (plain_declaration_result self column name _ _ field_column ""
             Hplain Hname Hsource); [by rewrite append_nil_l|].
  unfold Resolver.function_bit.
  destruct Hfunction as [Hnone|[Hfalsy [Hsum|Haggregate]]].
  - unfold no_function in Hnone. rewrite !Forall_cons in Hnone.
    destruct Hnone as (-> & -> & -> & -> & _). done.
  - rewrite Hsum, Hfalsy. done.
  - rewrite Haggregate, Hfalsy. done.
Qed.

(** In the sample schema: the amount, declared as a column of its own. *)
Lemma declaration_without_function_selects_nothing_witness :
  Resolver._resolve_extra_field Sales amount_only None None
  = Some (Ok (PStr " AS amount_copy", Resolver.Parameters ∅)).
Proof.
  apply (declaration_without_function_selects_nothing Sales amount_only "amount_copy"
           (Some "amount") None None).
  - by repeat split.
  - reflexivity.
  - reflexivity.
  - left. unfold no_function. by repeat constructor.
Defined.

(** ** The request clauses of [final_sql] *)

Lemma join_cons sep (x : string) (l : list string) :
  l ≠ [] -> join sep (x :: l) = x +:+ sep +:+ join sep l.
Proof. by destruct l. Qed.

Lemma join_app_join sep (l m : list string) :
  m ≠ [] -> join sep (l ++ [join sep m]) = join sep (l ++ m).
Proof.
  intros Hm. induction l as [|x l IH]; [done|]. cbn [app].
  rewrite !join_cons; [by rewrite IH | by destruct l, m | by destruct l].
Qed.

Lemma filter_none_truthy (s : string) (rest : list (option string)) :
  str_truthy s = true -> filter_none (Some s :: rest) = s :: filter_none rest.
Proof. intros Hs. cbn [filter_none]. by rewrite Hs. Qed.

Lemma filter_none_some_join sep (x : option string) (s : string) (l : list string) :
  str_truthy s = true ->
  join sep (filter_none [Some (join sep (filter_none [x; Some s]))] ++ l)
  = join sep (filter_none [x] ++ s :: l).
Proof.
  intros Hs. destruct x as [x|]; cbn [filter_none]; [destruct (str_truthy x) eqn:Hx|].
  - rewrite Hs. change (join sep [x; s]) with (x +:+ sep +:+ s).
    rewrite (str_truthy_append x _ Hx). cbn [app].
    destruct l as [|y l]; [done|].
    rewrite !join_cons by done. by rewrite !append_assoc.
  - rewrite Hs. cbn [join]. by rewrite Hs.
  - rewrite Hs. cbn [join]. by rewrite Hs.
Qed.

Lemma group_by_loop_names self field_query_layer names :
  ∀ fields sql_dict,
    resolves self names fields ->
    Forall (fun column => str_truthy column = true) (columns_of fields field_query_layer) ->
    ∃ sql_dict',
      FinalSql.group_by_loop self (PStr <$> names) field_query_layer sql_dict
      = Some (Ok sql_dict')
      ∧ (names ≠ [] ->
         sql_dict' !! "group_by"
         = Some (join ", " (filter_none [sql_dict !! "group_by"]
                              ++ columns_of fields field_query_layer))
         ∧ sql_dict' !! "select"
           = Some (join ", " (rev (columns_of fields field_query_layer)
                                ++ filter_none [sql_dict !! "select"])))
      ∧ (names = [] -> sql_dict' = sql_dict)
      ∧ ∀ key, key ≠ "group_by" -> key ≠ "select" -> sql_dict' !! key = sql_dict !! key.
Proof.
  induction names as [|name names IH]; intros fields sql_dict Hfields Hcolumns.
  - exists sql_dict. by repeat split.
  - apply Forall2_cons_inv_l in Hfields as (field & fields' & Hfield & Hrest & ->).
    unfold columns_of in Hcolumns. cbn [map] in Hcolumns.
    apply Forall_cons in Hcolumns as [Hcolumn Hcolumns].
    rewrite fmap_cons. cbn [FinalSql.group_by_loop FinalSql.field_of_reference].
    rewrite Hfield. cbn [pbind]. rewrite lookup_insert_ne by done.
    set (column := field_column field field_query_layer) in *.
    set (grouped := join ", " (filter_none [sql_dict !! "group_by"; Some column])).
    set (selected := join ", " (filter_none [Some column; sql_dict !! "select"])).
    destruct (IH fields' (<["select" := selected]> (<["group_by" := grouped]> sql_dict))
                Hrest Hcolumns) as (sql_dict' & Hrun & Hclauses & Hempty & Hother).
    exists sql_dict'. split; [exact Hrun|]. split; [|split; [done|]].
    + intros _. destruct names as [|name' names].
      * rewrite (Hempty eq_refl). apply Forall2_nil_inv_l in Hrest as ->.
        rewrite lookup_insert_eq, lookup_insert_ne, lookup_insert_eq by done.
        unfold columns_of. cbn [map rev app]. subst grouped selected. split.
        -- f_equal. destruct (sql_dict !! "group_by") as [g|]; cbn [filter_none];
             [destruct (str_truthy g)|]; by rewrite Hcolumn.
        -- by rewrite filter_none_truthy.
      * destruct (Hclauses ltac:(done)) as [Hgroup Hselect].
        rewrite Hgroup, Hselect.
        rewrite lookup_insert_eq, lookup_insert_ne, lookup_insert_eq by done.
        unfold columns_of. cbn [map rev]. fold (columns_of fields' field_query_layer).
        fold column. subst grouped selected. split; f_equal.
        -- by apply filter_none_some_join.
        -- rewrite <- app_assoc. cbn [app].
           rewrite (filter_none_truthy column) by done.
           assert (str_truthy (join ", " (column :: filter_none [sql_dict !! "select"]))
                   = true) as Hjoined.
           { destruct (filter_none [sql_dict !! "select"]); [done|].
             rewrite join_cons by done. by apply str_truthy_append. }
           rewrite (filter_none_truthy _ [] Hjoined). cbn [filter_none].
           by apply join_app_join.
    + intros key Hgroup Hselect. rewrite (Hother key Hgroup Hselect).
      by rewrite !lookup_insert_ne.
Qed.

(** X14. Grouping by a list of field names, each resolving to a non-empty
    column: the group-by text is the existing one followed by the columns
    in the order given, and every column is put in front of the select
    text, so the select text starts with the columns in reverse order.
    No other clause is touched. *)
Theorem group_by_prepends_to_select (self : Exporter.t) (names : list string)
    (fields : list field_object) (field_query_layer : option string)
    (sql_dict : gmap string string) :
  names ≠ [] ->
  resolves self names fields ->
  Forall (fun column => column ≠ "") (columns_of fields field_query_layer) ->
  ∃ sql_dict',
    FinalSql.group_by_loop self (PStr <$> names) field_query_layer sql_dict
    = Some (Ok sql_dict')
    ∧ sql_dict' !! "group_by"
      = Some (join ", " (filter_none [sql_dict !! "group_by"]
                           ++ columns_of fields field_query_layer))
    ∧ sql_dict' !! "select"
      = Some (join ", " (rev (columns_of fields field_query_layer)
                           ++ filter_none [sql_dict !! "select"]))
    ∧ ∀ key, key ≠ "group_by" -> key ≠ "select" -> sql_dict' !! key = sql_dict !! key.
Proof.
  intros Hnames Hfields Hcolumns.
  destruct (group_by_loop_names self field_query_layer names fields sql_dict Hfields)
    as (sql_dict' & Hrun & Hclauses & _ & Hother).
  { eapply Forall_impl; [exact Hcolumns|]. intros column. apply str_truthy_iff. }
  exists sql_dict'. destruct (Hclauses Hnames) as [Hgroup Hselect]. by repeat split.
Qed.

(** In the sample schema: grouped by city, then amount, over a count. *)
Lemma group_by_prepends_to_select_witness :
  ∃ sql_dict',
    FinalSql.group_by_loop Sales (PStr <$> ["city"; "amount"]) None {["select" := "COUNT(id)"]}
    = Some (Ok sql_dict')
    ∧ sql_dict' !! "group_by" = Some "city, amount"
    ∧ sql_dict' !! "select" = Some "amount, city, COUNT(id)".
Proof.
  destruct (group_by_prepends_to_select Sales ["city"; "amount"]
              [Field (plain_field "city" "customers"); Field (plain_field "amount" "orders")]
              None {["select" := "COUNT(id)"]})
    as (sql_dict' & Hrun & Hgroup & Hselect & _).
  - discriminate.
  - by repeat constructor.
  - by repeat constructor.
  - exists sql_dict'. split; [exact Hrun|]. split.
    + rewrite Hgroup. vm_compute. reflexivity.
    + rewrite Hselect. vm_compute. reflexivity.
Defined.

(** ** The filters of a request and of a column *)

Lemma join_filter_single sep (w : string) : join sep (filter_none [Some w]) = w.
Proof.
  cbn [filter_none]. destruct (str_truthy w) eqn:Hw; [done|].
  by rewrite (str_truthy_false w Hw).
Qed.

Lemma item_of_field c : ExtraField.item (item_of c) "field" = Ok (PStr (on c)).
Proof. reflexivity. Qed.

Lemma item_of_value c : ExtraField.item (item_of c) "value" = Ok (value c).
Proof. unfold item_of. by destruct (operator c). Qed.

Lemma item_of_operator c :
  ExtraField.item (item_of c) "operator"
  = match operator c with
    | Some op => Ok (PStr op)
    | None => Raise KeyError
    end.
Proof. unfold item_of. by destruct (operator c). Qed.

Lemma where_bit_of_condition c column where_bit :
  ∃ entries, item_of c = PDict entries
    ∧ FinalSql.where_bit_of entries column where_bit
      = Some (condition_text column c, {[column := value c]}).
Proof.
  unfold item_of, condition_text. eexists. split; [reflexivity|].
  by destruct (operator c).
Qed.

Lemma condition_text_truthy column c : str_truthy (condition_text column c) = true.
Proof. unfold condition_text. by do 3 apply str_truthy_append_r. Qed.

Lemma where_loop_conditions self field_query_layer conditions :
  ∀ fields sql_where where_bit (parameters : gmap string pyval),
    resolves self (on <$> conditions) fields ->
    let columns := columns_of fields field_query_layer in
    ∃ sql_where' where_bit',
      FinalSql.where_loop self (item_of <$> conditions) field_query_layer
        (sql_where, where_bit, parameters)
      = Some (Ok (sql_where', where_bit',
                  list_to_map (rev (zip columns (value <$> conditions))) ∪ parameters))
      ∧ join " AND " (filter_none [sql_where'])
        = join " AND " (filter_none [sql_where] ++ zip_with condition_text columns conditions)
      ∧ (conditions ≠ [] -> is_Some sql_where').
Proof.
  induction conditions as [|c conditions IH];
    intros fields sql_where where_bit parameters Hfields columns.
  - apply Forall2_nil_inv_l in Hfields. subst fields columns.
    exists sql_where, where_bit. cbn. rewrite (left_id_L ∅ (∪)).
    split; [done|]. split; [by rewrite app_nil_r | done].
  - rewrite fmap_cons in Hfields.
    apply Forall2_cons_inv_l in Hfields as (field & fields' & Hfield & Hrest & ->).
    subst columns. unfold columns_of. cbn [map]. fold (columns_of fields' field_query_layer).
    set (column := field_column field field_query_layer).
    rewrite !fmap_cons. cbn [FinalSql.where_loop]. rewrite item_of_field.
    unfold covered. cbn [pbind FinalSql.field_of_reference]. rewrite Hfield. cbn [pbind].
    fold column.
    destruct (where_bit_of_condition c column where_bit) as (entries & -> & ->).
    destruct (IH fields'
                (Some (join " AND " (filter_none [sql_where; Some (condition_text column c)])))
                (Some (condition_text column c))
                (dict_or parameters {[column := value c]}) Hrest)
      as (sql_where' & where_bit' & Hrun & Htext & Hsome).
    exists sql_where', where_bit'. split; [|split].
    + rewrite Hrun. do 3 f_equal. cbn [zip zip_with rev]. unfold dict_or.
      rewrite list_to_map_app. cbn [list_to_map foldr uncurry].
      rewrite insert_empty. by rewrite (assoc_L (∪)).
    + rewrite Htext. cbn [zip_with].
      apply filter_none_some_join, condition_text_truthy.
    + intros _. destruct conditions as [|c' conditions].
      * cbn [fmap list_fmap FinalSql.where_loop] in Hrun. by injection Hrun as <- _ _.
      * by apply Hsome.
Qed.

(** X15. The comparisons of [query.where], on fields that resolve: the
    predicates are joined by [AND] in the order given, a comparison without
    operator is for equality, and the placeholder of a predicate is named
    after the column alone.  The parameters hold one value per column:
    of several comparisons on one column the value of the last is kept,
    for all their placeholders. *)
Theorem where_placeholders_are_per_column (self : Exporter.t) (conditions : list condition)
    (fields : list field_object) (field_query_layer : option string) :
  conditions ≠ [] ->
  resolves self (on <$> conditions) fields ->
  let columns := columns_of fields field_query_layer in
  ∃ where_bit,
    FinalSql.where_loop self (item_of <$> conditions) field_query_layer (None, None, ∅)
    = Some (Ok (Some (join " AND " (zip_with condition_text columns conditions)),
                where_bit,
                list_to_map (rev (zip columns (value <$> conditions))))).
Proof.
  intros Hconditions Hfields columns.
  destruct (where_loop_conditions self field_query_layer conditions fields None None ∅
              Hfields) as (sql_where' & where_bit' & Hrun & Htext & Hsome).
  destruct (Hsome Hconditions) as [w ->]. rewrite join_filter_single in Htext.
  exists where_bit'. rewrite Hrun, Htext. by rewrite (right_id_L ∅ (∪)).
Qed.

(** In the sample schema: a range on the amount. *)
Lemma where_placeholders_are_per_column_witness :
  ∃ where_bit,
    FinalSql.where_loop Sales (item_of <$> amount_range) None (None, None, ∅)
    = Some (Ok (Some "amount >= %(amount)s AND amount < %(amount)s", where_bit,
                {["amount" := PInt 10]})).
Proof.
  destruct (where_placeholders_are_per_column Sales amount_range
              [Field (plain_field "amount" "orders"); Field (plain_field "amount" "orders")]
              None) as (where_bit & Hrun).
  - discriminate.
  - by repeat constructor.
  - exists where_bit. rewrite Hrun. reflexivity.
Defined.

Lemma filter_loop_conditions self field_query_layer init :
  ∀ fields last op field acc,
    Forall (fun c => is_Some (operator c)) init ->
    resolves self (on <$> init) fields ->
    operator last = Some op ->
    Exporter.find_field self None None (Some (on last)) = Ok field ->
    ExtraField.filter_loop self (item_of <$> (init ++ [last])) field_query_layer acc
    = Ok (_resolve_where (PStr op) (Some field) (value last) field_query_layer).
Proof.
  induction init as [|c init IH]; intros fields last op field acc Hops Hfields Hop Hfield.
  - cbn [app fmap list_fmap ExtraField.filter_loop].
    rewrite item_of_field, item_of_operator, item_of_value, Hop. cbn [mbind result_bind Exporter.find_field_value].
    by rewrite Hfield.
  - apply Forall_cons in Hops as [[op' Hop'] Hops]. rewrite fmap_cons in Hfields.
    apply Forall2_cons_inv_l in Hfields as (field' & fields' & Hfield' & Hrest & ->).
    cbn [app]. rewrite fmap_cons. cbn [ExtraField.filter_loop].
    rewrite item_of_field, item_of_operator, item_of_value, Hop'. cbn [mbind result_bind Exporter.find_field_value].
    rewrite Hfield'. cbn [mbind result_bind Exporter.find_field_value]. by eapply IH.
Qed.

(** X16. The filter of a column, given as a list of comparisons on fields
    that resolve, the earlier ones each with an operator: only the last
    comparison decides the predicate and the parameters, which are those
    [_resolve_where] returns for it; when the last comparison has no
    operator the loop raises [KeyError]. *)
Theorem column_filter_applies_last_item (self : Exporter.t) (init : list condition)
    (last : condition) (fields : list field_object) (field : field_object)
    (field_query_layer : option string)
    (acc : option string * option (gmap string pyval)) :
  Forall (fun c => is_Some (operator c)) init ->
  resolves self (on <$> init) fields ->
  Exporter.find_field self None None (Some (on last)) = Ok field ->
  ExtraField.filter_loop self (item_of <$> (init ++ [last])) field_query_layer acc
  = match operator last with
    | Some op => Ok (_resolve_where (PStr op) (Some field) (value last) field_query_layer)
    | None => Raise KeyError
    end.
Proof.
  intros Hops Hfields Hfield. destruct (operator last) as [op|] eqn:Hop.
  - by eapply filter_loop_conditions.
  - revert fields acc Hops Hfields.
    induction init as [|c init IH]; intros fields acc Hops Hfields.
    + cbn [app fmap list_fmap ExtraField.filter_loop].
      rewrite item_of_field, item_of_operator, Hop. cbn [mbind result_bind Exporter.find_field_value].
      by rewrite Hfield.
    + apply Forall_cons in Hops as [[op' Hop'] Hops]. rewrite fmap_cons in Hfields.
      apply Forall2_cons_inv_l in Hfields as (field' & fields' & Hfield' & Hrest & ->).
      cbn [app]. rewrite fmap_cons. cbn [ExtraField.filter_loop].
      rewrite item_of_field, item_of_operator, item_of_value, Hop'.
      cbn [mbind result_bind Exporter.find_field_value]. rewrite Hfield'. cbn [mbind result_bind Exporter.find_field_value]. by eapply IH.
Qed.

(** In the sample schema: the range on the amount, then the city. *)
Lemma column_filter_applies_last_item_witness :
  ExtraField.filter_loop Sales (item_of <$> (amount_range ++ [in_paris])) None (Some "", None)
  = Ok (Some "city=%(city)s", Some {["city" := PStr "Paris"]}).
Proof.
  rewrite (column_filter_applies_last_item Sales amount_range in_paris
             [Field (plain_field "amount" "orders"); Field (plain_field "amount" "orders")]
             (Field (plain_field "city" "customers")) None (Some "", None)).
  - reflexivity.
  - repeat constructor; by eexists.
  - by repeat constructor.
  - reflexivity.
Defined.
